(** * Transparencia: consensus, affinity, outcome and participation statistics

    A shallow embedding of [src/utils/consensusStats.ts] (with the
    [dashboardStats] declarations it carries) and
    [src/utils/participationStats.ts], and the properties of the four analysis
    functions [calculateConsensus]/[getRankings], [getAffinity],
    [calculateDashboardStats] and [calculateParticipationStats].

    Modelling conventions.
    - Vote counts are integers (the data model calls them [int]); they are
      values of [Z], and [+], [-], [Math.abs], [Math.max] and the comparisons
      between counts are the ones of [Z].
    - [/] leaves the integers.  Its result, and everything computed from it
      ([* 100], [Math.round]) is a [number]: a finite value, or one of the
      three non-finite values [Infinity], [-Infinity], [NaN] that [/] with a
      zero divisor yields.  A finite value is the rational that the double
      stands for.  [/], [*] and a decimal literal round to binary64:
      [binary64 q] is the number with a 53-bit significand nearest to [q],
      a tie going to the even significand.  So [(184 / 320) * 100] is
      [57.49999999999999], which [Math.round] takes to 57, where the exact
      percentage 57.5 would go to 58.  [percent_as_machine] compares [/]
      and [*] as defined here with the doubles of the machine.
    - The exponent range is not bounded (no overflow to [Infinity], no
      gradual underflow: both need magnitudes beyond [2^1023] or below
      [2^-1022]), and counts are below [2^53], so that a count, a sum or a
      difference of counts, and an integer index are doubles as they stand.
    - An optional field is an [option]; a [Record<string, number>] of the
      data is an association list in property order.  An object that the
      code fills is an association list in insertion order, which
      [Object_entries] enumerates as JavaScript does: the keys that are
      array indices first, in numeric order, then the others as inserted.
    - Strings are byte strings in UTF-8; [includes] on bytes agrees with
      [includes] on UTF-16 code units for well-formed text. *)

From Stdlib Require Import ZArith QArith Qround Qabs Qpower.
From Stdlib Require Import Lia Lqa List Bool.
From Stdlib Require Import String Ascii DecimalString.
From Stdlib Require Import Permutation Sorted.
From Stdlib Require PrimFloat FloatOps SpecFloat Uint63.
Import ListNotations.

Local Open Scope Z_scope.

(** ** JavaScript numbers *)

Module JS.

Inductive number : Type :=
| Fin (q : Q)
| PosInf
| NegInf
| NaN.

Definition of_Z (z : Z) : number := Fin (inject_Z z).

(** Rounding to binary64. *)

Definition pow2 (e : Z) : Q := (2 ^ e)%Q.

(** The integer nearest to [t], a tie going to the even one. *)
Definition roundEven (t : Q) : Z :=
  let f := Qfloor t in
  match (t - inject_Z f ?= 1 # 2)%Q with
  | Lt => f
  | Gt => f + 1
  | Eq => if Z.even f then f else f + 1
  end.

(** The exponent [e] of a positive [q]: [2^e <= q < 2^(e+1)]. *)
Definition exponent (q : Q) : Z :=
  let e := Z.log2 (Qnum q) - Z.log2 (Zpos (Qden q)) in
  if Qle_bool (pow2 e) q then e else e - 1.

(** The unit in the last place of a positive [q]: [2^(e-52)]. *)
Definition ulp (q : Q) : Q := pow2 (exponent q - 52).

(** A positive [q] rounded to 53 significant bits: the nearest multiple of
    its unit in the last place. *)
Definition roundPositive (q : Q) : Q :=
  (inject_Z (roundEven (q / ulp q)) * ulp q)%Q.

Definition binary64 (q : Q) : Q :=
  match Qnum q with
  | 0 => 0%Q
  | Zpos _ => roundPositive q
  | Zneg _ => (- roundPositive (- q))%Q
  end.

(** A decimal literal: the double nearest to it. *)
Definition of_Q (q : Q) : number := Fin (binary64 q).

Definition Qsign (q : Q) : comparison := (Qnum q ?= 0).

(** [x / 0] for a finite [x]: an infinity with the sign of [x], [NaN] for
    [0 / 0]. *)
Definition by_zero (c : comparison) : number :=
  match c with
  | Gt => PosInf
  | Lt => NegInf
  | Eq => NaN
  end.

Definition flip (x : number) : number :=
  match x with
  | PosInf => NegInf
  | NegInf => PosInf
  | _ => x
  end.

Definition div (x y : number) : number :=
  match x, y with
  | NaN, _ => NaN
  | _, NaN => NaN
  | Fin a, Fin b => if Qeq_bool b 0 then by_zero (Qsign a) else Fin (binary64 (a / b))
  | Fin _, _ => Fin 0
  | _, Fin b => match Qsign b with Lt => flip x | _ => x end
  | _, _ => NaN
  end.

Definition mul (x y : number) : number :=
  match x, y with
  | NaN, _ => NaN
  | _, NaN => NaN
  | Fin a, Fin b => Fin (binary64 (a * b))
  | Fin a, _ => match Qsign a with Gt => y | Lt => flip y | Eq => NaN end
  | _, Fin b => match Qsign b with Gt => x | Lt => flip x | Eq => NaN end
  | PosInf, PosInf => PosInf
  | NegInf, NegInf => PosInf
  | _, _ => NegInf
  end.

(** A difference; the operands are integers below [2^53], so is the
    result, and no rounding takes place. *)
Definition sub (x y : number) : number :=
  match x, y with
  | NaN, _ => NaN
  | _, NaN => NaN
  | Fin a, Fin b => Fin (a - b)
  | Fin _, _ => flip y
  | _, Fin _ => x
  | PosInf, NegInf => PosInf
  | NegInf, PosInf => NegInf
  | _, _ => NaN
  end.

Definition eqb (x y : number) : bool :=
  match x, y with
  | Fin a, Fin b => Qeq_bool a b
  | PosInf, PosInf => true
  | NegInf, NegInf => true
  | _, _ => false
  end.

Definition leb (x y : number) : bool :=
  match x, y with
  | NaN, _ => false
  | _, NaN => false
  | Fin a, Fin b => Qle_bool a b
  | NegInf, _ => true
  | _, PosInf => true
  | _, _ => false
  end.

Definition ltb (x y : number) : bool :=
  match x, y with
  | NaN, _ => false
  | _, NaN => false
  | Fin a, Fin b => negb (Qle_bool b a)
  | NegInf, NegInf => false
  | PosInf, PosInf => false
  | NegInf, _ => true
  | _, PosInf => true
  | _, _ => false
  end.

Definition geb (x y : number) : bool := leb y x.
Definition gtb (x y : number) : bool := ltb y x.

(** [Math.round]: the integer nearest to the double, a tie going towards
    [+Infinity]. *)
Definition Math_round (x : number) : number :=
  match x with
  | Fin q => Fin (inject_Z (Qfloor (q + (1 # 2))))
  | _ => x
  end.

Definition Math_abs (x : number) : number :=
  match x with
  | Fin q => Fin (Qabs q)
  | NegInf => PosInf
  | _ => x
  end.

(** [x || d] on a possibly missing count: [undefined] and [0] are falsy. *)
Definition or_num (x : option Z) (d : Z) : Z :=
  match x with
  | Some v => if v =? 0 then d else v
  | None => d
  end.

End JS.

Import JS.

(** ** Strings *)

Fixpoint includes (s t : string) : bool :=
  prefix t s ||
  match s with
  | EmptyString => false
  | String _ s' => includes s' t
  end.

Definition lower_ascii (c : ascii) : ascii :=
  let n := nat_of_ascii c in
  if (65 <=? n)%nat && (n <=? 90)%nat then ascii_of_nat (n + 32) else c.

(** [toLowerCase], on the ASCII letters.  The only use is a search for an
    ASCII word, whose outcome the lowering of other letters cannot change. *)
Fixpoint toLowerCase (s : string) : string :=
  match s with
  | EmptyString => EmptyString
  | String c s' => String (lower_ascii c) (toLowerCase s')
  end.

(** [s || ""] on a possibly missing string. *)
Definition or_str (s : option string) (d : string) : string :=
  match s with
  | Some v => if String.eqb v "" then d else v
  | None => d
  end.

(** ** Data model ([dashboardStats], and the fields [participationStats] reads) *)

(** [Record<string, number>], entries in property order. *)
Abbreviation Rec := (list (string * Z)) (only parsing).

Record Totales : Type := {
  afavor : option Z;
  enContra : option Z;
  abstenciones : option Z;
  presentes : option Z;
  noVotan : option Z
}.

Record Desglose : Type := {
  d_yes : option Rec;
  d_no : option Rec;
  d_abstention : option Rec;
  d_no_vote : option Rec
}.

Record Result : Type := {
  totales : option Totales;
  desglose : option Desglose
}.

Record Deputy : Type := {
  codParlamentario : option string;
  apellidosNombre : option string;
  grupo : option string;
  formacion : option string
}.

Record Voting : Type := {
  v_exists : bool;
  v_yes : option Z;
  v_no : option Z;
  v_abstentions : option Z;
  noVote : option (list Deputy);
  missingDeputies : option (list Deputy);
  result : option Result
}.

Record Initiative : Type := {
  resultado_tram : option string;
  autor : option string;
  titulo : string;
  voting : option Voting
}.

(** The rate of the three reports:
    [d > 0 ? Math.round((n / d) * 100) : 0]. *)
Definition rateOf (n d : Z) : number :=
  if 0 <? d then Math_round (mul (div (of_Z n) (of_Z d)) (of_Z 100))
  else of_Z 0.

(** ** consensusStats.ts: [calculateConsensus] *)

Inductive Label : Type :=
| Unanimidad
| GranAcuerdo
| Division
| Ajustada
| SinVotacion.

Record ConsensusMetric : Type := {
  consensusIndex : number;
  label : Label;
  color : string
}.

Definition sinVotacion : ConsensusMetric :=
  {| consensusIndex := of_Z 0; label := SinVotacion; color := "#e5e7eb" |}.

(** What [calculateConsensus] returns once [yes] and [no] are read. *)
Definition consensusOf (yes no : Z) : ConsensusMetric :=
  let totalVotes := yes + no in
  if totalVotes =? 0 then sinVotacion else
  let ratio := mul (div (of_Z yes) (of_Z totalVotes)) (of_Z 100) in
  let ci := Math_round ratio in
  if eqb ci (of_Z 100) && (no =? 0) then
    {| consensusIndex := ci; label := Unanimidad; color := "#10B981" |}
  else if geb ci (of_Z 80) then
    {| consensusIndex := ci; label := GranAcuerdo; color := "#34D399" |}
  else if leb ci (of_Z 55) && geb ci (of_Z 45) then
    {| consensusIndex := ci; label := Ajustada; color := "#F59E0B" |}
  else if ltb ci (of_Z 45) then
    if leb ci (of_Z 55) then
      {| consensusIndex := ci; label := Ajustada; color := "#EF4444" |}
    else
      {| consensusIndex := ci; label := Division; color := "#3B82F6" |}
  else
    {| consensusIndex := ci; label := Division; color := "#FBBF24" |}.

Definition calculateConsensus (initiative : Initiative) : ConsensusMetric :=
  match voting initiative with
  | None => sinVotacion
  | Some v =>
    if negb (v_exists v) then sinVotacion else
    let yes := or_num (v_yes v) 0 in
    let no := or_num (v_no v) 0 in
    consensusOf yes no
  end.

(** ** [Array.prototype.sort] and [slice] *)

(** [Array.prototype.sort] is stable (ECMAScript 2019), and for a consistent
    comparator its result is the one stable sorted arrangement; a stable
    insertion sort computes it.  [a] stays in front of [b] unless
    [cmp a b > 0]. *)
Section ArraySort.

Context {A : Type}.
Variable cmp : A -> A -> number.

Fixpoint sort_insert (x : A) (l : list A) : list A :=
  match l with
  | [] => [x]
  | y :: l' => if gtb (cmp x y) (of_Z 0) then y :: sort_insert x l' else x :: l
  end.

Fixpoint Array_sort (l : list A) : list A :=
  match l with
  | [] => []
  | x :: l' => sort_insert x (Array_sort l')
  end.

End ArraySort.

(** [a.slice(0, n)]. *)
Definition slice0 {A : Type} (n : nat) (l : list A) : list A := firstn n l.

(** ** consensusStats.ts: [getRankings] *)

(** [{ ...i, ...metric }]. *)
Record Detail : Type := {
  initiative : Initiative;
  metric : ConsensusMetric
}.

Definition index (d : Detail) : number := consensusIndex (metric d).

(** [i.voting?.exists]. *)
Definition voting_exists (i : Initiative) : bool :=
  match voting i with
  | Some v => v_exists v
  | None => false
  end.

Record Rankings : Type := {
  topConsensus : list Detail;
  topDivisive : list Detail
}.

Definition byConsensus (a b : Detail) : number := sub (index b) (index a).

Definition byDistance (a b : Detail) : number :=
  let distA := Math_abs (sub (index a) (of_Z 50)) in
  let distB := Math_abs (sub (index b) (of_Z 50)) in
  sub distA distB.

Definition rankingDetails (initiatives : list Initiative) : list Detail :=
  let voted := filter voting_exists initiatives in
  map (fun i => {| initiative := i; metric := calculateConsensus i |}) voted.

(** The two rankings of the classified initiatives. *)
Definition rankingsOf (details : list Detail) : Rankings :=
  let sorted := Array_sort byConsensus details in
  let sortedDivisive := Array_sort byDistance details in
  {| topConsensus := slice0 5 sorted;
     topDivisive := slice0 5 sortedDivisive |}.

Definition getRankings (initiatives : list Initiative) : Rankings :=
  rankingsOf (rankingDetails initiatives).

(** ** consensusStats.ts: [getAffinity] *)

(** [r && Object.keys(r).some(k => k.includes(code))]. *)
Definition some_key_includes (r : option Rec) (code : string) : bool :=
  match r with
  | Some entries => existsb (fun kv => includes (fst kv) code) entries
  | None => false
  end.

(** Where an actor voted: ["yes"], ["no"], ["abs"], or [""] when no key of
    the three maps contains the code. *)
Definition voteOf (d : Desglose) (code : string) : string :=
  if some_key_includes (d_yes d) code then "yes"
  else if some_key_includes (d_no d) code then "no"
  else if some_key_includes (d_abstention d) code then "abs"
  else "".

Definition truthy (s : string) : bool := negb (String.eqb s "").

(** [init.voting.result?.desglose]. *)
Definition voting_desglose (v : Voting) : option Desglose :=
  match result v with
  | Some r => desglose r
  | None => None
  end.

Record AffinityAcc : Type := {
  matches : Z;
  totalComparisons : Z
}.

(** The body of the loop of [getAffinity], once [desglose] is read. *)
Definition compareVotes (targetCode referenceCode : string)
           (acc : AffinityAcc) (desglose : Desglose) : AffinityAcc :=
  let refVote := voteOf desglose referenceCode in
  let targetVote := voteOf desglose targetCode in
  if truthy refVote && truthy targetVote then
    {| matches := if String.eqb refVote targetVote
                  then matches acc + 1 else matches acc;
       totalComparisons := totalComparisons acc + 1 |}
  else acc.

Definition affinityStep (targetCode referenceCode : string)
           (acc : AffinityAcc) (init : Initiative) : AffinityAcc :=
  match voting init with
  | None => acc
  | Some v =>
    if negb (v_exists v) then acc else
    match voting_desglose v with
    | None => acc
    | Some d => compareVotes targetCode referenceCode acc d
    end
  end.

Definition affinityLoop (initiatives : list Initiative)
           (targetCode referenceCode : string) : AffinityAcc :=
  fold_left (affinityStep targetCode referenceCode) initiatives
            {| matches := 0; totalComparisons := 0 |}.

(** The percentage returned after the loop. *)
Definition affinityOf (acc : AffinityAcc) : number :=
  rateOf (matches acc) (totalComparisons acc).

Definition getAffinity (initiatives : list Initiative)
           (targetCode referenceCode : string) : number :=
  affinityOf (affinityLoop initiatives targetCode referenceCode).

(** ** dashboardStats: [calculateDashboardStats] *)

Record Bucket : Type := {
  total : Z;
  success : Z
}.

Record DashAcc : Type := {
  finalizedCount : Z;
  successCount : Z;
  failureCount : Z;
  neutralCount : Z;
  govStats : Bucket;
  groupStats : Bucket
}.

Definition bump (isSuccess : bool) (b : Bucket) : Bucket :=
  {| total := total b + 1;
     success := if isSuccess then success b + 1 else success b |}.

Definition dashboardStep (acc : DashAcc) (init : Initiative) : DashAcc :=
  let status := or_str (resultado_tram init) "" in
  let author := or_str (autor init) "" in
  (* the status category: the three counters, [isFinalized], [isSuccess] *)
  let '(successCount', failureCount', neutralCount', isFinalized, isSuccess) :=
    if includes status "Aprobado" || includes status "Convalidado" then
      (successCount acc + 1, failureCount acc, neutralCount acc, true, true)
    else if includes status "Rechazado" || includes status "Derogado" then
      (successCount acc, failureCount acc + 1, neutralCount acc, true, false)
    else if includes status "Retirado" || includes status "Decaído" then
      (successCount acc, failureCount acc, neutralCount acc + 1, true, false)
    else
      (successCount acc, failureCount acc, neutralCount acc, false, false) in
  if isFinalized then
    let gov := includes (toLowerCase author) "gobierno" in
    {| finalizedCount := finalizedCount acc + 1;
       successCount := successCount';
       failureCount := failureCount';
       neutralCount := neutralCount';
       govStats := if gov then bump isSuccess (govStats acc) else govStats acc;
       groupStats := if gov then groupStats acc
                     else bump isSuccess (groupStats acc) |}
  else
    {| finalizedCount := finalizedCount acc;
       successCount := successCount';
       failureCount := failureCount';
       neutralCount := neutralCount';
       govStats := govStats acc;
       groupStats := groupStats acc |}.

Definition dashboardLoop (initiatives : list Initiative) : DashAcc :=
  fold_left dashboardStep initiatives
            {| finalizedCount := 0; successCount := 0; failureCount := 0;
               neutralCount := 0;
               govStats := {| total := 0; success := 0 |};
               groupStats := {| total := 0; success := 0 |} |}.

Record Breakdown : Type := {
  bd_success : Z;
  bd_failure : Z;
  bd_neutral : Z
}.

Record Efficiency : Type := {
  ef_total : Z;
  ef_success : Z;
  rate : number
}.

Record AuthorEfficiency : Type := {
  gobierno : Efficiency;
  groups : Efficiency
}.

Record DashboardStats : Type := {
  globalSuccessRate : number;
  breakdown : Breakdown;
  authorEfficiency : AuthorEfficiency
}.

Definition calculateDashboardStats (initiatives : list Initiative) : DashboardStats :=
  let acc := dashboardLoop initiatives in
  let globalSuccessRate := rateOf (successCount acc) (finalizedCount acc) in
  let govRate := rateOf (success (govStats acc)) (total (govStats acc)) in
  let groupRate := rateOf (success (groupStats acc)) (total (groupStats acc)) in
  {| globalSuccessRate := globalSuccessRate;
     breakdown := {| bd_success := successCount acc;
                     bd_failure := failureCount acc;
                     bd_neutral := neutralCount acc |};
     authorEfficiency :=
       {| gobierno := {| ef_total := total (govStats acc);
                         ef_success := success (govStats acc);
                         rate := govRate |};
          groups := {| ef_total := total (groupStats acc);
                       ef_success := success (groupStats acc);
                       rate := groupRate |} |} |}.

(** ** participationStats.ts: [calculateParticipationStats] *)

(** The array index that a property key is, if any: a decimal numeral
    without sign, leading zero or fraction, below [2^32 - 1]. *)
Definition digitOf (c : ascii) : option N :=
  let n := N_of_ascii c in
  if (48 <=? n)%N && (n <=? 57)%N then Some (n - 48)%N else None.

Fixpoint numeralOf (s : string) (acc : N) : option N :=
  match s with
  | EmptyString => Some acc
  | String c s' =>
    match digitOf c with
    | Some d => numeralOf s' (10 * acc + d)%N
    | None => None
    end
  end.

Definition arrayIndex (key : string) : option N :=
  match key with
  | EmptyString => None
  | String c rest =>
    if Ascii.eqb c "0"%char && negb (String.eqb rest "") then None
    else match numeralOf key 0 with
         | Some n => if (n <? 4294967295)%N then Some n else None
         | None => None
         end
  end.

(** JavaScript objects used as maps, entries in insertion order. *)
Section Objects.

Context {V : Type}.

(** [m[k]]. *)
Fixpoint get (k : string) (m : list (string * V)) : option V :=
  match m with
  | [] => None
  | (k', v) :: m' => if String.eqb k k' then Some v else get k m'
  end.

(** [m[k] = f(m[k])]: an existing key keeps its place, a new one goes last. *)
Fixpoint update (k : string) (f : option V -> V) (m : list (string * V))
  : list (string * V) :=
  match m with
  | [] => [(k, f None)]
  | (k', v) :: m' =>
    if String.eqb k k' then (k', f (Some v)) :: m'
    else (k', v) :: update k f m'
  end.

(** The place of an entry whose key is the array index [n] among the
    entries of that kind, which come in increasing order of index. *)
Fixpoint placeIndex (n : N) (e : string * V) (l : list (N * (string * V)))
  : list (N * (string * V)) :=
  match l with
  | [] => [(n, e)]
  | (n', e') :: l' =>
    if (n <? n')%N then (n, e) :: l else (n', e') :: placeIndex n e l'
  end.

Definition indexEntries (m : list (string * V)) : list (N * (string * V)) :=
  fold_right (fun e acc =>
                match arrayIndex (fst e) with
                | Some n => placeIndex n e acc
                | None => acc
                end) [] m.

Definition namedEntries (m : list (string * V)) : list (string * V) :=
  filter (fun e => match arrayIndex (fst e) with Some _ => false | None => true end) m.

(** [Object.entries(m)], in property order: the keys that are array indices
    in increasing order, then the other keys in insertion order.
    [Object.values(m)] is [map snd (Object_entries m)]. *)
Definition Object_entries (m : list (string * V)) : list (string * V) :=
  map snd (indexEntries m) ++ namedEntries m.

End Objects.

Record CriticalAbsence : Type := {
  ca_initiative : Initiative;
  margin : Z;
  missing : Z
}.

Record BrokenBlock : Type := {
  bb_initiative : Initiative;
  party : string;
  details : string
}.

Record PartyVotes : Type := {
  yes : Z;
  no : Z;
  abs : Z;
  no_vote : Z
}.

Inductive Category : Type :=
| c_yes
| c_no
| c_abs
| c_no_vote.

(** [votes[category] += count]. *)
Definition addVotes (category : Category) (count : Z) (votes : PartyVotes) : PartyVotes :=
  match category with
  | c_yes => {| yes := yes votes + count; no := no votes;
                abs := abs votes; no_vote := no_vote votes |}
  | c_no => {| yes := yes votes; no := no votes + count;
               abs := abs votes; no_vote := no_vote votes |}
  | c_abs => {| yes := yes votes; no := no votes;
                abs := abs votes + count; no_vote := no_vote votes |}
  | c_no_vote => {| yes := yes votes; no := no votes;
                    abs := abs votes; no_vote := no_vote votes + count |}
  end.

Definition noVotes : PartyVotes := {| yes := 0; no := 0; abs := 0; no_vote := 0 |}.

Definition countVotes (category : Category) (source : option Rec)
           (partyVotes : list (string * PartyVotes)) : list (string * PartyVotes) :=
  match source with
  | None => partyVotes
  | Some entries =>
    fold_left
      (fun pv '(party, count) =>
         update party
                (fun old => addVotes category count
                                     (match old with Some v => v | None => noVotes end))
                pv)
      entries partyVotes
  end.

Definition partyVotesOf (d : Desglose) : list (string * PartyVotes) :=
  countVotes c_no_vote (d_no_vote d)
    (countVotes c_abs (d_abstention d)
       (countVotes c_no (d_no d)
          (countVotes c_yes (d_yes d) []))).

(** A count as it appears in a template literal. *)
Definition show (z : Z) : string := NilZero.string_of_int (Z.to_int z).

Definition maxVoteOf (votes : PartyVotes) : Z :=
  Z.max (Z.max (yes votes) (no votes)) (abs votes).

Definition totalOf (votes : PartyVotes) : Z :=
  yes votes + no votes + abs votes + no_vote votes.

Definition minorsOf (votes : PartyVotes) : list string :=
  let maxVote := maxVoteOf votes in
  (if (0 <? yes votes) && negb (yes votes =? maxVote)
   then [(show (yes votes) ++ " Sí")%string] else []) ++
  (if (0 <? no votes) && negb (no votes =? maxVote)
   then [(show (no votes) ++ " No")%string] else []) ++
  (if (0 <? abs votes) && negb (abs votes =? maxVote)
   then [(show (abs votes) ++ " Abs")%string] else []) ++
  (if (0 <? no_vote votes) && negb (no_vote votes =? maxVote)
   then [(show (no_vote votes) ++ " No Voto")%string] else []).

(** The body of the loop over [Object.entries(partyVotes)]: the blocks it
    pushes for one party (none or one). *)
Definition brokenBlockOf (init : Initiative) (party : string) (votes : PartyVotes)
  : list BrokenBlock :=
  let totalPartyVotes := totalOf votes in
  if totalPartyVotes <? 5 then [] else
  let maxVote := maxVoteOf votes in
  let consensusRatio := div (of_Z maxVote) (of_Z totalPartyVotes) in
  if gtb consensusRatio (of_Q (8 # 10)) && ltb consensusRatio (of_Z 1) then
    let minors := minorsOf votes in
    if (0 <? List.length minors)%nat then
      [ {| bb_initiative := init;
           party := party;
           details := ("Mayoría votó "
                       ++ (if (yes votes =? maxVote)%Z then "Sí"
                           else if (no votes =? maxVote)%Z then "No" else "Abs")
                       ++ ", pero hubo: " ++ String.concat ", " minors)%string |} ]
    else []
  else [].

Definition brokenBlocksOf (init : Initiative) (d : Desglose) : list BrokenBlock :=
  flat_map (fun '(party, votes) => brokenBlockOf init party votes)
           (Object_entries (partyVotesOf d)).

Definition criticalAbsenceOf (init : Initiative) (totals : Totales)
  : list CriticalAbsence :=
  let missing := or_num (noVotan totals) 0 in
  if 0 <? missing then
    let margin := Z.abs (or_num (afavor totals) 0 - or_num (enContra totals) 0) in
    if margin <=? missing
    then [ {| ca_initiative := init; margin := margin; missing := missing |} ]
    else []
  else [].

Definition addNoVotes (source : option Rec) (noVotesByParty : Rec) : Rec :=
  match source with
  | None => noVotesByParty
  | Some entries =>
    fold_left
      (fun m '(party, count) => update party (fun old => or_num old 0 + count) m)
      entries noVotesByParty
  end.

Record PartAcc : Type := {
  acc_totalPresent : Z;
  acc_totalVoted : Z;
  acc_totalAbstentions : Z;
  acc_noVotesByParty : Rec;
  acc_criticalAbsences : list CriticalAbsence;
  acc_brokenBlocks : list BrokenBlock
}.

(** The guard of the first loop: the [totales] and [desglose] of an
    initiative that is not skipped. *)
Definition breakdownOf (init : Initiative) : option (Totales * Desglose) :=
  match voting init with
  | None => None
  | Some v =>
    if negb (v_exists v) then None else
    match result v with
    | None => None
    | Some r =>
      match totales r, desglose r with
      | Some t, Some d => Some (t, d)
      | _, _ => None
      end
    end
  end.

Definition votesCastOf (totals : Totales) : Z :=
  or_num (afavor totals) 0 + or_num (enContra totals) 0
  + or_num (abstenciones totals) 0.

(** The body of the first loop, once [totales] and [desglose] are read. *)
Definition accumulate (acc : PartAcc) (init : Initiative)
           (totals : Totales) (desglose : Desglose) : PartAcc :=
  let votesCast := votesCastOf totals in
  let present := or_num (presentes totals) 350 in
  {| acc_totalPresent := acc_totalPresent acc + present;
     acc_totalVoted := acc_totalVoted acc + votesCast;
     acc_totalAbstentions :=
       acc_totalAbstentions acc + or_num (abstenciones totals) 0;
     acc_noVotesByParty :=
       addNoVotes (d_no_vote desglose) (acc_noVotesByParty acc);
     acc_criticalAbsences :=
       acc_criticalAbsences acc ++ criticalAbsenceOf init totals;
     acc_brokenBlocks :=
       acc_brokenBlocks acc ++ brokenBlocksOf init desglose |}.

Definition participationStep (acc : PartAcc) (init : Initiative) : PartAcc :=
  match breakdownOf init with
  | None => acc
  | Some (totals, desglose) => accumulate acc init totals desglose
  end.

Definition participationLoop (initiatives : list Initiative) : PartAcc :=
  fold_left participationStep initiatives
            {| acc_totalPresent := 0; acc_totalVoted := 0;
               acc_totalAbstentions := 0; acc_noVotesByParty := [];
               acc_criticalAbsences := []; acc_brokenBlocks := [] |}.

Record PartyCount : Type := {
  pc_party : string;
  pc_count : Z
}.

Record DeputyCount : Type := {
  name : option string;
  dc_party : option string;
  count : Z
}.

(** [a || b] on possibly missing strings. *)
Definition or_else (a b : option string) : option string :=
  match a with
  | Some s => if String.eqb s "" then b else a
  | None => b
  end.

(** A value used as a property key. *)
Definition key_of (id : option string) : string :=
  match id with
  | Some s => s
  | None => "undefined"
  end.

Definition deputyStep (noVotesByDeputy : list (string * DeputyCount)) (deputy : Deputy)
  : list (string * DeputyCount) :=
  let id := or_else (codParlamentario deputy) (apellidosNombre deputy) in
  update (key_of id)
         (fun old =>
            let entry :=
              match old with
              | Some e => e
              | None =>
                let isMixed :=
                  match grupo deputy with
                  | Some g => includes (toLowerCase g) "mixto"
                  | None => false
                  end in
                {| name := apellidosNombre deputy;
                   dc_party := if isMixed then Some "Grupo Mixto"%string
                               else or_else (formacion deputy) (grupo deputy);
                   count := 0 |}
              end in
            {| name := name entry; dc_party := dc_party entry;
               count := count entry + 1 |})
         noVotesByDeputy.

(** [voting?.noVote || voting?.missingDeputies || []]. *)
Definition noVoteListOf (init : Initiative) : list Deputy :=
  match voting init with
  | None => []
  | Some v =>
    match noVote v with
    | Some l => l
    | None => match missingDeputies v with Some l => l | None => [] end
    end
  end.

(** The second loop: [noVotesByDeputy] once it is filled, entries in
    insertion order. *)
Definition deputyLoop (initiatives : list Initiative) : list (string * DeputyCount) :=
  fold_left (fun m init => fold_left deputyStep (noVoteListOf init) m)
            initiatives [].

Record ParticipationStats : Type := {
  globalCommitment : number;
  totalVoted : Z;
  totalPossibleVotes : Z;
  totalAbstentions : Z;
  totalNoVotes : Z;
  absenteeismRanking : list PartyCount;
  deputyRanking : list DeputyCount;
  criticalAbsences : list CriticalAbsence;
  brokenBlocks : list BrokenBlock
}.

(** The report built after the first loop. *)
Definition participationReport (acc : PartAcc) (initiatives : list Initiative)
  : ParticipationStats :=
  let absenteeismRanking :=
    slice0 5
      (Array_sort (fun a b => sub (of_Z (pc_count b)) (of_Z (pc_count a)))
         (map (fun '(party, count) => {| pc_party := party; pc_count := count |})
              (Object_entries (acc_noVotesByParty acc)))) in
  let deputyRanking :=
    slice0 10
      (Array_sort (fun a b => sub (of_Z (count b)) (of_Z (count a)))
         (map snd (Object_entries (deputyLoop initiatives)))) in
  let totalSeatsOpportunity := Z.of_nat (List.length initiatives) * 350 in
  let globalCommitment := rateOf (acc_totalVoted acc) totalSeatsOpportunity in
  let totalNoVotes := totalSeatsOpportunity - acc_totalVoted acc in
  {| globalCommitment := globalCommitment;
     totalVoted := acc_totalVoted acc;
     totalPossibleVotes := totalSeatsOpportunity;
     totalAbstentions := acc_totalAbstentions acc;
     totalNoVotes := totalNoVotes;
     absenteeismRanking := absenteeismRanking;
     deputyRanking := deputyRanking;
     criticalAbsences := slice0 3 (acc_criticalAbsences acc);
     brokenBlocks := slice0 3 (acc_brokenBlocks acc) |}.

Definition calculateParticipationStats (initiatives : list Initiative)
  : ParticipationStats :=
  participationReport (participationLoop initiatives) initiatives.

(** ** Reading a property of a value that may be [undefined]

    The functions above are total: a [match] on an optional field stands
    for the guard that the source puts in front of the accesses.  The
    functions below transcribe the same guards access by access: [o.p]
    throws a [TypeError] when [o] is [undefined], [o?.p] does not. *)

Inductive outcome (A : Type) : Type :=
| Ok (a : A)
| TypeError.

Arguments Ok {A} a.
Arguments TypeError {A}.

Definition bind {A B : Type} (m : outcome A) (k : A -> outcome B) : outcome B :=
  match m with
  | Ok a => k a
  | TypeError => TypeError
  end.

Notation "x <- m ;; k" := (bind m (fun x => k))
  (at level 61, m at next level, right associativity).

(** [o.p]. *)
Definition member {A B : Type} (o : option A) (p : A -> B) : outcome B :=
  match o with
  | Some a => Ok (p a)
  | None => TypeError
  end.

(** [o], used as an object. *)
Definition object {A : Type} (o : option A) : outcome A := member o (fun a => a).

(** [o?.p]. *)
Definition optional {A B : Type} (o : option A) (p : A -> option B) : option B :=
  match o with
  | Some a => p a
  | None => None
  end.

(** An object is truthy, [undefined] is not. *)
Definition defined {A : Type} (o : option A) : bool :=
  match o with
  | Some _ => true
  | None => false
  end.

(** [l.forEach(body)], the state threaded through; a throw ends the loop. *)
Fixpoint forEach {A S : Type} (body : S -> A -> outcome S) (l : list A) (s : S)
  : outcome S :=
  match l with
  | [] => Ok s
  | x :: l' => s' <- body s x ;; forEach body l' s'
  end.

(** [l.map(f)]. *)
Fixpoint mapAll {A B : Type} (f : A -> outcome B) (l : list A) : outcome (list B) :=
  match l with
  | [] => Ok []
  | x :: l' => y <- f x ;; ys <- mapAll f l' ;; Ok (y :: ys)
  end.

Module Checked.

Definition calculateConsensus (initiative : Initiative) : outcome ConsensusMetric :=
  (* !initiative.voting || !initiative.voting.exists *)
  noVoting <- (if negb (defined (voting initiative)) then Ok true
               else e <- member (voting initiative) v_exists ;; Ok (negb e)) ;;
  if noVoting : bool then Ok sinVotacion else
  yes <- member (voting initiative) v_yes ;;
  no <- member (voting initiative) v_no ;;
  Ok (consensusOf (or_num yes 0) (or_num no 0)).

Definition getRankings (initiatives : list Initiative) : outcome Rankings :=
  let voted := filter voting_exists initiatives in
  details <- mapAll (fun i => metric <- calculateConsensus i ;;
                              Ok {| initiative := i; metric := metric |}) voted ;;
  Ok (rankingsOf details).

Definition affinityStep (targetCode referenceCode : string)
           (acc : AffinityAcc) (init : Initiative) : outcome AffinityAcc :=
  (* !init.voting?.exists || !init.voting.result?.desglose *)
  skip <- (if negb (voting_exists init) then Ok true
           else res <- member (voting init) result ;;
                Ok (negb (defined (optional res desglose)))) ;;
  if skip : bool then Ok acc else
  (* const desglose = init.voting.result.desglose *)
  res <- member (voting init) result ;;
  d <- member res desglose ;;
  (* desglose.yes, desglose.no, desglose.abstention *)
  desglose <- object d ;;
  Ok (compareVotes targetCode referenceCode acc desglose).

Definition getAffinity (initiatives : list Initiative)
           (targetCode referenceCode : string) : outcome number :=
  acc <- forEach (affinityStep targetCode referenceCode) initiatives
                 {| matches := 0; totalComparisons := 0 |} ;;
  Ok (affinityOf acc).

Definition participationStep (acc : PartAcc) (init : Initiative) : outcome PartAcc :=
  (* !init.voting?.exists || !init.voting.result?.totales
     || !init.voting.result.desglose *)
  skip <- (if negb (voting_exists init) then Ok true
           else res <- member (voting init) result ;;
                if negb (defined (optional res totales)) then Ok true
                else res <- member (voting init) result ;;
                     d <- member res desglose ;;
                     Ok (negb (defined d))) ;;
  if skip : bool then Ok acc else
  (* const totals = init.voting.result.totales *)
  res <- member (voting init) result ;;
  t <- member res totales ;;
  (* const desglose = init.voting.result.desglose *)
  res <- member (voting init) result ;;
  d <- member res desglose ;;
  (* totals.afavor, ..., desglose.no_vote, ... *)
  totals <- object t ;;
  desglose <- object d ;;
  Ok (accumulate acc init totals desglose).

Definition calculateParticipationStats (initiatives : list Initiative)
  : outcome ParticipationStats :=
  acc <- forEach participationStep initiatives
                 {| acc_totalPresent := 0; acc_totalVoted := 0;
                    acc_totalAbstentions := 0; acc_noVotesByParty := [];
                    acc_criticalAbsences := []; acc_brokenBlocks := [] |} ;;
  Ok (participationReport acc initiatives).

End Checked.

(** ** Specification-side definitions *)

(** *** Numbers *)

(** A number with a significand of at most 53 bits. *)
Definition representable (x : Q) : Prop :=
  exists m e : Z, Z.abs m <= 2 ^ 53 /\ (x == inject_Z m * pow2 e)%Q.

(** *** Consensus *)


(** The [yes] and [no] counts that [calculateConsensus] reads, with the
    [|| 0] defaults. *)
Definition yesOf (i : Initiative) : Z :=
  match voting i with
  | Some v => or_num (v_yes v) 0
  | None => 0
  end.

Definition noOf (i : Initiative) : Z :=
  match voting i with
  | Some v => or_num (v_no v) 0
  | None => 0
  end.

(** Voting absent, [exists] false, or [yes + no = 0]. *)
Definition withoutVote (i : Initiative) : bool :=
  negb (voting_exists i) || (yesOf i + noOf i =? 0).

(** The integer that [Math.round((n / d) * 100)] evaluates to: the quotient
    and the product are rounded to binary64, and [Math.round] takes the
    integer nearest to the rounded product. *)
Definition percentOf (n d : Z) : Z :=
  Qfloor (binary64 (binary64 (inject_Z n / inject_Z d) * inject_Z 100) + (1 # 2))%Q.


(** The index as an integer: [0] without a vote, the value of
    [Math.round((yes / (yes + no)) * 100)] otherwise. *)
Definition indexZ (i : Initiative) : Z :=
  if withoutVote i then 0 else percentOf (yesOf i) (yesOf i + noOf i).

(** The share of Yes among Yes and No, [yes / (yes + no)]. *)
Definition ratioOf (i : Initiative) : Q :=
  (inject_Z (yesOf i) / inject_Z (yesOf i + noOf i))%Q.

(** Unanimidad > Gran Acuerdo > every other label. *)
Definition strength (l : Label) : nat :=
  match l with
  | Unanimidad => 2
  | GranAcuerdo => 1
  | _ => 0
  end.

(** A number that is an integer: finite, and in particular not [NaN]. *)
Definition isInteger (x : number) : Prop := exists k : Z, x = of_Z k.

(** *** Rankings *)

(** [l'] is the stable sort of [l] by increasing [key]: a sorted
    rearrangement in which the elements of any one key keep the order they
    have in [l]. *)
Definition stable_sorted {A : Type} (key : A -> Z) (l l' : list A) : Prop :=
  Permutation l l' /\
  StronglySorted (fun a b => key a <= key b) l' /\
  forall k, filter (fun a => key a =? k) l' = filter (fun a => key a =? k) l.

(** The integer that a number holds ([0] for a number that is not finite). *)
Definition integerOf (x : number) : Z :=
  match x with
  | Fin q => Qfloor q
  | _ => 0
  end.

(** The index that a ranking entry carries, as an integer. *)
Definition indexOf (d : Detail) : Z := integerOf (index d).

(** A ranking entry built by [getRankings]. *)
Definition classified (d : Detail) : Prop :=
  metric d = calculateConsensus (initiative d).

(** *** Outcomes *)

(** [t] occurs in [s]. *)
Definition contains (s t : string) : Prop :=
  exists pre post : string, s = (pre ++ t ++ post)%string.

(** The status that [calculateDashboardStats] reads. *)
Definition statusOf (init : Initiative) : string := or_str (resultado_tram init) "".

Inductive Outcome : Type :=
| o_success
| o_failure
| o_neutral.

(** The category of a status, the first match winning; [None] for a status
    that is not finalized. *)
Definition outcomeOf (init : Initiative) : option Outcome :=
  let status := statusOf init in
  if includes status "Aprobado" || includes status "Convalidado" then Some o_success
  else if includes status "Rechazado" || includes status "Derogado" then Some o_failure
  else if includes status "Retirado" || includes status "Decaído" then Some o_neutral
  else None.

Definition outcome_is (o : Outcome) (init : Initiative) : bool :=
  match outcomeOf init, o with
  | Some o_success, o_success => true
  | Some o_failure, o_failure => true
  | Some o_neutral, o_neutral => true
  | _, _ => false
  end.

(** How many initiatives of a list fall in a category. *)
Definition countOutcome (o : Outcome) (l : list Initiative) : Z :=
  Z.of_nat (List.length (filter (outcome_is o) l)).

(** *** Affinity *)

(** Some actor code of the map contains [code]. *)
Definition hasKey (r : option Rec) (code : string) : Prop :=
  exists entries k n, r = Some entries /\ In (k, n) entries /\ contains k code.

(** The vote breakdown that [getAffinity] reads: the [desglose] of an
    initiative whose [voting.exists] is true. *)
Definition desgloseOf (init : Initiative) : option Desglose :=
  match voting init with
  | Some v => if v_exists v then voting_desglose v else None
  | None => None
  end.

(** Both actors have a determinable vote on the initiative. *)
Definition comparable (targetCode referenceCode : string) (init : Initiative) : bool :=
  match desgloseOf init with
  | Some d => truthy (voteOf d referenceCode) && truthy (voteOf d targetCode)
  | None => false
  end.

(** Both actors have a determinable vote, and the same one. *)
Definition agree (targetCode referenceCode : string) (init : Initiative) : bool :=
  comparable targetCode referenceCode init &&
  match desgloseOf init with
  | Some d => String.eqb (voteOf d referenceCode) (voteOf d targetCode)
  | None => false
  end.

Definition countIf {A : Type} (p : A -> bool) (l : list A) : Z :=
  Z.of_nat (List.length (filter p l)).

(** Some initiative of the list has [voting.exists] true and a [desglose]
    in which an actor code of Yes, No or Abstain contains [code]. *)
Definition appearsIn (initiatives : list Initiative) (code : string) : Prop :=
  exists init v r d,
    In init initiatives /\ voting init = Some v /\ v_exists v = true /\
    result v = Some r /\ desglose r = Some d /\
    (hasKey (d_yes d) code \/ hasKey (d_no d) code \/ hasKey (d_abstention d) code).

(** *** Participation *)

(** The initiative has no vote, or its vote lacks [totales] or lacks
    [desglose]. *)
Definition lacksBreakdown (init : Initiative) : Prop :=
  voting init = None \/
  exists v, voting init = Some v /\
            (v_exists v = false \/ result v = None \/
             exists r, result v = Some r /\ (totales r = None \/ desglose r = None)).

(** What an initiative adds to [totalVoted] and to [totalAbstentions]. *)
Definition castBy (init : Initiative) : Z :=
  match breakdownOf init with
  | Some (totals, _) => votesCastOf totals
  | None => 0
  end.

Definition abstainedBy (init : Initiative) : Z :=
  match breakdownOf init with
  | Some (totals, _) => or_num (abstenciones totals) 0
  | None => 0
  end.

Definition sumOf {A : Type} (f : A -> Z) (l : list A) : Z :=
  fold_right (fun x s => f x + s) 0 l.

(** The blocks that the initiatives of a list push, in the order of the
    list. *)
Definition blocksOf (init : Initiative) : list BrokenBlock :=
  match breakdownOf init with
  | Some (_, d) => brokenBlocksOf init d
  | None => []
  end.

(** *** Tallies by party and broken blocks *)

(** [partyVotes[party]], or the fresh tally that [countVotes] starts from. *)
Definition orNoVotes (old : option PartyVotes) : PartyVotes :=
  match old with
  | Some v => v
  | None => noVotes
  end.

(** The votes of [party] in one category. *)
Definition sumFor (party : string) (r : option Rec) : Z :=
  match r with
  | Some entries =>
    fold_right (fun kv s => if String.eqb party (fst kv) then snd kv + s else s)
               0 entries
  | None => 0
  end.

Definition mentionedIn (party : string) (r : option Rec) : bool :=
  match r with
  | Some entries => existsb (fun kv => String.eqb party (fst kv)) entries
  | None => false
  end.

(** The party appears in some category of the breakdown. *)
Definition mentions (d : Desglose) (party : string) : bool :=
  mentionedIn party (d_yes d) || mentionedIn party (d_no d) ||
  mentionedIn party (d_abstention d) || mentionedIn party (d_no_vote d).

Definition tallyOf (d : Desglose) (party : string) : PartyVotes :=
  {| yes := sumFor party (d_yes d);
     no := sumFor party (d_no d);
     abs := sumFor party (d_abstention d);
     no_vote := sumFor party (d_no_vote d) |}.

Definition nonNegative (votes : PartyVotes) : Prop :=
  0 <= yes votes /\ 0 <= no votes /\ 0 <= abs votes /\ 0 <= no_vote votes.

(** [m] is [max(yes, no, abs)]: one of the three counts, and not below any
    of them. *)
Definition isMaxVote (m : Z) (votes : PartyVotes) : Prop :=
  (m = yes votes \/ m = no votes \/ m = abs votes) /\
  yes votes <= m /\ no votes <= m /\ abs votes <= m.

(** The block is broken: the share [maxVote / total] of the largest of Yes,
    No and Abstain is strictly between 0.8 and 1. *)
Definition isBroken (votes : PartyVotes) : Prop :=
  exists m : Z,
    isMaxVote m votes /\
    (8 # 10 < inject_Z m / inject_Z (totalOf votes))%Q /\
    (inject_Z m / inject_Z (totalOf votes) < 1)%Q.

Definition countIn (c : Category) (votes : PartyVotes) : Z :=
  match c with
  | c_yes => yes votes
  | c_no => no votes
  | c_abs => abs votes
  | c_no_vote => no_vote votes
  end.

Definition wordOf (c : Category) : string :=
  match c with
  | c_yes => "Sí"
  | c_no => "No"
  | c_abs => "Abs"
  | c_no_vote => "No Voto"
  end.

Definition sameCategory (c c' : Category) : bool :=
  match c, c' with
  | c_yes, c_yes => true
  | c_no, c_no => true
  | c_abs, c_abs => true
  | c_no_vote, c_no_vote => true
  | _, _ => false
  end.

(** [c] is a dominant option: Yes, No or Abstain, with the count
    [max(yes, no, abs)]. *)
Definition dominates (c : Category) (votes : PartyVotes) : Prop :=
  c <> c_no_vote /\ isMaxVote (countIn c votes) votes.

(** The option that the detail of a block names: the first of Yes, No,
    Abstain whose count is [maxVote]. *)
Definition dominantOf (votes : PartyVotes) : Category :=
  if yes votes =? maxVoteOf votes then c_yes
  else if no votes =? maxVoteOf votes then c_no
  else c_abs.

(** Every category other than [c] that has votes. *)
Definition minorityOf (c : Category) (votes : PartyVotes) : list Category :=
  filter (fun c' => negb (sameCategory c' c) && negb (countIn c' votes =? 0))
         [c_yes; c_no; c_abs; c_no_vote].

(** The detail of a block whose dominant option is [c]. *)
Definition detailOf (c : Category) (votes : PartyVotes) : string :=
  ("Mayoría votó " ++ wordOf c ++ ", pero hubo: "
   ++ String.concat ", "
        (map (fun c' => show (countIn c' votes) ++ " " ++ wordOf c')
             (minorityOf c votes)))%string.

(** ** Sample data *)

(** An initiative with a vote of [y] against [n]. *)
Definition voted (t : string) (y n : Z) : Initiative :=
  {| resultado_tram := None; autor := None; titulo := t;
     voting := Some {| v_exists := true; v_yes := Some y; v_no := Some n;
                       v_abstentions := None; noVote := None;
                       missingDeputies := None; result := None |} |}.

(** Twenty initiatives with a vote, [yes = 5 * n], [no = 100 - 5 * n]. *)
Definition twenty : list Initiative :=
  map (fun n => voted "t" (5 * Z.of_nat n) (100 - 5 * Z.of_nat n)) (seq 1 20).

(** Six initiatives, two of them tied at 90 and three at a distance of 5
    from 50. *)
Definition sixVotes : list Initiative :=
  [voted "a" 90 10; voted "b" 50 50; voted "c" 90 10;
   voted "d" 45 55; voted "e" 55 45; voted "f" 10 0].

(** An initiative known by its status and author only. *)
Definition filed (status author : string) : Initiative :=
  {| resultado_tram := Some status; autor := Some author; titulo := "";
     voting := None |}.


(** An initiative with a vote and the given breakdown by party. *)
Definition brokenDown (y n a : Rec) : Initiative :=
  {| resultado_tram := None; autor := None; titulo := "";
     voting := Some {| v_exists := true; v_yes := None; v_no := None;
                       v_abstentions := None; noVote := None;
                       missingDeputies := None;
                       result := Some {| totales := None;
                                         desglose := Some {| d_yes := Some y;
                                                             d_no := Some n;
                                                             d_abstention := Some a;
                                                             d_no_vote := None |} |} |} |}.


Definition tally (f c a p n : Z) : Totales :=
  {| afavor := Some f; enContra := Some c; abstenciones := Some a;
     presentes := Some p; noVotan := Some n |}.

(** An initiative with a vote whose result has the given parts. *)
Definition withResult (t : option Totales) (d : option Desglose) : Initiative :=
  {| resultado_tram := None; autor := None; titulo := "";
     voting := Some {| v_exists := true; v_yes := None; v_no := None;
                       v_abstentions := None; noVote := None;
                       missingDeputies := None;
                       result := Some {| totales := t; desglose := d |} |} |}.

Definition emptyDesglose : Desglose :=
  {| d_yes := None; d_no := None; d_abstention := None; d_no_vote := None |}.

Definition votesOf (y n a v : Z) : PartyVotes :=
  {| yes := y; no := n; abs := a; no_vote := v |}.

(** ** Further specification-side definitions *)

(** The initiative has a vote whose counts are not negative. *)
Definition countsNonNegative (i : Initiative) : Prop :=
  0 <= yesOf i /\ 0 <= noOf i.

(** The author that [calculateDashboardStats] reads. *)
Definition authorOf (init : Initiative) : string := or_str (autor init) "".

(** The author names the government, in any mix of upper and lower case. *)
Definition namesGovernment (init : Initiative) : Prop :=
  exists pre w post : string,
    authorOf init = (pre ++ w ++ post)%string /\ toLowerCase w = "gobierno"%string.

Definition isGovernment (init : Initiative) : bool :=
  includes (toLowerCase (authorOf init)) "gobierno".

(** The status falls in one of the three categories. *)
Definition isFinalized (init : Initiative) : bool :=
  match outcomeOf init with
  | Some _ => true
  | None => false
  end.

(** A truth value as a count. *)
Definition one (b : bool) : Z := if b then 1 else 0.

(** The critical absence that an initiative pushes, if any. *)
Definition criticalOf (init : Initiative) : list CriticalAbsence :=
  match breakdownOf init with
  | Some (totals, _) => criticalAbsenceOf init totals
  | None => []
  end.

(** The first loop does not skip the initiative. *)
Definition hasBreakdown (init : Initiative) : bool :=
  match breakdownOf init with
  | Some _ => true
  | None => false
  end.

(** The three counts of [totales] are not negative and their sum is at most
    [seats]. *)
Definition plausibleTotals (seats : Z) (init : Initiative) : Prop :=
  forall totals d,
    breakdownOf init = Some (totals, d) ->
    0 <= or_num (afavor totals) 0 /\ 0 <= or_num (enContra totals) 0 /\
    0 <= or_num (abstenciones totals) 0 /\ votesCastOf totals <= seats.

(** The no-votes of [party] that an initiative adds to the ranking by
    party, and whether it mentions the party at all. *)
Definition absentOf (party : string) (init : Initiative) : Z :=
  match breakdownOf init with
  | Some (_, d) => sumFor party (d_no_vote d)
  | None => 0
  end.

Definition absentIn (party : string) (init : Initiative) : bool :=
  match breakdownOf init with
  | Some (_, d) => mentionedIn party (d_no_vote d)
  | None => false
  end.

(** The key under which the second loop counts a deputy. *)
Definition deputyKey (deputy : Deputy) : string :=
  key_of (or_else (codParlamentario deputy) (apellidosNombre deputy)).

(** The [grupo] of the deputy contains "mixto", in any mix of upper and
    lower case. *)
Definition inMixedGroup (deputy : Deputy) : Prop :=
  exists g pre w post,
    grupo deputy = Some g /\ g = (pre ++ w ++ post)%string /\
    toLowerCase w = "mixto"%string.

(** Every no-vote record of the dataset, in the order the second loop
    visits them. *)
Definition recordsOf (initiatives : list Initiative) : list Deputy :=
  flat_map noVoteListOf initiatives.

(** The first record of the deputy with key [k], and the number of its
    records. *)
Definition firstRecord (k : string) (records : list Deputy) : option Deputy :=
  find (fun d => String.eqb k (deputyKey d)) records.

Definition recordCount (k : string) (records : list Deputy) : Z :=
  countIf (fun d => String.eqb k (deputyKey d)) records.

(** The party of the entry that a first record creates. *)
Definition deputyParty (deputy : Deputy) : option string :=
  let isMixed :=
    match grupo deputy with
    | Some g => includes (toLowerCase g) "mixto"
    | None => false
    end in
  if isMixed then Some "Grupo Mixto"%string
  else or_else (formacion deputy) (grupo deputy).

(** The entry of a deputy with [n] records, from its first record. *)
Definition entryOf (deputy : Deputy) (n : Z) : DeputyCount :=
  {| name := apellidosNombre deputy; dc_party := deputyParty deputy; count := n |}.

(** ** The doubles of the machine *)

(** The rational that a double of the machine stands for. *)
Definition valueOf (x : PrimFloat.float) : option Q :=
  match FloatOps.Prim2SF x with
  | SpecFloat.S754_zero _ => Some 0%Q
  | SpecFloat.S754_finite s m e =>
    Some ((if s then - (1) else 1) * inject_Z (Zpos m) * pow2 e)%Q
  | _ => None
  end.

Definition doubleOf (z : Z) : PrimFloat.float := PrimFloat.of_uint63 (Uint63.of_Z z).

(** [(n / d) * 100], computed by the machine. *)
Definition machinePercent (n d : Z) : option Q :=
  valueOf (PrimFloat.mul (PrimFloat.div (doubleOf n) (doubleOf d)) (doubleOf 100)).

(** [(n / d) * 100], as [div] and [mul] compute it. *)
Definition modelPercent (n d : Z) : number := mul (div (of_Z n) (of_Z d)) (of_Z 100).

Definition sameValue (x : option Q) (y : number) : bool :=
  match x, y with
  | Some a, Fin b => Qeq_bool a b
  | _, _ => false
  end.

Definition upTo (k : Z) : list Z := map Z.of_nat (seq 0 (Z.to_nat k + 1)).

(** ** Numbers: lemmas *)

(** *** Rounding to binary64 *)

Section Pow2.

Lemma pow2_pos (e : Z) : (0 < pow2 e)%Q.
Proof. apply Qpower_0_lt. reflexivity. Qed.

Lemma pow2_add (a b : Z) : (pow2 (a + b) == pow2 a * pow2 b)%Q.
Proof. apply Qpower_plus. discriminate. Qed.

Lemma pow2_le (a b : Z) : a <= b -> (pow2 a <= pow2 b)%Q.
Proof. intros H. apply Qpower_le_compat_l; [exact H | discriminate]. Qed.

Lemma pow2_lt_inv (a b : Z) : (pow2 a < pow2 b)%Q -> a < b.
Proof. intros H. apply (Qpower_lt_compat_l_inv 2); [exact H | reflexivity]. Qed.

Lemma pow2_Z (k : Z) : 0 <= k -> (inject_Z (2 ^ k) == pow2 k)%Q.
Proof. intros H. apply (Zpower_Qpower 2 k H). Qed.

Lemma pow2_succ (a : Z) : (pow2 (a + 1) == 2 * pow2 a)%Q.
Proof. rewrite pow2_add. change (pow2 1) with 2%Q. ring. Qed.

End Pow2.

Section RoundEven.

Lemma roundEven_cases (t : Q) :
  roundEven t = Qfloor t /\ (t - inject_Z (Qfloor t) <= 1 # 2)%Q \/
  roundEven t = Qfloor t + 1 /\ (1 # 2 <= t - inject_Z (Qfloor t))%Q.
Proof.
  unfold roundEven.
  destruct (Qcompare_spec (t - inject_Z (Qfloor t)) (1 # 2)) as [H | H | H].
  - destruct (Z.even (Qfloor t)).
    + left. split; [reflexivity | rewrite H; apply Qle_refl].
    + right. split; [reflexivity | rewrite H; apply Qle_refl].
  - left. split; [reflexivity | apply Qlt_le_weak; exact H].
  - right. split; [reflexivity | apply Qlt_le_weak; exact H].
Qed.

Lemma roundEven_near (t : Q) :
  (t - (1 # 2) <= inject_Z (roundEven t) <= t + (1 # 2))%Q.
Proof.
  pose proof (Qfloor_le t) as Hl.
  pose proof (Qlt_floor t) as Hu.
  rewrite inject_Z_plus in Hu. change (inject_Z 1) with 1%Q in Hu.
  destruct (roundEven_cases t) as [[-> H] | [-> H]].
  - split; lra.
  - rewrite inject_Z_plus. change (inject_Z 1) with 1%Q. split; lra.
Qed.

Lemma roundEven_Z (z : Z) : roundEven (inject_Z z) = z.
Proof.
  unfold roundEven. rewrite Qfloor_Z.
  destruct (Qcompare_spec (inject_Z z - inject_Z z) (1 # 2)) as [H | H | H].
  - exfalso. lra.
  - reflexivity.
  - exfalso. lra.
Qed.

Lemma roundEven_mono (s t : Q) : (s <= t)%Q -> roundEven s <= roundEven t.
Proof.
  intros H.
  pose proof (Qfloor_resp_le _ _ H) as Hf.
  destruct (Z.eq_dec (Qfloor s) (Qfloor t)) as [E | N].
  - unfold roundEven. rewrite E.
    destruct (Qcompare_spec (s - inject_Z (Qfloor t)) (1 # 2)) as [Hs | Hs | Hs];
      destruct (Qcompare_spec (t - inject_Z (Qfloor t)) (1 # 2)) as [Ht | Ht | Ht];
      try destruct (Z.even (Qfloor t)); try lia; exfalso; lra.
  - destruct (roundEven_cases s) as [[-> _] | [-> _]];
      destruct (roundEven_cases t) as [[-> _] | [-> _]]; lia.
Qed.

End RoundEven.

Section Exponent.

Lemma Q_as_div (q : Q) : (q * inject_Z (Zpos (Qden q)) == inject_Z (Qnum q))%Q.
Proof.
  destruct q as [n d]. unfold Qeq, Qmult, inject_Z. simpl. lia.
Qed.

Lemma log2_bounds (a : Z) :
  0 < a -> (pow2 (Z.log2 a) <= inject_Z a)%Q /\ (inject_Z a < 2 * pow2 (Z.log2 a))%Q.
Proof.
  intros H. destruct (Z.log2_spec a H) as [Hl Hu].
  pose proof (Z.log2_nonneg a) as Hn.
  split.
  - rewrite <- pow2_Z by exact Hn. rewrite <- Zle_Qle. exact Hl.
  - rewrite <- pow2_succ. rewrite <- pow2_Z by lia. rewrite <- Zlt_Qlt. exact Hu.
Qed.

Lemma exponent_spec (q : Q) :
  (0 < q)%Q -> (pow2 (exponent q) <= q)%Q /\ (q < 2 * pow2 (exponent q))%Q.
Proof.
  intros Hq.
  assert (Hn : 0 < Qnum q).
  { unfold Qlt in Hq. change (Qnum 0) with 0 in Hq. change (QDen 0) with 1 in Hq. lia. }
  destruct (log2_bounds (Qnum q) Hn) as [Nl Nu].
  destruct (log2_bounds (Zpos (Qden q)) eq_refl) as [Dl Du].
  pose proof (Q_as_div q) as E.
  set (ln := Z.log2 (Qnum q)) in *.
  set (ld := Z.log2 (Zpos (Qden q))) in *.
  assert (P : (pow2 (ln - ld) * pow2 ld == pow2 ln)%Q).
  { rewrite <- pow2_add. replace (ln - ld + ld) with ln by lia. reflexivity. }
  pose proof (pow2_pos (ln - ld)) as Pa.
  pose proof (pow2_pos ld) as Pb.
  assert (P' : (pow2 (ln - ld) == 2 * pow2 (ln - ld - 1))%Q).
  { rewrite <- pow2_succ. replace (ln - ld - 1 + 1) with (ln - ld) by lia. reflexivity. }
  pose proof (pow2_pos (ln - ld - 1)) as Pc.
  unfold exponent. fold ln ld.
  set (N := inject_Z (Qnum q)) in *.
  set (D := inject_Z (Zpos (Qden q))) in *.
  destruct (Qle_bool (pow2 (ln - ld)) q) eqn:B.
  - apply Qle_bool_iff in B. split; [exact B |].
    apply (Qmult_lt_r _ _ D); [lra |].
    rewrite E.
    apply (Qlt_le_trans _ (2 * pow2 ln)); [exact Nu |].
    rewrite <- P. rewrite <- Qmult_assoc. apply Qmult_le_l; [reflexivity |].
    apply Qmult_le_l; [exact Pa | exact Dl].
  - assert (B' : (q < pow2 (ln - ld))%Q).
    { apply Qnot_le_lt. intros C. apply Qle_bool_iff in C. congruence. }
    split; [| rewrite <- P'; exact B'].
    apply (Qmult_le_r _ _ D); [lra |].
    rewrite E.
    apply (Qle_trans _ (pow2 ln)); [| exact Nl].
    rewrite <- P. rewrite P'.
    setoid_replace (2 * pow2 (ln - ld - 1) * pow2 ld)%Q
      with (pow2 (ln - ld - 1) * (2 * pow2 ld))%Q by ring.
    apply Qmult_le_l; [exact Pc | lra].
Qed.

Lemma exponent_mono (p q : Q) :
  (0 < p)%Q -> (p <= q)%Q -> exponent p <= exponent q.
Proof.
  intros Hp Hpq.
  destruct (exponent_spec p Hp) as [Pl _].
  destruct (exponent_spec q) as [_ Qu]; [lra |].
  rewrite <- pow2_succ in Qu.
  assert (H : (pow2 (exponent p) < pow2 (exponent q + 1))%Q) by lra.
  apply pow2_lt_inv in H. lia.
Qed.

End Exponent.

Section RoundPositive.

Variable q : Q.
Hypothesis q_pos : (0 < q)%Q.

Let u : Q := ulp q.
Let t : Q := (q / u)%Q.

Lemma ulp_pos : (0 < u)%Q.
Proof. apply pow2_pos. Qed.

Lemma scaled_back : (t * u == q)%Q.
Proof.
  unfold t. pose proof ulp_pos as H. field. intros C. rewrite C in H. discriminate H.
Qed.

Lemma binade_ulp : (pow2 (exponent q) == (4503599627370496 # 1) * u)%Q.
Proof.
  unfold u, ulp. change (4503599627370496 # 1)%Q with (pow2 52). rewrite <- pow2_add.
  replace (52 + (exponent q - 52)) with (exponent q) by lia. reflexivity.
Qed.

Lemma scaled_bounds : (4503599627370496 # 1 <= t)%Q /\ (t < 9007199254740992 # 1)%Q.
Proof.
  destruct (exponent_spec q q_pos) as [Hl Hu].
  rewrite binade_ulp in Hl, Hu. rewrite <- scaled_back in Hl, Hu.
  pose proof ulp_pos as P.
  split.
  - apply (Qmult_le_r _ _ u P). exact Hl.
  - apply (Qmult_lt_r _ _ u P).
    setoid_replace ((9007199254740992 # 1) * u)%Q with (2 * ((4503599627370496 # 1) * u))%Q
      by ring.
    exact Hu.
Qed.

Lemma significand_bounds :
  4503599627370496 <= roundEven t <= 9007199254740992.
Proof.
  destruct scaled_bounds as [Hl Hu].
  split.
  - rewrite <- (roundEven_Z 4503599627370496). apply roundEven_mono. exact Hl.
  - rewrite <- (roundEven_Z 9007199254740992). apply roundEven_mono.
    apply Qlt_le_weak. exact Hu.
Qed.

Lemma roundPositive_eq : roundPositive q = (inject_Z (roundEven t) * u)%Q.
Proof. reflexivity. Qed.

Lemma roundPositive_binade :
  (pow2 (exponent q) <= roundPositive q)%Q /\ (roundPositive q <= 2 * pow2 (exponent q))%Q.
Proof.
  rewrite roundPositive_eq, binade_ulp.
  destruct significand_bounds as [Hl Hu].
  pose proof ulp_pos as P.
  rewrite Zle_Qle in Hl, Hu.
  change (inject_Z 4503599627370496) with (4503599627370496 # 1)%Q in Hl.
  change (inject_Z 9007199254740992) with (9007199254740992 # 1)%Q in Hu.
  split.
  - apply Qmult_le_r; [exact P | exact Hl].
  - setoid_replace (2 * ((4503599627370496 # 1) * u))%Q with ((9007199254740992 # 1) * u)%Q
      by ring.
    apply Qmult_le_r; [exact P | exact Hu].
Qed.

Lemma roundPositive_error :
  (q - q * (1 # 9007199254740992) <= roundPositive q)%Q /\
  (roundPositive q <= q + q * (1 # 9007199254740992))%Q.
Proof.
  rewrite roundPositive_eq.
  destruct (roundEven_near t) as [Hl Hu].
  destruct scaled_bounds as [Tl _].
  pose proof ulp_pos as P.
  pose proof scaled_back as E.
  assert (A : (t * u - (1 # 2) * u <= inject_Z (roundEven t) * u)%Q).
  { setoid_replace (t * u - (1 # 2) * u)%Q with ((t - (1 # 2)) * u)%Q by ring.
    apply Qmult_le_r; [exact P | exact Hl]. }
  assert (B : (inject_Z (roundEven t) * u <= t * u + (1 # 2) * u)%Q).
  { setoid_replace (t * u + (1 # 2) * u)%Q with ((t + (1 # 2)) * u)%Q by ring.
    apply Qmult_le_r; [exact P | exact Hu]. }
  assert (C : ((4503599627370496 # 1) * u <= t * u)%Q).
  { apply Qmult_le_r; [exact P | exact Tl]. }
  rewrite E in A, B, C.
  split; lra.
Qed.

End RoundPositive.

Lemma roundPositive_mono (p q : Q) :
  (0 < p)%Q -> (p <= q)%Q -> (roundPositive p <= roundPositive q)%Q.
Proof.
  intros Hp Hpq.
  assert (Hq : (0 < q)%Q) by lra.
  pose proof (exponent_mono p q Hp Hpq) as He.
  destruct (Z.eq_dec (exponent p) (exponent q)) as [E | N].
  - assert (U : ulp p = ulp q) by (unfold ulp; now rewrite E).
    rewrite !roundPositive_eq. rewrite U.
    pose proof (ulp_pos q) as P.
    apply Qmult_le_r; [exact P |].
    rewrite <- Zle_Qle. apply roundEven_mono.
    apply Qmult_le_r with (z := ulp q); [exact P |].
    pose proof (scaled_back p) as Sp. pose proof (scaled_back q) as Sq.
    rewrite U in Sp. rewrite Sp, Sq. exact Hpq.
  - destruct (roundPositive_binade p Hp) as [_ Pu].
    destruct (roundPositive_binade q Hq) as [Ql _].
    rewrite <- pow2_succ in Pu.
    pose proof (pow2_le (exponent p + 1) (exponent q)) as L.
    assert (L' : (pow2 (exponent p + 1) <= pow2 (exponent q))%Q) by (apply L; lia).
    lra.
Qed.

Section Binary64.

Lemma Qnum_sign (q : Q) :
  (Qnum q = 0 <-> (q == 0)%Q) /\ (0 < Qnum q <-> (0 < q)%Q) /\ (Qnum q < 0 <-> (q < 0)%Q).
Proof.
  unfold Qeq, Qlt. change (Qnum 0) with 0. change (QDen 0) with 1.
  repeat split; intros; lia.
Qed.

Lemma binary64_zero (q : Q) : (q == 0)%Q -> binary64 q = 0%Q.
Proof.
  intros H. apply (proj2 (proj1 (Qnum_sign q))) in H.
  unfold binary64. now rewrite H.
Qed.

Lemma binary64_pos (q : Q) : (0 < q)%Q -> binary64 q = roundPositive q.
Proof.
  intros H. apply (proj2 (proj1 (proj2 (Qnum_sign q)))) in H.
  unfold binary64. destruct (Qnum q); try lia. reflexivity.
Qed.

Lemma binary64_neg (q : Q) : (q < 0)%Q -> binary64 q = (- roundPositive (- q))%Q.
Proof.
  intros H. apply (proj2 (proj2 (proj2 (Qnum_sign q)))) in H.
  unfold binary64. destruct (Qnum q); try lia. reflexivity.
Qed.

Lemma binary64_sign_pos (q : Q) : (0 < q)%Q -> (0 < binary64 q)%Q.
Proof.
  intros H. rewrite (binary64_pos q H).
  destruct (roundPositive_binade _ H) as [L _].
  pose proof (pow2_pos (exponent q)). lra.
Qed.

Lemma binary64_sign_neg (q : Q) : (q < 0)%Q -> (binary64 q < 0)%Q.
Proof.
  intros H. rewrite (binary64_neg q H).
  assert (H' : (0 < - q)%Q) by lra.
  destruct (roundPositive_binade _ H') as [L _].
  pose proof (pow2_pos (exponent (- q))). lra.
Qed.

(** Rounding keeps the order. *)
Lemma binary64_mono (p q : Q) : (p <= q)%Q -> (binary64 p <= binary64 q)%Q.
Proof.
  intros H.
  destruct (Q_dec p 0) as [[Hp | Hp] | Hp]; destruct (Q_dec q 0) as [[Hq | Hq] | Hq];
    try (exfalso; lra).
  - rewrite (binary64_neg p Hp), (binary64_neg q Hq).
    apply Qopp_le_compat. apply roundPositive_mono; lra.
  - pose proof (binary64_sign_neg p Hp). pose proof (binary64_sign_pos q Hq). lra.
  - pose proof (binary64_sign_neg p Hp). rewrite (binary64_zero q Hq). lra.
  - rewrite (binary64_pos p Hp), (binary64_pos q Hq).
    apply roundPositive_mono; lra.
  - pose proof (binary64_sign_pos q Hq). rewrite (binary64_zero p Hp). lra.
  - rewrite (binary64_zero p Hp), (binary64_zero q Hq). lra.
Qed.

(** The result does not depend on how the rational is written. *)
Lemma binary64_comp (p q : Q) : (p == q)%Q -> (binary64 p == binary64 q)%Q.
Proof.
  intros H. apply Qle_antisym; apply binary64_mono; rewrite H; apply Qle_refl.
Qed.

(** The relative error of a rounding is at most [2^-53]. *)
Lemma binary64_error (q : Q) :
  (0 <= q)%Q ->
  (q - q * (1 # 9007199254740992) <= binary64 q)%Q /\
  (binary64 q <= q + q * (1 # 9007199254740992))%Q.
Proof.
  intros H.
  destruct (Q_dec q 0) as [[Hq | Hq] | Hq]; [exfalso; lra | |].
  - rewrite (binary64_pos q Hq). apply roundPositive_error. exact Hq.
  - rewrite (binary64_zero q Hq). rewrite Hq. split; lra.
Qed.

Lemma binary64_one : (binary64 1 == 1)%Q.
Proof. reflexivity. Qed.

Lemma binary64_hundred : (binary64 100 == 100)%Q.
Proof. reflexivity. Qed.

End Binary64.

Section Nearest.

Lemma roundEven_nearest (t : Q) (k : Z) :
  (Qabs (inject_Z (roundEven t) - t) <= Qabs (inject_Z k - t))%Q.
Proof.
  pose proof (Qfloor_le t) as Fl. pose proof (Qlt_floor t) as Fu.
  rewrite inject_Z_plus in Fu. change (inject_Z 1) with 1%Q in Fu.
  set (f := Qfloor t) in *.
  assert (K : (inject_Z k <= inject_Z f)%Q \/ (inject_Z f + 1 <= inject_Z k)%Q).
  { destruct (Z_le_gt_dec k f) as [H | H].
    - left. rewrite <- Zle_Qle. exact H.
    - right. change 1%Q with (inject_Z 1). rewrite <- inject_Z_plus, <- Zle_Qle. lia. }
  destruct (roundEven_cases t) as [[-> H] | [-> H]]; fold f in H |- *.
  - apply Qabs_case; intros A; apply Qabs_case; intros B; destruct K; lra.
  - rewrite inject_Z_plus. change (inject_Z 1) with 1%Q.
    apply Qabs_case; intros A; apply Qabs_case; intros B; destruct K; lra.
Qed.

Lemma scaled_distance (a : Z) (t u : Q) :
  (0 < u)%Q ->
  (Qabs (inject_Z a * u - t * u) == Qabs (inject_Z a - t) * u)%Q.
Proof.
  intros Hu.
  setoid_replace (inject_Z a * u - t * u)%Q with ((inject_Z a - t) * u)%Q by ring.
  rewrite Qabs_Qmult. rewrite (Qabs_pos u) by lra. reflexivity.
Qed.

Lemma roundPositive_nearest (q x : Q) :
  (0 < q)%Q -> representable x ->
  (Qabs (roundPositive q - q) <= Qabs (x - q))%Q.
Proof.
  intros Hq (m & e' & Hm & Hx).
  pose proof (ulp_pos q) as Pu.
  pose proof (scaled_back q) as Sb.
  destruct (scaled_bounds q Hq) as [Tl Tu].
  rewrite roundPositive_eq.
  set (u := ulp q) in *. set (t := (q / u)%Q) in *.
  assert (D : forall k : Z,
             (Qabs (inject_Z (roundEven t) * u - q) <= Qabs (inject_Z k * u - q))%Q).
  { intros k. rewrite <- Sb. rewrite !scaled_distance by exact Pu.
    apply Qmult_le_r; [exact Pu | apply roundEven_nearest]. }
  assert (T52 : (inject_Z 4503599627370496 * u <= q)%Q).
  { rewrite <- Sb. apply Qmult_le_r; [exact Pu | exact Tl]. }
  assert (T53 : (q <= inject_Z 9007199254740992 * u)%Q).
  { rewrite <- Sb. apply Qmult_le_r; [exact Pu | apply Qlt_le_weak; exact Tu]. }
  destruct (Qlt_le_dec (inject_Z 4503599627370496 * u) x) as [Lo | Lo];
    [destruct (Qlt_le_dec x (inject_Z 9007199254740992 * u)) as [Hi | Hi] |].
  - (* x lies in the binade of q: it is a multiple of u *)
    assert (Pe : (0 < pow2 e')%Q) by apply pow2_pos.
    assert (Mpos : 0 < m).
    { destruct (Z_lt_le_dec 0 m) as [| N]; [assumption |]. exfalso.
      assert (M0 : (inject_Z m <= 0)%Q)
        by (change 0%Q with (inject_Z 0); rewrite <- Zle_Qle; exact N).
      assert (X0 : (inject_Z m * pow2 e' <= 0)%Q).
      { setoid_replace 0%Q with (0 * pow2 e')%Q by ring.
        apply Qmult_le_r; [exact Pe | exact M0]. }
      assert (U0 : (0 < inject_Z 4503599627370496 * u)%Q).
      { setoid_replace 0%Q with (0 * u)%Q by ring.
        apply Qmult_lt_r; [exact Pu | reflexivity]. }
      lra. }
    assert (He : exponent q - 52 <= e').
    { assert (L : (pow2 (exponent q) < pow2 (e' + 53))%Q).
      { rewrite (binade_ulp q). fold u. rewrite pow2_add.
        change (pow2 53) with (9007199254740992 # 1)%Q.
        apply (Qlt_le_trans _ x); [exact Lo |]. rewrite Hx.
        rewrite (Qmult_comm (pow2 e')).
        apply Qmult_le_r; [exact Pe |].
        change (9007199254740992 # 1)%Q with (inject_Z 9007199254740992).
        rewrite <- Zle_Qle. lia. }
      apply pow2_lt_inv in L. lia. }
    set (j := e' - (exponent q - 52)).
    assert (Pj : (pow2 e' == inject_Z (2 ^ j) * u)%Q).
    { unfold u, ulp. rewrite pow2_Z by (unfold j; lia). rewrite <- pow2_add.
      replace (j + (exponent q - 52)) with e' by (unfold j; lia). reflexivity. }
    assert (Xk : (x == inject_Z (m * 2 ^ j) * u)%Q).
    { rewrite Hx, Pj, inject_Z_mult. ring. }
    rewrite Xk. apply D.
  - (* x is at or beyond the upper end of the binade *)
    eapply Qle_trans; [apply (D 9007199254740992) |].
    rewrite (Qabs_pos (inject_Z 9007199254740992 * u - q)) by lra.
    rewrite (Qabs_pos (x - q)) by lra. lra.
  - (* x is at or below the lower end of the binade *)
    eapply Qle_trans; [apply (D 4503599627370496) |].
    rewrite (Qabs_neg (inject_Z 4503599627370496 * u - q)) by lra.
    rewrite (Qabs_neg (x - q)) by lra. lra.
Qed.

Lemma representable_opp (x : Q) : representable x -> representable (- x).
Proof.
  intros (m & e & Hm & Hx). exists (- m), e. split; [lia |].
  rewrite Hx, inject_Z_opp. ring.
Qed.

(** [binary64 q] has a significand of at most 53 bits, and no such number
    is nearer to [q]. *)
Lemma binary64_nearest (q : Q) :
  representable (binary64 q) /\
  forall x, representable x -> (Qabs (binary64 q - q) <= Qabs (x - q))%Q.
Proof.
  destruct (Q_dec q 0) as [[Hq | Hq] | Hq].
  - assert (Hp : (0 < - q)%Q) by lra.
    rewrite (binary64_neg q Hq). split.
    + apply representable_opp. rewrite roundPositive_eq.
      exists (roundEven (- q / ulp (- q))), (exponent (- q) - 52).
      split; [| reflexivity].
      pose proof (significand_bounds (- q) Hp). lia.
    + intros x Hx.
      pose proof (roundPositive_nearest (- q) (- x) Hp (representable_opp x Hx)) as N.
      setoid_replace (- roundPositive (- q) - q)%Q
        with (- (roundPositive (- q) - - q))%Q by ring.
      setoid_replace (x - q)%Q with (- (- x - - q))%Q by ring.
      rewrite !Qabs_opp. exact N.
  - rewrite (binary64_pos q Hq). split.
    + rewrite roundPositive_eq.
      exists (roundEven (q / ulp q)), (exponent q - 52).
      split; [| reflexivity].
      pose proof (significand_bounds q Hq). lia.
    + intros x Hx. now apply roundPositive_nearest.
  - rewrite (binary64_zero q Hq). split.
    + exists 0, 0. split; [lia | reflexivity].
    + intros x Hx. rewrite Hq.
      setoid_replace (0 - 0)%Q with 0%Q by ring. apply Qabs_nonneg.
Qed.

End Nearest.

(** *** Integers and percentages *)

Section NumberFacts.

Lemma inject_Z_nonzero (b : Z) : b <> 0 -> ~ (inject_Z b == 0)%Q.
Proof.
  intros Hb H. apply Hb. unfold Qeq in H. simpl in H. lia.
Qed.

Lemma Qeq_bool_inject_Z (a b : Z) : Qeq_bool (inject_Z a) (inject_Z b) = (a =? b).
Proof.
  unfold Qeq_bool, inject_Z. simpl. now rewrite !Z.mul_1_r.
Qed.

Lemma Qle_bool_inject_Z (a b : Z) : Qle_bool (inject_Z a) (inject_Z b) = (a <=? b).
Proof.
  unfold Qle_bool, inject_Z. simpl. now rewrite !Z.mul_1_r.
Qed.

Lemma eqb_of_Z (a b : Z) : eqb (of_Z a) (of_Z b) = (a =? b).
Proof. apply Qeq_bool_inject_Z. Qed.

Lemma leb_of_Z (a b : Z) : leb (of_Z a) (of_Z b) = (a <=? b).
Proof. apply Qle_bool_inject_Z. Qed.

Lemma geb_of_Z (a b : Z) : geb (of_Z a) (of_Z b) = (b <=? a).
Proof. apply Qle_bool_inject_Z. Qed.

Lemma ltb_of_Z (a b : Z) : ltb (of_Z a) (of_Z b) = (a <? b).
Proof.
  unfold ltb, of_Z. rewrite Qle_bool_inject_Z.
  destruct (Z.leb_spec b a), (Z.ltb_spec a b); simpl; auto; lia.
Qed.

Lemma gtb_of_Z (a b : Z) : gtb (of_Z a) (of_Z b) = (b <? a).
Proof. apply ltb_of_Z. Qed.

Lemma sub_of_Z (a b : Z) : sub (of_Z a) (of_Z b) = of_Z (a - b).
Proof.
  unfold sub, of_Z, inject_Z, Qminus, Qplus, Qopp. simpl.
  f_equal. f_equal. lia.
Qed.

Lemma Math_abs_of_Z (a : Z) : Math_abs (of_Z a) = of_Z (Z.abs a).
Proof. reflexivity. Qed.

(** [Math.round((a / b) * 100)] for a divisor that is not zero. *)
Lemma round_ratio (a b : Z) :
  b <> 0 ->
  Math_round (mul (div (of_Z a) (of_Z b)) (of_Z 100)) = of_Z (percentOf a b).
Proof.
  intros Hb. unfold div, of_Z.
  change 0%Q with (inject_Z 0). rewrite Qeq_bool_inject_Z.
  destruct (Z.eqb_spec b 0) as [E | _]; [contradiction |].
  reflexivity.
Qed.



Lemma percentOf_all (n : Z) : n <> 0 -> percentOf n n = 100.
Proof.
  intros H. unfold percentOf.
  assert (E : (inject_Z n / inject_Z n == 1)%Q).
  { field. apply inject_Z_nonzero. exact H. }
  apply binary64_comp in E. rewrite binary64_one in E.
  assert (E' : (binary64 (inject_Z n / inject_Z n) * inject_Z 100 == 100)%Q)
    by (rewrite E; reflexivity).
  apply binary64_comp in E'. rewrite binary64_hundred in E'.
  assert (F : (binary64 (binary64 (inject_Z n / inject_Z n) * inject_Z 100) + (1 # 2)
               == 100 + (1 # 2))%Q) by (rewrite E'; reflexivity).
  rewrite (Qfloor_comp _ _ F). reflexivity.
Qed.

Lemma percentOf_none (d : Z) : percentOf 0 d = 0.
Proof.
  unfold percentOf.
  assert (E : (inject_Z 0 / inject_Z d == 0)%Q).
  { unfold Qdiv. change (inject_Z 0) with 0%Q. ring. }
  rewrite (binary64_zero _ E). reflexivity.
Qed.

Lemma percentOf_scale (c n d : Z) :
  c <> 0 -> d <> 0 -> percentOf (c * n) (c * d) = percentOf n d.
Proof.
  intros Hc Hd. unfold percentOf.
  assert (E : (inject_Z (c * n) / inject_Z (c * d) == inject_Z n / inject_Z d)%Q).
  { rewrite !inject_Z_mult. field.
    split; apply inject_Z_nonzero; assumption. }
  apply binary64_comp in E.
  assert (E' : (binary64 (inject_Z (c * n) / inject_Z (c * d)) * inject_Z 100 ==
                binary64 (inject_Z n / inject_Z d) * inject_Z 100)%Q)
    by (rewrite E; reflexivity).
  apply binary64_comp in E'.
  apply Qfloor_comp. rewrite E'. reflexivity.
Qed.

Lemma ratio_le (n1 d1 n2 d2 : Z) :
  0 < d1 -> 0 < d2 -> n1 * d2 <= n2 * d1 ->
  (inject_Z n1 / inject_Z d1 <= inject_Z n2 / inject_Z d2)%Q.
Proof.
  intros H1 H2 H.
  destruct d1 as [| p1 | p1]; try lia. destruct d2 as [| p2 | p2]; try lia.
  rewrite <- !Qmake_Qdiv. unfold Qle. simpl. lia.
Qed.

Lemma percentOf_monotone (n1 d1 n2 d2 : Z) :
  0 < d1 -> 0 < d2 -> n1 * d2 <= n2 * d1 ->
  percentOf n1 d1 <= percentOf n2 d2.
Proof.
  intros H1 H2 H. unfold percentOf.
  apply Qfloor_resp_le.
  apply Qplus_le_l. apply binary64_mono.
  apply Qmult_le_r; [reflexivity |].
  apply binary64_mono. apply ratio_le; assumption.
Qed.

Lemma percentOf_range (n d : Z) :
  0 <= n <= d -> 0 < d -> 0 <= percentOf n d <= 100.
Proof.
  intros Hn Hd.
  pose proof (percentOf_monotone 0 d n d Hd Hd ltac:(lia)) as L.
  pose proof (percentOf_monotone n d d d Hd Hd ltac:(nia)) as U.
  rewrite percentOf_none in L. rewrite percentOf_all in U by lia. lia.
Qed.



(** [div] and [mul] compute what the machine computes: for every
    denominator from 1 to 200 and every numerator from 0 to the denominator,
    [(n / d) * 100] is the same double; and so it is for the larger votes
    of the examples. *)
Lemma percent_as_machine :
  forallb (fun d => forallb (fun n => sameValue (machinePercent n (d + 1))
                                                (modelPercent n (d + 1)))
                            (upTo (d + 1)))
          (upTo 199) = true /\
  forallb (fun '(n, d) => sameValue (machinePercent n d) (modelPercent n d))
          [(184, 320); (136, 320); (171, 342); (260, 347); (87, 348); (349, 350)]
  = true.
Proof. split; vm_compute; reflexivity. Qed.

End NumberFacts.

(** ** [calculateConsensus] *)

Section Consensus.

Ltac num_to_Z :=
  rewrite ?eqb_of_Z, ?geb_of_Z, ?leb_of_Z, ?ltb_of_Z, ?gtb_of_Z.

Ltac split_bools :=
  repeat match goal with
         | |- context [Z.eqb ?a ?b] => destruct (Z.eqb_spec a b)
         | |- context [Z.leb ?a ?b] => destruct (Z.leb_spec a b)
         | |- context [Z.ltb ?a ?b] => destruct (Z.ltb_spec a b)
         end.

Lemma calculateConsensus_index (i : Initiative) :
  consensusIndex (calculateConsensus i) = of_Z (indexZ i).
Proof.
  unfold calculateConsensus, consensusOf, indexZ, withoutVote, voting_exists, yesOf, noOf.
  destruct (voting i) as [v |]; [| reflexivity].
  destruct (v_exists v); [| reflexivity]. simpl negb. simpl orb.
  destruct (Z.eqb_spec (or_num (v_yes v) 0 + or_num (v_no v) 0) 0) as [E | E];
    [reflexivity |].
  cbv zeta. rewrite (round_ratio _ _ E). num_to_Z.
  split_bools; reflexivity.
Qed.

Lemma calculateConsensus_unvoted (i : Initiative) :
  withoutVote i = true -> calculateConsensus i = sinVotacion.
Proof.
  unfold calculateConsensus, consensusOf, withoutVote, voting_exists, yesOf, noOf.
  destruct (voting i) as [v |]; [| reflexivity].
  destruct (v_exists v); [| reflexivity]. simpl negb. simpl orb.
  cbv zeta. now intros ->.
Qed.

(** The label and colour of an initiative that has votes, from its index
    [k] and its [no] count. *)
Lemma calculateConsensus_voted (i : Initiative) :
  withoutVote i = false ->
  let m := calculateConsensus i in
  let k := percentOf (yesOf i) (yesOf i + noOf i) in
  consensusIndex m = of_Z k /\
  (label m = Unanimidad <-> k = 100 /\ noOf i = 0) /\
  (label m = GranAcuerdo <-> ~ (k = 100 /\ noOf i = 0) /\ 80 <= k) /\
  (label m = Ajustada /\ color m = "#F59E0B"%string <-> 45 <= k <= 55) /\
  (label m = Ajustada /\ color m = "#EF4444"%string <-> k < 45) /\
  (label m = Division <-> 56 <= k <= 79) /\
  (label m = Unanimidad -> color m = "#10B981"%string) /\
  (label m = GranAcuerdo -> color m = "#34D399"%string) /\
  (label m = Division -> color m = "#FBBF24"%string) /\
  label m <> SinVotacion.
Proof.
  cbv zeta.
  unfold calculateConsensus, consensusOf, withoutVote, voting_exists, yesOf, noOf.
  destruct (voting i) as [v |]; [| discriminate].
  destruct (v_exists v); [| discriminate].
  simpl negb. simpl orb.
  destruct (Z.eqb_spec (or_num (v_yes v) 0 + or_num (v_no v) 0) 0) as [E | E];
    [discriminate | intros _].
  rewrite (round_ratio _ _ E). num_to_Z.
  set (k := percentOf _ _). set (n := or_num (v_no v) 0).
  split_bools; simpl;
    repeat split; intros; try discriminate; try lia; try reflexivity;
    try (exfalso; lia);
    repeat match goal with
           | H : _ /\ _ |- _ => destruct H
           end; try discriminate; try lia.
Qed.





End Consensus.

(** ** Monotonicity of the label *)

Section Monotone.

Lemma ratio_le_cross (y1 t1 y2 t2 : Z) :
  0 < t1 -> 0 < t2 ->
  (inject_Z y1 / inject_Z t1 <= inject_Z y2 / inject_Z t2)%Q ->
  y1 * t2 <= y2 * t1.
Proof.
  intros H1 H2.
  destruct t1 as [| p1 | p1]; try lia. destruct t2 as [| p2 | p2]; try lia.
  rewrite <- !Qmake_Qdiv. unfold Qle. simpl. lia.
Qed.

(** C9: among initiatives that have a vote, with counts that are not
    negative, a higher share [yes / (yes + no)] never gives a weaker label,
    for the ordering Unanimidad > Gran Acuerdo > the other labels. *)
Theorem calculateConsensus_monotone (i1 i2 : Initiative) :
  voting_exists i1 = true -> voting_exists i2 = true ->
  0 <= noOf i1 -> 0 <= noOf i2 ->
  0 < yesOf i1 + noOf i1 -> 0 < yesOf i2 + noOf i2 ->
  (ratioOf i1 <= ratioOf i2)%Q ->
  (strength (label (calculateConsensus i1)) <=
   strength (label (calculateConsensus i2)))%nat.
Proof.
  intros E1 E2 N1 N2 T1 T2 Hr.
  apply ratio_le_cross in Hr; try assumption.
  pose proof (percentOf_monotone _ _ _ _ T1 T2 Hr) as Hk.
  assert (W1 : withoutVote i1 = false).
  { unfold withoutVote. rewrite E1. simpl. apply Z.eqb_neq. lia. }
  assert (W2 : withoutVote i2 = false).
  { unfold withoutVote. rewrite E2. simpl. apply Z.eqb_neq. lia. }
  destruct (calculateConsensus_voted i1 W1) as (_ & U1 & G1 & _).
  destruct (calculateConsensus_voted i2 W2) as (_ & U2 & G2 & _).
  destruct (label (calculateConsensus i1)) eqn:L1; simpl; try lia.
  - (* Unanimidad *)
    destruct (proj1 U1 eq_refl) as [K1 Z1].
    assert (noOf i2 = 0) by nia.
    assert (K2 : percentOf (yesOf i2) (yesOf i2 + noOf i2) = 100).
    { replace (yesOf i2) with (yesOf i2 + noOf i2) at 1 by lia.
      apply percentOf_all. lia. }
    rewrite (proj2 U2 (conj K2 H)). simpl. lia.
  - (* Gran Acuerdo *)
    destruct (proj1 G1 eq_refl) as [_ K1].
    destruct (Z.eq_dec (percentOf (yesOf i2) (yesOf i2 + noOf i2)) 100) as [K2 | K2].
    + destruct (Z.eq_dec (noOf i2) 0) as [Z2 | Z2].
      * rewrite (proj2 U2 (conj K2 Z2)). simpl. lia.
      * rewrite (proj2 G2). { simpl. lia. }
        split; [intros [_ ?]; contradiction | lia].
    + rewrite (proj2 G2). { simpl. lia. }
      split; [intros [? _]; contradiction | lia].
Qed.

Lemma calculateConsensus_monotone_witness :
  (strength (label (calculateConsensus (voted "a" 52 48))) <=
   strength (label (calculateConsensus (voted "b" 90 10))))%nat.
Proof.
  apply calculateConsensus_monotone;
    try reflexivity; try (vm_compute; discriminate).
Defined.

End Monotone.

(** ** [Array.prototype.sort] *)

Section SortFacts.

Context {A : Type}.
Variable cmp : A -> A -> number.
Variable key : A -> Z.
Variable dom : A -> Prop.

(** The comparator orders by [key]: [cmp a b > 0] exactly when [b] has
    the smaller key. *)
Hypothesis cmp_key :
  forall a b, dom a -> dom b -> gtb (cmp a b) (of_Z 0) = (key b <? key a).

Lemma sort_insert_perm (x : A) (l : list A) :
  Permutation (x :: l) (sort_insert cmp x l).
Proof.
  induction l as [| y l IH]; cbn [sort_insert]; [reflexivity |].
  destruct (gtb (cmp x y) (of_Z 0)); [| reflexivity].
  rewrite perm_swap. now apply perm_skip.
Qed.

Lemma Array_sort_perm (l : list A) : Permutation l (Array_sort cmp l).
Proof.
  induction l as [| x l IH]; cbn [Array_sort]; [reflexivity |].
  rewrite <- sort_insert_perm. now apply perm_skip.
Qed.

Lemma Array_sort_length (l : list A) : List.length (Array_sort cmp l) = List.length l.
Proof. symmetry. apply Permutation_length, Array_sort_perm. Qed.

Lemma Array_sort_dom (l : list A) : Forall dom l -> Forall dom (Array_sort cmp l).
Proof.
  intros H. rewrite Forall_forall in *. intros x Hx. apply H.
  eapply Permutation_in; [symmetry; apply Array_sort_perm | exact Hx].
Qed.

Lemma sort_insert_sorted (x : A) (l : list A) :
  dom x -> Forall dom l ->
  StronglySorted (fun a b => key a <= key b) l ->
  StronglySorted (fun a b => key a <= key b) (sort_insert cmp x l).
Proof.
  intros Hx Hl Hs. induction Hs as [| y l Hs IH Hy]; cbn [sort_insert].
  - constructor; constructor.
  - inversion Hl as [| ? ? Hdy Hdl]; subst.
    rewrite (cmp_key x y Hx Hdy).
    destruct (Z.ltb_spec (key y) (key x)) as [Hlt | Hge].
    + constructor; [now apply IH |].
      rewrite Forall_forall in *. intros z Hz.
      apply (Permutation_in _ (Permutation_sym (sort_insert_perm x l))) in Hz.
      destruct Hz as [<- | Hz]; [lia | now apply Hy].
    + constructor; [now constructor |].
      constructor; [assumption |].
      rewrite Forall_forall in *. intros z Hz.
      specialize (Hy z Hz). lia.
Qed.

Lemma Array_sort_sorted (l : list A) :
  Forall dom l -> StronglySorted (fun a b => key a <= key b) (Array_sort cmp l).
Proof.
  induction l as [| x l IH]; intros H; cbn [Array_sort]; [constructor |].
  inversion H; subst.
  apply sort_insert_sorted; auto using Array_sort_dom.
Qed.

Lemma sort_insert_stable (k : Z) (x : A) (l : list A) :
  dom x -> Forall dom l ->
  filter (fun a => key a =? k) (sort_insert cmp x l) =
  filter (fun a => key a =? k) (x :: l).
Proof.
  intros Hx Hl. induction Hl as [| y l Hy Hl IH]; [reflexivity |].
  cbn [sort_insert]. rewrite (cmp_key x y Hx Hy).
  destruct (Z.ltb_spec (key y) (key x)) as [Hlt | Hge]; [| reflexivity].
  cbn [filter] in *. rewrite IH.
  destruct (Z.eqb_spec (key y) k), (Z.eqb_spec (key x) k); try reflexivity; lia.
Qed.

Lemma Array_sort_stable (k : Z) (l : list A) :
  Forall dom l ->
  filter (fun a => key a =? k) (Array_sort cmp l) = filter (fun a => key a =? k) l.
Proof.
  induction l as [| x l IH]; intros H; [reflexivity |].
  inversion H; subst. cbn [Array_sort].
  rewrite sort_insert_stable by auto using Array_sort_dom.
  cbn [filter]. now rewrite IH.
Qed.

Lemma Array_sort_stable_sorted (l : list A) :
  Forall dom l -> stable_sorted key l (Array_sort cmp l).
Proof.
  intros H. repeat split.
  - apply Array_sort_perm.
  - now apply Array_sort_sorted.
  - intros k. now apply Array_sort_stable.
Qed.

End SortFacts.

(** The stable sort of a list is unique: the result of a sort does not
    depend on the sorting algorithm. *)
Lemma stable_sorted_unique {A : Type} (key : A -> Z) (l l1 l2 : list A) :
  stable_sorted key l l1 -> stable_sorted key l l2 -> l1 = l2.
Proof.
  intros (P1 & S1 & F1) (P2 & S2 & F2).
  assert (P : Permutation l1 l2) by (rewrite <- P1; exact P2).
  assert (F : forall k, filter (fun a => key a =? k) l1 =
                        filter (fun a => key a =? k) l2)
    by (intros k; now rewrite F1, F2).
  clear P1 P2 F1 F2 l.
  revert l2 S2 P F. induction S1 as [| a l1 S1 IH Ha]; intros l2 S2 P F.
  - now apply Permutation_nil in P.
  - destruct l2 as [| b l2].
    { symmetry in P. now apply Permutation_nil in P. }
    inversion S2 as [| ? ? S2' Hb]; subst.
    assert (Kab : key a = key b).
    { rewrite Forall_forall in Ha, Hb.
      assert (Ia : In a (b :: l2)) by (eapply Permutation_in; [exact P | now left]).
      assert (Ib : In b (a :: l1))
        by (eapply Permutation_in; [symmetry; exact P | now left]).
      destruct Ia as [-> | Ia]; [reflexivity |].
      destruct Ib as [-> | Ib]; [reflexivity |].
      specialize (Ha b Ib). specialize (Hb a Ia). lia. }
    assert (Eab : a = b).
    { specialize (F (key a)). cbn [filter] in F.
      rewrite Z.eqb_refl in F. rewrite <- Kab, Z.eqb_refl in F. congruence. }
    subst b. f_equal. apply IH.
    + assumption.
    + now apply Permutation_cons_inv in P.
    + intros k. specialize (F k). cbn [filter] in F.
      destruct (key a =? k); congruence.
Qed.

(** ** [getRankings] *)

Section Rankings.

Lemma classified_index (d : Detail) :
  classified d -> index d = of_Z (indexOf d).
Proof.
  unfold classified, indexOf, index. intros ->.
  rewrite calculateConsensus_index. unfold integerOf, of_Z.
  now rewrite Qfloor_Z.
Qed.

Lemma rankingDetails_classified (initiatives : list Initiative) :
  Forall classified (rankingDetails initiatives).
Proof.
  unfold rankingDetails. apply Forall_forall. intros d Hd.
  apply in_map_iff in Hd. destruct Hd as (i & <- & _). reflexivity.
Qed.

Lemma byConsensus_key (a b : Detail) :
  classified a -> classified b ->
  gtb (byConsensus a b) (of_Z 0) = (- indexOf b <? - indexOf a).
Proof.
  intros Ha Hb. unfold byConsensus.
  rewrite (classified_index a Ha), (classified_index b Hb), sub_of_Z, gtb_of_Z.
  destruct (Z.ltb_spec 0 (indexOf b - indexOf a)),
           (Z.ltb_spec (- indexOf b) (- indexOf a)); auto; lia.
Qed.

Lemma byDistance_key (a b : Detail) :
  classified a -> classified b ->
  gtb (byDistance a b) (of_Z 0) =
  (Z.abs (indexOf b - 50) <? Z.abs (indexOf a - 50)).
Proof.
  intros Ha Hb. unfold byDistance.
  rewrite (classified_index a Ha), (classified_index b Hb).
  rewrite !sub_of_Z, !Math_abs_of_Z, sub_of_Z, gtb_of_Z.
  destruct (Z.ltb_spec 0 (Z.abs (indexOf a - 50) - Z.abs (indexOf b - 50))),
           (Z.ltb_spec (Z.abs (indexOf b - 50)) (Z.abs (indexOf a - 50)));
    auto; lia.
Qed.

Lemma slice0_length {A : Type} (n : nat) (l : list A) :
  List.length (slice0 n l) = Nat.min n (List.length l).
Proof. apply length_firstn. Qed.

(** C3: [getRankings] keeps the initiatives whose [voting.exists] is true,
    classifies each, and returns as [topConsensus] the first 5 of their
    stable sort by decreasing index and as [topDivisive] the first 5 of
    their stable sort by increasing [|index - 50|], where the index of an
    entry is the integer [consensusIndex] that [calculateConsensus] gave it;
    each list has at most 5 entries, and exactly 5 as soon as 5 initiatives
    qualify.  An initiative with 184 Yes and 136 No, whose index is 57,
    comes after one with 58 Yes and 42 No. *)
Theorem getRankings_top5 (initiatives : list Initiative) :
  let qualifying := filter voting_exists initiatives in
  let details :=
    map (fun i => {| initiative := i; metric := calculateConsensus i |}) qualifying in
  let r := getRankings initiatives in
  Forall (fun d => index d = of_Z (indexOf d)) details /\
  (exists sorted,
      stable_sorted (fun d => - indexOf d) details sorted /\
      topConsensus r = firstn 5 sorted) /\
  (exists sortedDivisive,
      stable_sorted (fun d => Z.abs (indexOf d - 50)) details sortedDivisive /\
      topDivisive r = firstn 5 sortedDivisive) /\
  (List.length (topConsensus r) <= 5)%nat /\
  (List.length (topDivisive r) <= 5)%nat /\
  ((5 <= List.length qualifying)%nat ->
   List.length (topConsensus r) = 5%nat /\ List.length (topDivisive r) = 5%nat) /\
  map (fun d => (titulo (initiative d), index d))
      (topConsensus (getRankings [voted "A" 184 136; voted "B" 58 42])) =
  [("B"%string, of_Z 58); ("A"%string, of_Z 57)].
Proof.
  cbv zeta. fold (rankingDetails initiatives).
  pose proof (rankingDetails_classified initiatives) as Hc.
  assert (Hlen : List.length (rankingDetails initiatives) =
                 List.length (filter voting_exists initiatives))
    by (unfold rankingDetails; apply length_map).
  unfold getRankings at 1 2 3 4 5 6, rankingsOf. cbn [topConsensus topDivisive].
  rewrite !slice0_length, !Array_sort_length, Hlen.
  split; [| split; [| split; [| split; [| split; [| split]]]]].
  - eapply Forall_impl; [| exact Hc]. exact classified_index.
  - exists (Array_sort byConsensus (rankingDetails initiatives)).
    split; [| reflexivity].
    apply (Array_sort_stable_sorted byConsensus _ classified byConsensus_key _ Hc).
  - exists (Array_sort byDistance (rankingDetails initiatives)).
    split; [| reflexivity].
    apply (Array_sort_stable_sorted byDistance _ classified byDistance_key _ Hc).
  - lia.
  - lia.
  - lia.
  - vm_compute. reflexivity.
Qed.

Lemma getRankings_top5_witness :
  List.length (topConsensus (getRankings twenty)) = 5%nat /\
  List.length (topDivisive (getRankings twenty)) = 5%nat.
Proof.
  destruct (getRankings_top5 twenty) as (_ & _ & _ & _ & _ & H & _).
  apply H. vm_compute. lia.
Defined.

End Rankings.

(** ** Strings *)

Section StringFacts.

Lemma prefix_spec (t s : string) :
  prefix t s = true <-> exists post, s = (t ++ post)%string.
Proof.
  revert s. induction t as [| a t IH]; intros s.
  - split; [intros _; now exists s | intros _; now destruct s].
  - destruct s as [| b s]; simpl.
    + split; [discriminate | intros [post H]; discriminate H].
    + destruct (ascii_dec a b) as [-> | Hab].
      * rewrite IH. split; intros [post H]; exists post; congruence.
      * split; [discriminate | intros [post H]; congruence].
Qed.

Lemma includes_spec (s t : string) : includes s t = true <-> contains s t.
Proof.
  unfold contains. induction s as [| c s IH]; cbn [includes].
  - rewrite orb_false_r, prefix_spec. split.
    + intros [post H]. now exists ""%string, post.
    + intros (pre & post & H). destruct pre as [| ? ?]; [| discriminate H].
      now exists post.
  - rewrite orb_true_iff, prefix_spec, IH. split.
    + intros [[post H] | (pre & post & H)].
      * now exists ""%string, post.
      * exists (String c pre), post. simpl. now rewrite H.
    + intros (pre & post & H). destruct pre as [| c' pre].
      * left. now exists post.
      * right. exists pre, post. simpl in H. congruence.
Qed.

Lemma includes_false (s t : string) : includes s t = false <-> ~ contains s t.
Proof.
  rewrite <- includes_spec. destruct (includes s t); split; congruence.
Qed.

End StringFacts.

(** ** [calculateDashboardStats] *)

Section Dashboard.

Lemma rateOf_int (n d : Z) :
  rateOf n d = of_Z (if 0 <? d then percentOf n d else 0).
Proof.
  unfold rateOf. destruct (Z.ltb_spec 0 d); [| reflexivity].
  apply round_ratio. lia.
Qed.


Lemma dashboardStep_counts (acc : DashAcc) (i : Initiative) :
  let acc' := dashboardStep acc i in
  let b (o : Outcome) : Z := if outcome_is o i then 1 else 0 in
  successCount acc' = successCount acc + b o_success /\
  failureCount acc' = failureCount acc + b o_failure /\
  neutralCount acc' = neutralCount acc + b o_neutral /\
  finalizedCount acc' =
  finalizedCount acc + b o_success + b o_failure + b o_neutral.
Proof.
  cbv zeta. unfold dashboardStep, outcome_is, outcomeOf, statusOf.
  destruct (includes _ "Aprobado" || includes _ "Convalidado"); cbn;
    [repeat split; lia |].
  destruct (includes _ "Rechazado" || includes _ "Derogado"); cbn;
    [repeat split; lia |].
  destruct (includes _ "Retirado" || includes _ "Decaído"); cbn;
    repeat split; lia.
Qed.

Lemma countOutcome_cons (o : Outcome) (i : Initiative) (l : list Initiative) :
  countOutcome o (i :: l) = (if outcome_is o i then 1 else 0) + countOutcome o l.
Proof.
  unfold countOutcome. cbn [filter].
  destruct (outcome_is o i); cbn [List.length]; lia.
Qed.

Lemma dashboardFold_counts (l : list Initiative) (acc : DashAcc) :
  let acc' := fold_left dashboardStep l acc in
  successCount acc' = successCount acc + countOutcome o_success l /\
  failureCount acc' = failureCount acc + countOutcome o_failure l /\
  neutralCount acc' = neutralCount acc + countOutcome o_neutral l /\
  finalizedCount acc' =
  finalizedCount acc + countOutcome o_success l + countOutcome o_failure l
  + countOutcome o_neutral l.
Proof.
  cbv zeta. revert acc. induction l as [| i l IH]; intros acc; cbn [fold_left].
  - unfold countOutcome. cbn [filter List.length Z.of_nat]. lia.
  - specialize (IH (dashboardStep acc i)).
    pose proof (dashboardStep_counts acc i) as S. cbv beta zeta in S.
    rewrite !countOutcome_cons. lia.
Qed.

Lemma dashboardLoop_counts (l : list Initiative) :
  successCount (dashboardLoop l) = countOutcome o_success l /\
  failureCount (dashboardLoop l) = countOutcome o_failure l /\
  neutralCount (dashboardLoop l) = countOutcome o_neutral l /\
  finalizedCount (dashboardLoop l) =
  countOutcome o_success l + countOutcome o_failure l + countOutcome o_neutral l.
Proof.
  pose proof (dashboardFold_counts l
    {| finalizedCount := 0; successCount := 0; failureCount := 0;
       neutralCount := 0;
       govStats := {| total := 0; success := 0 |};
       groupStats := {| total := 0; success := 0 |} |}) as H.
  cbv zeta in H. cbn in H. unfold dashboardLoop. lia.
Qed.

Lemma countOutcome_nonneg (o : Outcome) (l : list Initiative) : 0 <= countOutcome o l.
Proof. unfold countOutcome. lia. Qed.





End Dashboard.

(** ** [getAffinity] *)

Section Affinity.

Lemma some_key_includes_spec (r : option Rec) (code : string) :
  some_key_includes r code = true <-> hasKey r code.
Proof.
  unfold some_key_includes, hasKey. destruct r as [entries |].
  - rewrite existsb_exists. split.
    + intros ([k n] & Hin & Hk). apply includes_spec in Hk.
      now exists entries, k, n.
    + intros (e & k & n & [= <-] & Hin & Hk).
      exists (k, n). split; [assumption |]. now apply includes_spec.
  - split; [discriminate |]. intros (e & k & n & H & _). discriminate H.
Qed.

Lemma voteOf_spec (d : Desglose) (code : string) :
  let y := hasKey (d_yes d) code in
  let n := hasKey (d_no d) code in
  let a := hasKey (d_abstention d) code in
  (voteOf d code = "yes"%string <-> y) /\
  (voteOf d code = "no"%string <-> ~ y /\ n) /\
  (voteOf d code = "abs"%string <-> ~ y /\ ~ n /\ a) /\
  (voteOf d code = ""%string <-> ~ y /\ ~ n /\ ~ a).
Proof.
  cbv zeta. rewrite <- !some_key_includes_spec. unfold voteOf.
  destruct (some_key_includes (d_yes d) code),
           (some_key_includes (d_no d) code),
           (some_key_includes (d_abstention d) code);
    repeat split; intros; try discriminate; try tauto; try intuition congruence.
Qed.

Lemma truthy_spec (s : string) : truthy s = true <-> s <> ""%string.
Proof.
  unfold truthy. destruct (String.eqb_spec s ""); simpl; split; intros; congruence.
Qed.

Lemma affinityStep_counts (t r : string) (acc : AffinityAcc) (init : Initiative) :
  let acc' := affinityStep t r acc init in
  totalComparisons acc' =
  totalComparisons acc + (if comparable t r init then 1 else 0) /\
  matches acc' = matches acc + (if agree t r init then 1 else 0).
Proof.
  cbv zeta. unfold affinityStep, compareVotes, agree, comparable, desgloseOf.
  destruct (voting init) as [v |]; [| cbn; lia].
  destruct (v_exists v); [| cbn; lia]. cbn [negb].
  destruct (voting_desglose v) as [d |]; [| cbn; lia].
  destruct (truthy (voteOf d r) && truthy (voteOf d t)); [| cbn; lia].
  cbn [andb matches totalComparisons].
  destruct (String.eqb (voteOf d r) (voteOf d t)); lia.
Qed.

Lemma countIf_cons {A : Type} (p : A -> bool) (x : A) (l : list A) :
  countIf p (x :: l) = (if p x then 1 else 0) + countIf p l.
Proof.
  unfold countIf. cbn [filter]. destruct (p x); cbn [List.length]; lia.
Qed.

Lemma countIf_nonneg {A : Type} (p : A -> bool) (l : list A) : 0 <= countIf p l.
Proof. unfold countIf. lia. Qed.

Lemma countIf_pos {A : Type} (p : A -> bool) (l : list A) :
  0 < countIf p l <-> exists x, In x l /\ p x = true.
Proof.
  unfold countIf. split.
  - intros H. destruct (filter p l) as [| x f] eqn:E; [cbn in H; lia |].
    exists x. apply filter_In. rewrite E. now left.
  - intros (x & Hx). apply filter_In in Hx.
    destruct (filter p l); [contradiction | cbn [List.length]; lia].
Qed.

Lemma affinityFold_counts (t r : string) (l : list Initiative) (acc : AffinityAcc) :
  let acc' := fold_left (affinityStep t r) l acc in
  totalComparisons acc' = totalComparisons acc + countIf (comparable t r) l /\
  matches acc' = matches acc + countIf (agree t r) l.
Proof.
  cbv zeta. revert acc. induction l as [| i l IH]; intros acc; cbn [fold_left].
  - unfold countIf. cbn [filter List.length Z.of_nat]. lia.
  - specialize (IH (affinityStep t r acc i)).
    pose proof (affinityStep_counts t r acc i) as S. cbv beta zeta in S.
    rewrite !countIf_cons. lia.
Qed.

Lemma affinityLoop_counts (t r : string) (l : list Initiative) :
  totalComparisons (affinityLoop l t r) = countIf (comparable t r) l /\
  matches (affinityLoop l t r) = countIf (agree t r) l.
Proof.
  pose proof (affinityFold_counts t r l {| matches := 0; totalComparisons := 0 |}) as H.
  cbv zeta in H. cbn [matches totalComparisons] in H. unfold affinityLoop. lia.
Qed.

Lemma agree_comparable (t r : string) (init : Initiative) :
  agree t r init = true -> comparable t r init = true.
Proof.
  unfold agree. now intros H%andb_true_iff.
Qed.

Lemma countIf_le {A : Type} (p q : A -> bool) (l : list A) :
  (forall x, p x = true -> q x = true) -> countIf p l <= countIf q l.
Proof.
  intros H. induction l as [| x l IH]; [reflexivity |].
  rewrite !countIf_cons. specialize (H x).
  destruct (p x), (q x); first [lia | discriminate (H eq_refl)].
Qed.

Lemma getAffinity_counts (l : list Initiative) (t r : string) :
  getAffinity l t r =
  if countIf (comparable t r) l =? 0 then of_Z 0
  else of_Z (percentOf (countIf (agree t r) l) (countIf (comparable t r) l)).
Proof.
  unfold getAffinity, affinityOf. destruct (affinityLoop_counts t r l) as [-> ->].
  pose proof (countIf_nonneg (comparable t r) l).
  cbn [matches totalComparisons]. rewrite rateOf_int.
  destruct (Z.ltb_spec 0 (countIf (comparable t r) l)),
           (Z.eqb_spec (countIf (comparable t r) l) 0); try reflexivity; lia.
Qed.



End Affinity.

Section SelfAffinity.

Lemma desgloseOf_spec (init : Initiative) (d : Desglose) :
  desgloseOf init = Some d <->
  exists v r, voting init = Some v /\ v_exists v = true /\
              result v = Some r /\ desglose r = Some d.
Proof.
  unfold desgloseOf, voting_desglose. split.
  - destruct (voting init) as [v |]; [| discriminate].
    destruct (v_exists v) eqn:E; [| discriminate].
    destruct (result v) as [r |] eqn:R; [| discriminate].
    intros H. now exists v, r.
  - intros (v & r & -> & -> & -> & H). exact H.
Qed.

Lemma voteOf_determined (d : Desglose) (code : string) :
  voteOf d code <> ""%string <->
  hasKey (d_yes d) code \/ hasKey (d_no d) code \/ hasKey (d_abstention d) code.
Proof.
  destruct (voteOf_spec d code) as (_ & _ & _ & H). cbv zeta in H.
  rewrite <- !some_key_includes_spec in *.
  destruct (some_key_includes (d_yes d) code),
           (some_key_includes (d_no d) code),
           (some_key_includes (d_abstention d) code);
    split; intros; try tauto;
    try (intros E; apply H in E; intuition congruence);
    try (exfalso; intuition congruence).
Qed.

Lemma comparable_self (code : string) (init : Initiative) :
  comparable code code init = true <->
  exists v r d, voting init = Some v /\ v_exists v = true /\
                result v = Some r /\ desglose r = Some d /\
                (hasKey (d_yes d) code \/ hasKey (d_no d) code \/
                 hasKey (d_abstention d) code).
Proof.
  unfold comparable. split.
  - destruct (desgloseOf init) as [d |] eqn:E; [| discriminate].
    rewrite andb_true_iff, truthy_spec, voteOf_determined. intros [H _].
    apply desgloseOf_spec in E. destruct E as (v & r & E).
    exists v, r, d. intuition.
  - intros (v & r & d & Hv & He & Hr & Hd & Hk).
    assert (E : desgloseOf init = Some d) by (apply desgloseOf_spec; now exists v, r).
    rewrite E, andb_true_iff, truthy_spec, voteOf_determined. now split.
Qed.

Lemma agree_self (code : string) (init : Initiative) :
  agree code code init = comparable code code init.
Proof.
  unfold agree, comparable. destruct (desgloseOf init) as [d |]; [| reflexivity].
  now rewrite String.eqb_refl, andb_true_r.
Qed.

Lemma countIf_ext {A : Type} (p q : A -> bool) (l : list A) :
  (forall x, p x = q x) -> countIf p l = countIf q l.
Proof.
  intros H. unfold countIf. now rewrite (filter_ext p q H).
Qed.

(** C10: the affinity of an actor with itself is 100 or 0: 100 exactly when
    some initiative has [voting.exists] true and a [desglose] in which an
    actor code of Yes, No or Abstain contains the code, and 0 otherwise. *)
Theorem getAffinity_self (initiatives : list Initiative) (code : string) :
  (getAffinity initiatives code code = of_Z 100 \/
   getAffinity initiatives code code = of_Z 0) /\
  (getAffinity initiatives code code = of_Z 100 <-> appearsIn initiatives code) /\
  (getAffinity initiatives code code = of_Z 0 <-> ~ appearsIn initiatives code).
Proof.
  rewrite getAffinity_counts.
  rewrite (countIf_ext _ _ initiatives (agree_self code)).
  set (n := countIf (comparable code code) initiatives).
  assert (Hpos : 0 < n <-> appearsIn initiatives code).
  { unfold n. rewrite countIf_pos. unfold appearsIn. split.
    - intros (init & Hin & Hc). apply comparable_self in Hc.
      destruct Hc as (v & r & d & Hc). exists init, v, r, d. tauto.
    - intros (init & v & r & d & Hin & Hc). exists init. split; [assumption |].
      apply comparable_self. now exists v, r, d. }
  pose proof (countIf_nonneg (comparable code code) initiatives) as Hn. fold n in Hn.
  destruct (Z.eqb_spec n 0) as [E | E].
  - split; [now right |]. split.
    + split; [discriminate | intros H; apply Hpos in H; lia].
    + split; [intros _ H; apply Hpos in H; lia | reflexivity].
  - rewrite percentOf_all by lia.
    assert (Ha : appearsIn initiatives code) by (apply Hpos; lia).
    split; [now left |]. split.
    + split; [intros _; exact Ha | reflexivity].
    + split; [discriminate | intros H; contradiction].
Qed.

End SelfAffinity.

(** ** [calculateParticipationStats]: what is accumulated *)

Section Participation.

Lemma breakdownOf_none (init : Initiative) :
  breakdownOf init = None <-> lacksBreakdown init.
Proof.
  unfold breakdownOf, lacksBreakdown. split.
  - destruct (voting init) as [v |]; [| now left]. intros H. right. exists v.
    split; [reflexivity |].
    destruct (v_exists v); [| now left]. cbn [negb] in H.
    destruct (result v) as [r |]; [| right; now left].
    right. right. exists r. split; [reflexivity |].
    destruct (totales r); [| now left]. destruct (desglose r); [discriminate | now right].
  - intros [-> | (v & -> & [-> | [-> | (r & -> & [-> | ->])]])]; try reflexivity;
      destruct (v_exists v); try reflexivity; cbn [negb];
      destruct (totales r); reflexivity.
Qed.

Lemma or_num_nonzero (x : option Z) (d : Z) : d <> 0 -> or_num x d <> 0.
Proof.
  intros Hd. unfold or_num. destruct x as [v |]; [| assumption].
  destruct (Z.eqb_spec v 0); assumption.
Qed.

Lemma participationFold_totals (l : list Initiative) (acc : PartAcc) :
  acc_totalVoted (fold_left participationStep l acc) =
  acc_totalVoted acc + sumOf castBy l /\
  acc_totalAbstentions (fold_left participationStep l acc) =
  acc_totalAbstentions acc + sumOf abstainedBy l.
Proof.
  revert acc. induction l as [| i l IH]; intros acc; cbn [fold_left sumOf fold_right].
  - lia.
  - destruct (IH (participationStep acc i)) as [-> ->].
    fold (sumOf castBy l). fold (sumOf abstainedBy l).
    unfold participationStep, accumulate, castBy, abstainedBy.
    destruct (breakdownOf i) as [[t d] |]; cbn; lia.
Qed.

(** C2, as the code has it: an initiative is left out of the accumulation
    exactly when it has no vote ([voting] absent or [exists] false) or its
    vote lacks [totales] or lacks [desglose]: either one missing is enough.
    An initiative that has both adds [afavor + enContra + abstenciones] to
    [totalVoted] and its abstentions to [totalAbstentions]. *)
Theorem participation_skips (initiatives : list Initiative)
        (acc : PartAcc) (init : Initiative) :
  (participationStep acc init = acc <-> lacksBreakdown init) /\
  (forall totals d,
      breakdownOf init = Some (totals, d) ->
      acc_totalVoted (participationStep acc init) =
      acc_totalVoted acc + votesCastOf totals /\
      acc_totalAbstentions (participationStep acc init) =
      acc_totalAbstentions acc + or_num (abstenciones totals) 0) /\
  (forall v r totals d,
      voting init = Some v -> v_exists v = true -> result v = Some r ->
      totales r = Some totals -> desglose r = Some d ->
      breakdownOf init = Some (totals, d)) /\
  totalVoted (calculateParticipationStats initiatives) = sumOf castBy initiatives /\
  totalAbstentions (calculateParticipationStats initiatives) =
  sumOf abstainedBy initiatives.
Proof.
  split; [| split; [| split]].
  - rewrite <- breakdownOf_none. unfold participationStep, accumulate.
    destruct (breakdownOf init) as [[t d] |]; [| tauto].
    split; [| discriminate]. intros H. exfalso.
    apply (f_equal acc_totalPresent) in H. cbn in H.
    pose proof (or_num_nonzero (presentes t) 350 ltac:(discriminate)). lia.
  - intros totals d H. unfold participationStep, accumulate. rewrite H. cbn.
    split; reflexivity.
  - intros v r totals d Hv He Hr Ht Hd. unfold breakdownOf.
    now rewrite Hv, He, Hr, Ht, Hd.
  - unfold calculateParticipationStats, participationReport.
    cbn [totalVoted totalAbstentions].
    unfold participationLoop.
    destruct (participationFold_totals initiatives
                {| acc_totalPresent := 0; acc_totalVoted := 0;
                   acc_totalAbstentions := 0; acc_noVotesByParty := [];
                   acc_criticalAbsences := []; acc_brokenBlocks := [] |}) as [-> ->].
    cbn. split; reflexivity.
Qed.

Lemma participation_skips_witness :
  totalVoted (calculateParticipationStats
                [withResult (Some (tally 170 160 20 350 0)) (Some emptyDesglose)])
  = 350.
Proof.
  destruct (participation_skips
              [withResult (Some (tally 170 160 20 350 0)) (Some emptyDesglose)]
              {| acc_totalPresent := 0; acc_totalVoted := 0;
                 acc_totalAbstentions := 0; acc_noVotesByParty := [];
                 acc_criticalAbsences := []; acc_brokenBlocks := [] |}
              (withResult (Some (tally 170 160 20 350 0)) (Some emptyDesglose)))
    as (_ & _ & Hb & Hv & _).
  rewrite Hv. unfold sumOf, fold_right, castBy.
  rewrite (Hb _ _ (tally 170 160 20 350 0) emptyDesglose eq_refl eq_refl eq_refl
              eq_refl eq_refl).
  reflexivity.
Defined.

(** C2, as it is worded, does not hold: an initiative with [exists] true
    that supplies [totales] (170 for, 160 against, 20 abstentions) but no
    [desglose] is skipped; its 350 votes are not added to [totalVoted], nor
    its abstentions to [totalAbstentions]. *)
Lemma participation_needs_desglose :
  let totals := tally 170 160 20 350 0 in
  let init := withResult (Some totals) None in
  voting_exists init = true /\
  votesCastOf totals = 350 /\
  totalVoted (calculateParticipationStats [init]) = 0 /\
  totalAbstentions (calculateParticipationStats [init]) = 0 /\
  ~ (forall init v r totals,
        voting init = Some v -> v_exists v = true -> result v = Some r ->
        totales r = Some totals -> desglose r = None ->
        totalVoted (calculateParticipationStats [init]) = votesCastOf totals).
Proof.
  cbv zeta. repeat split.
  intros H.
  specialize (H (withResult (Some (tally 170 160 20 350 0)) None) _ _ _
                eq_refl eq_refl eq_refl eq_refl eq_refl).
  discriminate H.
Qed.

(** C7: [totalNoVotes] is [350 * n - totalVoted] for [n] initiatives, so
    [totalNoVotes + totalVoted] is [350 * n], which [totalPossibleVotes]
    equals. *)
Theorem participation_seats (initiatives : list Initiative) :
  let stats := calculateParticipationStats initiatives in
  let n := Z.of_nat (List.length initiatives) in
  totalNoVotes stats = n * 350 - totalVoted stats /\
  totalNoVotes stats + totalVoted stats = n * 350 /\
  totalPossibleVotes stats = n * 350.
Proof.
  cbv zeta. unfold calculateParticipationStats, participationReport.
  cbn [totalNoVotes totalVoted totalPossibleVotes].
  lia.
Qed.

End Participation.

(** ** [calculateParticipationStats]: broken blocks *)

Section Shares.

Lemma div_of_Z (m t : Z) :
  t <> 0 -> div (of_Z m) (of_Z t) = Fin (binary64 (inject_Z m / inject_Z t)).
Proof.
  intros Ht. unfold div, of_Z.
  change 0%Q with (inject_Z 0). rewrite Qeq_bool_inject_Z.
  now destruct (Z.eqb_spec t 0).
Qed.

Lemma ltb_Fin (a b : Q) : ltb (Fin a) (Fin b) = true <-> (a < b)%Q.
Proof.
  unfold ltb. rewrite negb_true_iff. split.
  - intros H. apply Qnot_le_lt. intros Hle.
    apply Qle_bool_iff in Hle. congruence.
  - intros H. destruct (Qle_bool b a) eqn:E; [| reflexivity].
    apply Qle_bool_iff in E. exfalso. now apply (Qlt_not_le a b).
Qed.

Lemma share_above (m t : Z) :
  0 < t -> (8 # 10 < inject_Z m / inject_Z t)%Q <-> 4 * t < 5 * m.
Proof.
  intros Ht. destruct t as [| p | p]; try lia.
  rewrite <- Qmake_Qdiv. unfold Qlt. cbn [Qnum Qden]. lia.
Qed.

Lemma share_below (m t : Z) :
  0 < t -> (inject_Z m / inject_Z t < 1)%Q <-> m < t.
Proof.
  intros Ht. destruct t as [| p | p]; try lia.
  rewrite <- Qmake_Qdiv. unfold Qlt. cbn [Qnum Qden]. lia.
Qed.

(** The literal [0.8] is the double just above 4/5. *)
Lemma binary64_four_fifths :
  (binary64 (8 # 10) == 3602879701896397 # 4503599627370496)%Q.
Proof. reflexivity. Qed.

(** Below [2^50] the rounding of [m / t] cannot hide on which side of 0.8
    the share lies. *)
Lemma rounded_share_above (m t : Z) :
  0 < t < 2 ^ 50 ->
  (binary64 (8 # 10) < binary64 (inject_Z m / inject_Z t))%Q <-> 4 * t < 5 * m.
Proof.
  intros Ht. split.
  - intros H. destruct (Z_lt_dec (4 * t) (5 * m)) as [| N]; [assumption |].
    exfalso.
    assert (L : (inject_Z m / inject_Z t <= 8 # 10)%Q).
    { apply Qnot_lt_le. intros C.
      apply (proj1 (share_above m t ltac:(lia))) in C. lia. }
    apply binary64_mono in L. lra.
  - intros H. rewrite binary64_four_fifths.
    set (M := inject_Z m). set (T := inject_Z t).
    assert (T0 : (0 < T)%Q).
    { unfold T. change 0%Q with (inject_Z 0). rewrite <- Zlt_Qlt. lia. }
    assert (T1 : (T <= 1125899906842624 # 1)%Q).
    { change (1125899906842624 # 1)%Q with (inject_Z (2 ^ 50)). unfold T.
      rewrite <- Zle_Qle. lia. }
    assert (MT : (4 * T + 1 <= 5 * M)%Q).
    { unfold M, T. change 4%Q with (inject_Z 4). change 5%Q with (inject_Z 5).
      change 1%Q with (inject_Z 1).
      rewrite <- !inject_Z_mult, <- inject_Z_plus, <- Zle_Qle. lia. }
    assert (X : ((4 # 5) + (1 # 5629499534213120) <= M / T)%Q).
    { apply Qle_shift_div_l; [exact T0 | lra]. }
    assert (X0 : (0 <= M / T)%Q) by lra.
    destruct (binary64_error _ X0) as [E _].
    set (b := binary64 (M / T)) in *. set (x := (M / T)%Q) in *. lra.
Qed.

Lemma rounded_share_below (m t : Z) :
  0 <= m -> 0 < t < 2 ^ 50 ->
  (binary64 (inject_Z m / inject_Z t) < 1)%Q <-> m < t.
Proof.
  intros Hm Ht. split.
  - intros H. destruct (Z_lt_dec m t) as [| N]; [assumption |].
    exfalso.
    assert (L : (1 <= inject_Z m / inject_Z t)%Q).
    { apply Qnot_lt_le. intros C.
      apply (proj1 (share_below m t ltac:(lia))) in C. lia. }
    apply binary64_mono in L. rewrite binary64_one in L. lra.
  - intros H.
    set (M := inject_Z m). set (T := inject_Z t).
    assert (T0 : (0 < T)%Q).
    { unfold T. change 0%Q with (inject_Z 0). rewrite <- Zlt_Qlt. lia. }
    assert (T1 : (T <= 1125899906842624 # 1)%Q).
    { change (1125899906842624 # 1)%Q with (inject_Z (2 ^ 50)). unfold T.
      rewrite <- Zle_Qle. lia. }
    assert (M0 : (0 <= M)%Q).
    { unfold M. change 0%Q with (inject_Z 0). rewrite <- Zle_Qle. lia. }
    assert (MT : (M + 1 <= T)%Q).
    { unfold M, T. change 1%Q with (inject_Z 1).
      rewrite <- inject_Z_plus, <- Zle_Qle. lia. }
    assert (X : (M / T <= 1 - (1 # 1125899906842624))%Q).
    { apply Qle_shift_div_r; [exact T0 | lra]. }
    assert (X0 : (0 <= M / T)%Q).
    { apply Qle_shift_div_l; [exact T0 | lra]. }
    destruct (binary64_error _ X0) as [_ E].
    set (b := binary64 (M / T)) in *. set (x := (M / T)%Q) in *. lra.
Qed.

(** The code's [Math.max(yes, no, abs)] is the largest of the three
    counts. *)
Lemma maxVoteOf_spec (m : Z) (votes : PartyVotes) :
  isMaxVote m votes <-> m = maxVoteOf votes.
Proof.
  unfold isMaxVote, maxVoteOf. lia.
Qed.

Lemma isBroken_Z (votes : PartyVotes) :
  0 < totalOf votes ->
  isBroken votes <->
  4 * totalOf votes < 5 * maxVoteOf votes /\ maxVoteOf votes < totalOf votes.
Proof.
  intros Ht. unfold isBroken. split.
  - intros (m & Hm & A & B). apply maxVoteOf_spec in Hm. subst m.
    apply (proj1 (share_above _ _ Ht)) in A.
    apply (proj1 (share_below _ _ Ht)) in B.
    now split.
  - intros [A B]. exists (maxVoteOf votes).
    split; [now apply maxVoteOf_spec |].
    split; [now apply share_above | now apply share_below].
Qed.

Lemma ratio_test (votes : PartyVotes) :
  nonNegative votes -> 0 < totalOf votes < 2 ^ 50 ->
  let consensusRatio := div (of_Z (maxVoteOf votes)) (of_Z (totalOf votes)) in
  gtb consensusRatio (of_Q (8 # 10)) && ltb consensusRatio (of_Z 1) = true <->
  isBroken votes.
Proof.
  intros Hnn Ht. cbv zeta. rewrite div_of_Z by lia.
  rewrite isBroken_Z by lia.
  unfold gtb, of_Q, of_Z. rewrite andb_true_iff, !ltb_Fin.
  change (inject_Z 1) with 1%Q.
  assert (Hm : 0 <= maxVoteOf votes).
  { destruct Hnn as (Hy & _). unfold maxVoteOf. lia. }
  rewrite rounded_share_above by exact Ht.
  rewrite rounded_share_below by assumption.
  reflexivity.
Qed.

End Shares.

Section ObjectFacts.

Context {V : Type}.

Lemma get_update (k k' : string) (f : option V -> V) (m : list (string * V)) :
  get k (update k' f m) = if String.eqb k k' then Some (f (get k' m)) else get k m.
Proof.
  induction m as [| [k0 v] m IH]; cbn [get update].
  - destruct (String.eqb k k'); reflexivity.
  - destruct (String.eqb_spec k' k0) as [-> | Hne]; cbn [get].
    + destruct (String.eqb_spec k k0); reflexivity.
    + rewrite IH. destruct (String.eqb_spec k k0) as [-> | Hk].
      * destruct (String.eqb_spec k0 k'); [congruence | reflexivity].
      * reflexivity.
Qed.

Lemma update_keys (k k' : string) (f : option V -> V) (m : list (string * V)) :
  In k (map fst (update k' f m)) <-> k = k' \/ In k (map fst m).
Proof.
  induction m as [| [k0 v] m IH]; cbn [update map fst In].
  - intuition.
  - destruct (String.eqb_spec k' k0) as [-> | Hne]; cbn [map fst In].
    + intuition.
    + rewrite IH. intuition.
Qed.

Lemma update_NoDup (k : string) (f : option V -> V) (m : list (string * V)) :
  NoDup (map fst m) -> NoDup (map fst (update k f m)).
Proof.
  induction m as [| [k0 v] m IH]; cbn [update map fst]; intros H.
  - repeat constructor. intros [].
  - inversion H as [| ? ? Hnot Hnd]; subst.
    destruct (String.eqb_spec k k0) as [-> | Hne]; cbn [map fst].
    + now constructor.
    + constructor; [| now apply IH].
      rewrite update_keys. intros [E | E]; [congruence | contradiction].
Qed.

Lemma get_In (k : string) (v : V) (m : list (string * V)) :
  NoDup (map fst m) -> In (k, v) m <-> get k m = Some v.
Proof.
  induction m as [| [k0 v0] m IH]; cbn [get map fst In]; intros H.
  - split; [intros [] | discriminate].
  - inversion H as [| ? ? Hnot Hnd]; subst.
    destruct (String.eqb_spec k k0) as [-> | Hne].
    + split.
      * intros [[= <-] | Hin]; [reflexivity |].
        exfalso. apply Hnot. apply in_map_iff. now exists (k0, v).
      * intros [= <-]. now left.
    + rewrite <- (IH Hnd). split.
      * intros [[= E _] | Hin]; [congruence | assumption].
      * intros Hin. now right.
Qed.

Lemma placeIndex_perm (n : N) (e : string * V) (l : list (N * (string * V))) :
  Permutation (placeIndex n e l) ((n, e) :: l).
Proof.
  induction l as [| [n' e'] l IH]; cbn [placeIndex]; [reflexivity |].
  destruct (n <? n')%N; [reflexivity |].
  rewrite IH. apply perm_swap.
Qed.

(** [Object.entries] lists every entry once. *)
Lemma Object_entries_perm (m : list (string * V)) :
  Permutation (Object_entries m) m.
Proof.
  unfold Object_entries.
  induction m as [| e m IH]; [reflexivity |].
  cbn [indexEntries namedEntries fold_right filter].
  fold (indexEntries m). fold (namedEntries m).
  destruct (arrayIndex (fst e)) as [n |].
  - rewrite (Permutation_map snd (placeIndex_perm n e (indexEntries m))).
    cbn [map snd app]. now constructor.
  - rewrite <- Permutation_middle. now constructor.
Qed.

Lemma Object_entries_In (x : string * V) (m : list (string * V)) :
  In x (Object_entries m) <-> In x m.
Proof.
  split; apply Permutation_in;
    [apply Object_entries_perm | symmetry; apply Object_entries_perm].
Qed.

Lemma Object_entries_length (m : list (string * V)) :
  List.length (Object_entries m) = List.length m.
Proof. apply Permutation_length, Object_entries_perm. Qed.

Lemma Object_entries_NoDup (m : list (string * V)) :
  NoDup (map fst m) -> NoDup (map fst (Object_entries m)).
Proof.
  apply Permutation_NoDup. apply Permutation_map. symmetry.
  apply Object_entries_perm.
Qed.

End ObjectFacts.

Section Tallies.

Lemma addVotes_twice (c : Category) (a b : Z) (v : PartyVotes) :
  addVotes c a (addVotes c b v) = addVotes c (b + a) v.
Proof.
  destruct c; cbn; f_equal; lia.
Qed.

Lemma mentionedIn_cons (party k : string) (n : Z) (entries : Rec) :
  mentionedIn party (Some ((k, n) :: entries)) =
  String.eqb party k || mentionedIn party (Some entries).
Proof. reflexivity. Qed.

Lemma sumFor_cons (party k : string) (n : Z) (entries : Rec) :
  sumFor party (Some ((k, n) :: entries)) =
  if String.eqb party k then n + sumFor party (Some entries)
  else sumFor party (Some entries).
Proof. reflexivity. Qed.

Lemma sumFor_unmentioned (party : string) (r : option Rec) :
  mentionedIn party r = false -> sumFor party r = 0.
Proof.
  destruct r as [entries |]; [| reflexivity].
  induction entries as [| [k n] entries IH]; [reflexivity |].
  rewrite mentionedIn_cons, sumFor_cons.
  destruct (String.eqb party k); cbn [orb]; [discriminate | exact IH].
Qed.

Lemma countVotes_cons (c : Category) (k : string) (n : Z) (entries : Rec)
      (pv : list (string * PartyVotes)) :
  countVotes c (Some ((k, n) :: entries)) pv =
  countVotes c (Some entries)
             (update k (fun old => addVotes c n (orNoVotes old)) pv).
Proof. reflexivity. Qed.

Lemma countVotes_get (c : Category) (party : string) (source : option Rec)
      (pv : list (string * PartyVotes)) :
  get party (countVotes c source pv) =
  if mentionedIn party source
  then Some (addVotes c (sumFor party source) (orNoVotes (get party pv)))
  else get party pv.
Proof.
  destruct source as [entries |]; [| reflexivity].
  revert pv. induction entries as [| [k n] entries IH]; intros pv; [reflexivity |].
  rewrite countVotes_cons, IH, get_update, mentionedIn_cons, sumFor_cons.
  destruct (String.eqb_spec party k) as [-> | Hne]; cbn [orb]; [| reflexivity].
  destruct (mentionedIn k (Some entries)) eqn:M.
  - cbn [orNoVotes]. now rewrite addVotes_twice.
  - now rewrite (sumFor_unmentioned _ _ M), Z.add_0_r.
Qed.

Lemma countVotes_NoDup (c : Category) (source : option Rec)
      (pv : list (string * PartyVotes)) :
  NoDup (map fst pv) -> NoDup (map fst (countVotes c source pv)).
Proof.
  destruct source as [entries |]; [| trivial].
  revert pv. induction entries as [| [k n] entries IH]; intros pv H; [exact H |].
  rewrite countVotes_cons. apply IH. now apply update_NoDup.
Qed.

Lemma partyVotesOf_NoDup (d : Desglose) : NoDup (map fst (partyVotesOf d)).
Proof.
  unfold partyVotesOf. repeat apply countVotes_NoDup. constructor.
Qed.

Lemma partyVotesOf_get (d : Desglose) (party : string) :
  get party (partyVotesOf d) =
  if mentions d party then Some (tallyOf d party) else None.
Proof.
  unfold partyVotesOf, mentions, tallyOf. rewrite !countVotes_get. cbn [get].
  destruct (mentionedIn party (d_yes d)) eqn:My,
           (mentionedIn party (d_no d)) eqn:Mn,
           (mentionedIn party (d_abstention d)) eqn:Ma,
           (mentionedIn party (d_no_vote d)) eqn:Mv;
    cbn [orb orNoVotes addVotes noVotes yes no abs no_vote];
    rewrite ?(sumFor_unmentioned _ _ My), ?(sumFor_unmentioned _ _ Mn),
            ?(sumFor_unmentioned _ _ Ma), ?(sumFor_unmentioned _ _ Mv);
    reflexivity.
Qed.

(** The entries of [partyVotes] are the parties that the breakdown
    mentions, each with its votes in the four categories. *)
Lemma partyVotesOf_entries (d : Desglose) (party : string) (votes : PartyVotes) :
  In (party, votes) (partyVotesOf d) <->
  mentions d party = true /\ votes = tallyOf d party.
Proof.
  rewrite (get_In _ _ _ (partyVotesOf_NoDup d)), partyVotesOf_get.
  destruct (mentions d party); split.
  - intros [= <-]. now split.
  - intros [_ ->]. reflexivity.
  - discriminate.
  - intros [H _]. discriminate H.
Qed.

End Tallies.

Section BrokenBlocks.

Lemma pos_nonzero (c : Z) : 0 <= c -> (0 <? c) = negb (c =? 0).
Proof.
  intros H. destruct (Z.ltb_spec 0 c), (Z.eqb_spec c 0); simpl; auto; lia.
Qed.

(** In a broken block exactly one of Yes, No, Abstain reaches [maxVote], and
    some other category has votes. *)
Lemma broken_dominant (y n a v : Z) :
  let votes := votesOf y n a v in
  nonNegative votes -> 0 < totalOf votes -> isBroken votes ->
  let m := maxVoteOf votes in
  ((y = m /\ n <> m /\ a <> m) \/ (n = m /\ y <> m /\ a <> m) \/
   (a = m /\ y <> m /\ n <> m)) /\
  v <> m /\ 0 < m /\ m < y + n + a + v.
Proof.
  cbv zeta. intros (Hy & Hn & Ha & Hv) Ht Hb.
  apply isBroken_Z in Hb; [| exact Ht].
  unfold totalOf, maxVoteOf, votesOf in *. cbn [yes no abs no_vote] in *.
  lia.
Qed.

Lemma minorsOf_spec (votes : PartyVotes) :
  nonNegative votes -> 0 < totalOf votes -> isBroken votes ->
  minorsOf votes =
  map (fun c => (show (countIn c votes) ++ " " ++ wordOf c)%string)
      (minorityOf (dominantOf votes) votes) /\
  minorityOf (dominantOf votes) votes <> [].
Proof.
  destruct votes as [y n a v]. intros Hnn Ht Hb.
  pose proof (broken_dominant y n a v Hnn Ht Hb) as (D & Dv & Hm & Hlt).
  cbv zeta in D, Dv, Hm, Hlt. destruct Hnn as (Hy & Hn & Ha & Hv).
  unfold votesOf in *.
  unfold minorsOf, minorityOf, dominantOf. cbn [yes no abs no_vote countIn] in *.
  remember (maxVoteOf {| yes := y; no := n; abs := a; no_vote := v |}) as m eqn:Em.
  clear Em.
  rewrite (pos_nonzero y Hy), (pos_nonzero n Hn), (pos_nonzero a Ha),
          (pos_nonzero v Hv).
  rewrite (proj2 (Z.eqb_neq v m) Dv).
  destruct D as [(E & N1 & N2) | [(E & N1 & N2) | (E & N1 & N2)]];
    rewrite ?(proj2 (Z.eqb_eq _ _) E), ?(proj2 (Z.eqb_neq _ _) N1),
            ?(proj2 (Z.eqb_neq _ _) N2);
    cbn [filter sameCategory negb andb countIn yes no abs no_vote];
    destruct (Z.eqb_spec y 0), (Z.eqb_spec n 0), (Z.eqb_spec a 0),
             (Z.eqb_spec v 0);
    try (exfalso; lia);
    cbn [filter sameCategory negb andb map app countIn yes no abs no_vote];
    (split; [reflexivity | discriminate]).
Qed.

Lemma detail_text (votes : PartyVotes) :
  nonNegative votes -> 0 < totalOf votes -> isBroken votes ->
  ("Mayoría votó "
     ++ (if (yes votes =? maxVoteOf votes)%Z then "Sí"
         else if (no votes =? maxVoteOf votes)%Z then "No" else "Abs")
     ++ ", pero hubo: " ++ String.concat ", " (minorsOf votes))%string
  = detailOf (dominantOf votes) votes.
Proof.
  intros Hnn Ht Hb.
  rewrite (proj1 (minorsOf_spec votes Hnn Ht Hb)). unfold detailOf, dominantOf.
  destruct (yes votes =? maxVoteOf votes); [reflexivity |].
  destruct (no votes =? maxVoteOf votes); reflexivity.
Qed.

(** The option that the detail names is the dominant one, and in a broken
    block no other option is. *)
Lemma dominantOf_dominates (votes : PartyVotes) :
  nonNegative votes -> 0 < totalOf votes -> isBroken votes ->
  dominates (dominantOf votes) votes /\
  forall c, dominates c votes -> c = dominantOf votes.
Proof.
  destruct votes as [y n a v]. intros Hnn Ht Hb.
  pose proof (broken_dominant y n a v Hnn Ht Hb) as (D & Dv & Hm & Hlt).
  cbv zeta in D, Dv, Hm, Hlt. unfold votesOf in *.
  unfold dominates, dominantOf, isMaxVote, maxVoteOf in *.
  cbn [yes no abs no_vote] in *.
  split.
  - destruct (Z.eqb_spec y (Z.max (Z.max y n) a));
      [| destruct (Z.eqb_spec n (Z.max (Z.max y n) a))];
      cbn [countIn yes no abs no_vote]; (split; [discriminate | lia]).
  - intros c [Hc Hmax].
    destruct (Z.eqb_spec y (Z.max (Z.max y n) a));
      [| destruct (Z.eqb_spec n (Z.max (Z.max y n) a))];
      destruct c; cbn [countIn yes no abs no_vote] in Hmax;
      try reflexivity; try contradiction; exfalso; lia.
Qed.

Lemma brokenBlockOf_spec (init : Initiative) (party : string) (votes : PartyVotes) :
  nonNegative votes -> 5 <= totalOf votes < 2 ^ 50 ->
  (isBroken votes ->
   brokenBlockOf init party votes =
   [ {| bb_initiative := init; party := party;
        details := detailOf (dominantOf votes) votes |} ]) /\
  (~ isBroken votes -> brokenBlockOf init party votes = []).
Proof.
  intros Hnn Ht. assert (Hpos : 0 < totalOf votes) by lia.
  unfold brokenBlockOf. cbv zeta.
  destruct (Z.ltb_spec (totalOf votes) 5) as [| _]; [lia |].
  pose proof (ratio_test votes Hnn ltac:(lia)) as R. cbv zeta in R.
  destruct (gtb _ _ && ltb _ _).
  - assert (Hb : isBroken votes) by now apply R.
    split; [intros _ | intros H; contradiction].
    destruct (minorsOf_spec votes Hnn Hpos Hb) as [Hm Hne].
    destruct (minorsOf votes) as [| s ms] eqn:Es.
    + exfalso.
      destruct (minorityOf (dominantOf votes) votes); [now apply Hne | discriminate Hm].
    + cbn [List.length Nat.ltb Nat.leb]. rewrite <- Es.
      now rewrite (detail_text votes Hnn Hpos Hb).
  - split; [intros Hb; apply R in Hb; discriminate Hb | reflexivity].
Qed.

Lemma brokenBlockOf_small (init : Initiative) (party : string) (votes : PartyVotes) :
  totalOf votes < 5 -> brokenBlockOf init party votes = [].
Proof.
  intros H. unfold brokenBlockOf. cbv zeta.
  destruct (Z.ltb_spec (totalOf votes) 5); [reflexivity | lia].
Qed.

Lemma participationFold_blocks (l : list Initiative) (acc : PartAcc) :
  acc_brokenBlocks (fold_left participationStep l acc) =
  acc_brokenBlocks acc ++ flat_map blocksOf l.
Proof.
  revert acc. induction l as [| i l IH]; intros acc; cbn [fold_left flat_map].
  - now rewrite app_nil_r.
  - rewrite IH. unfold participationStep, accumulate, blocksOf.
    destruct (breakdownOf i) as [[t d] |]; cbn [acc_brokenBlocks].
    + now rewrite app_assoc.
    + reflexivity.
Qed.

End BrokenBlocks.

Section BrokenBlocksTheorem.

Lemma blocksOf_entries (init : Initiative) (t : Totales) (d : Desglose)
      (b : BrokenBlock) :
  breakdownOf init = Some (t, d) ->
  In b (blocksOf init) <->
  exists p, mentions d p = true /\ In b (brokenBlockOf init p (tallyOf d p)).
Proof.
  intros H. unfold blocksOf, brokenBlocksOf. rewrite H, in_flat_map. split.
  - intros ([p votes] & Hin & Hb).
    apply Object_entries_In, partyVotesOf_entries in Hin.
    destruct Hin as [Hm ->]. now exists p.
  - intros (p & Hm & Hb). exists (p, tallyOf d p). split; [| exact Hb].
    now apply Object_entries_In, partyVotesOf_entries.
Qed.

(** C6: for an initiative that is not skipped and a party whose tallies
    (yes, no, abs, no_vote; none negative) add up to at least 5 (and to less
    than [2^50]), a broken block is recorded iff [maxVote / total] is
    strictly between 0.8 and 1, where [maxVote] is the largest of yes, no
    and abs: one of the three counts, not below any of them.  Its detail
    names the dominant option, the one of Yes, No, Abstain with that count
    (there is only one), and lists every other category that has votes.
    Below 5 votes nothing is recorded.  The blocks returned are the first 3
    found, in the order of the dataset.  A party with 81 Yes and 19 No is a
    broken block, and so is one with 19 Yes and 81 No, or one with 45
    abstentions, 3 Yes and 2 no-votes; one with 80 Yes and 20 No is not, nor
    is one with 9 no-votes and 1 Yes, since no-votes do not count towards
    [maxVote]. *)
Theorem brokenBlocks_detected (initiatives : list Initiative) (init : Initiative)
        (party : string) (votes : PartyVotes) :
  (nonNegative votes -> 5 <= totalOf votes < 2 ^ 50 ->
   (brokenBlockOf init party votes <> [] <-> isBroken votes) /\
   (isBroken votes ->
    exists c,
      dominates c votes /\
      (forall c', dominates c' votes -> c' = c) /\
      brokenBlockOf init party votes =
      [ {| bb_initiative := init; party := party; details := detailOf c votes |} ])) /\
  (totalOf votes < 5 -> brokenBlockOf init party votes = []) /\
  (forall t d b,
      breakdownOf init = Some (t, d) ->
      In b (blocksOf init) <->
      exists p, mentions d p = true /\ In b (brokenBlockOf init p (tallyOf d p))) /\
  brokenBlocks (calculateParticipationStats initiatives) =
  firstn 3 (flat_map blocksOf initiatives) /\
  (List.length (brokenBlocks (calculateParticipationStats initiatives)) <= 3)%nat /\
  brokenBlockOf init party (votesOf 81 19 0 0) =
  [ {| bb_initiative := init; party := party;
       details := "Mayoría votó Sí, pero hubo: 19 No" |} ] /\
  brokenBlockOf init party (votesOf 19 81 0 0) =
  [ {| bb_initiative := init; party := party;
       details := "Mayoría votó No, pero hubo: 19 Sí" |} ] /\
  brokenBlockOf init party (votesOf 3 0 45 2) =
  [ {| bb_initiative := init; party := party;
       details := "Mayoría votó Abs, pero hubo: 3 Sí, 2 No Voto" |} ] /\
  brokenBlockOf init party (votesOf 80 20 0 0) = [] /\
  brokenBlockOf init party (votesOf 1 0 0 9) = [].
Proof.
  assert (Hall : brokenBlocks (calculateParticipationStats initiatives) =
                 firstn 3 (flat_map blocksOf initiatives)).
  { unfold calculateParticipationStats, participationReport.
    cbn [brokenBlocks]. unfold participationLoop.
    rewrite participationFold_blocks. reflexivity. }
  split; [| split; [| split; [| split; [| split]]]].
  - intros Hnn Ht.
    destruct (brokenBlockOf_spec init party votes Hnn Ht) as [Hyes Hno].
    assert (Hpos : 0 < totalOf votes) by lia.
    split.
    + split.
      * intros Hne.
        apply isBroken_Z; [exact Hpos |].
        destruct (Z_lt_dec (4 * totalOf votes) (5 * maxVoteOf votes)) as [A | A];
          [destruct (Z_lt_dec (maxVoteOf votes) (totalOf votes)) as [B | B] |];
          [now split | |]; exfalso; apply Hne, Hno; intros Hb;
          apply isBroken_Z in Hb; try exact Hpos; lia.
      * intros Hb. rewrite (Hyes Hb). discriminate.
    + intros Hb.
      destruct (dominantOf_dominates votes Hnn Hpos Hb) as [Hd Hu].
      exists (dominantOf votes). split; [exact Hd |]. split; [exact Hu |].
      exact (Hyes Hb).
  - apply brokenBlockOf_small.
  - intros t d b. apply blocksOf_entries.
  - exact Hall.
  - rewrite Hall, length_firstn. lia.
  - repeat split; vm_compute; reflexivity.
Qed.

Lemma brokenBlocks_detected_witness :
  exists c,
    dominates c (votesOf 8 90 0 2) /\
    brokenBlockOf (voted "ley" 170 160) "GP" (votesOf 8 90 0 2) =
    [ {| bb_initiative := voted "ley" 170 160; party := "GP";
         details := detailOf c (votesOf 8 90 0 2) |} ].
Proof.
  destruct (brokenBlocks_detected [] (voted "ley" 170 160) "GP" (votesOf 8 90 0 2))
    as [H _].
  destruct H as [_ H].
  - unfold nonNegative. simpl. lia.
  - vm_compute. split; [discriminate | reflexivity].
  - destruct H as (c & Hd & _ & Hb).
    + exists 90. split; [| split; reflexivity].
      unfold isMaxVote. simpl. lia.
    + exists c. split; assumption.
Defined.

End BrokenBlocksTheorem.

(** ** No access to a property of [undefined] *)

Section Guards.

Lemma forEach_ok {A S : Type} (body : S -> A -> outcome S) (step : S -> A -> S)
      (l : list A) (s : S) :
  (forall s x, body s x = Ok (step s x)) ->
  forEach body l s = Ok (fold_left step l s).
Proof.
  intros H. revert s. induction l as [| x l IH]; intros s; cbn [forEach fold_left].
  - reflexivity.
  - rewrite H. cbn [bind]. apply IH.
Qed.

Lemma mapAll_ok {A B : Type} (f : A -> outcome B) (g : A -> B) (l : list A) :
  (forall x, f x = Ok (g x)) -> mapAll f l = Ok (map g l).
Proof.
  intros H. induction l as [| x l IH]; cbn [mapAll map].
  - reflexivity.
  - rewrite H, IH. reflexivity.
Qed.

Lemma checked_calculateConsensus (i : Initiative) :
  Checked.calculateConsensus i = Ok (calculateConsensus i).
Proof.
  unfold Checked.calculateConsensus, calculateConsensus.
  destruct (voting i) as [v |]; cbn; [| reflexivity].
  destruct (v_exists v); reflexivity.
Qed.

Lemma checked_getRankings (l : list Initiative) :
  Checked.getRankings l = Ok (getRankings l).
Proof.
  unfold Checked.getRankings, getRankings, rankingDetails.
  rewrite (mapAll_ok _ (fun i => {| initiative := i; metric := calculateConsensus i |})).
  - reflexivity.
  - intros i. now rewrite checked_calculateConsensus.
Qed.

Lemma checked_affinityStep (t r : string) (acc : AffinityAcc) (init : Initiative) :
  Checked.affinityStep t r acc init = Ok (affinityStep t r acc init).
Proof.
  unfold Checked.affinityStep, affinityStep, voting_exists, voting_desglose.
  destruct (voting init) as [v |]; cbn; [| reflexivity].
  destruct (v_exists v); cbn; [| reflexivity].
  destruct (result v) as [res |]; cbn; [| reflexivity].
  destruct (desglose res); reflexivity.
Qed.

Lemma checked_getAffinity (l : list Initiative) (t r : string) :
  Checked.getAffinity l t r = Ok (getAffinity l t r).
Proof.
  unfold Checked.getAffinity, getAffinity, affinityLoop.
  now rewrite (forEach_ok _ _ _ _ (checked_affinityStep t r)).
Qed.

Lemma checked_participationStep (acc : PartAcc) (init : Initiative) :
  Checked.participationStep acc init = Ok (participationStep acc init).
Proof.
  unfold Checked.participationStep, participationStep, breakdownOf, voting_exists.
  destruct (voting init) as [v |]; cbn; [| reflexivity].
  destruct (v_exists v); cbn; [| reflexivity].
  destruct (result v) as [res |]; cbn; [| reflexivity].
  destruct (totales res); cbn; [| reflexivity].
  destruct (desglose res); reflexivity.
Qed.

Lemma checked_calculateParticipationStats (l : list Initiative) :
  Checked.calculateParticipationStats l = Ok (calculateParticipationStats l).
Proof.
  unfold Checked.calculateParticipationStats, calculateParticipationStats,
    participationLoop.
  now rewrite (forEach_ok _ _ _ _ checked_participationStep).
Qed.

End Guards.

(** ** Rates *)

Section Rates.

Lemma rateOf_isInteger (n d : Z) : isInteger (rateOf n d).
Proof. rewrite rateOf_int. now eexists. Qed.

Lemma rateOf_zero (n d : Z) : d = 0 -> rateOf n d = of_Z 0.
Proof. intros ->. reflexivity. Qed.

Lemma NaN_not_integer : ~ isInteger NaN.
Proof. intros [k H]. discriminate H. Qed.

(** C8: on every input of the data model, missing [voting], missing counts
    and missing maps included, no analysis function reads a property of
    [undefined] (the transcriptions with explicit [TypeError] return [Ok];
    [calculateDashboardStats] reads only properties of the initiative
    itself), and each rate is an integer, never [NaN]: [consensusIndex], the
    affinity, [globalSuccessRate], the [rate] of [gobierno] and of [groups],
    and [globalCommitment]; a zero denominator yields 0. *)
Theorem rates_are_integers (initiatives : list Initiative) (i : Initiative)
        (targetCode referenceCode : string) :
  let dash := calculateDashboardStats initiatives in
  let part := calculateParticipationStats initiatives in
  (Checked.calculateConsensus i = Ok (calculateConsensus i) /\
   Checked.getRankings initiatives = Ok (getRankings initiatives) /\
   Checked.getAffinity initiatives targetCode referenceCode =
   Ok (getAffinity initiatives targetCode referenceCode) /\
   Checked.calculateParticipationStats initiatives = Ok part) /\
  (isInteger (consensusIndex (calculateConsensus i)) /\
   (yesOf i + noOf i = 0 -> consensusIndex (calculateConsensus i) = of_Z 0)) /\
  (isInteger (getAffinity initiatives targetCode referenceCode) /\
   (totalComparisons (affinityLoop initiatives targetCode referenceCode) = 0 ->
    getAffinity initiatives targetCode referenceCode = of_Z 0)) /\
  (isInteger (globalSuccessRate dash) /\
   (finalizedCount (dashboardLoop initiatives) = 0 ->
    globalSuccessRate dash = of_Z 0)) /\
  (isInteger (rate (gobierno (authorEfficiency dash))) /\
   (ef_total (gobierno (authorEfficiency dash)) = 0 ->
    rate (gobierno (authorEfficiency dash)) = of_Z 0)) /\
  (isInteger (rate (groups (authorEfficiency dash))) /\
   (ef_total (groups (authorEfficiency dash)) = 0 ->
    rate (groups (authorEfficiency dash)) = of_Z 0)) /\
  (isInteger (globalCommitment part) /\
   (Z.of_nat (List.length initiatives) * 350 = 0 ->
    globalCommitment part = of_Z 0)) /\
  ~ isInteger NaN.
Proof.
  cbv zeta.
  split; [| split; [| split; [| split; [| split; [| split; [| split]]]]]].
  - repeat split.
    + apply checked_calculateConsensus.
    + apply checked_getRankings.
    + apply checked_getAffinity.
    + apply checked_calculateParticipationStats.
  - split.
    + exists (indexZ i). apply calculateConsensus_index.
    + intros H. rewrite calculateConsensus_index. unfold indexZ, withoutVote.
      rewrite H, Z.eqb_refl, orb_true_r. reflexivity.
  - unfold getAffinity, affinityOf.
    split; [apply rateOf_isInteger | apply rateOf_zero].
  - cbn [calculateDashboardStats globalSuccessRate].
    split; [apply rateOf_isInteger | apply rateOf_zero].
  - cbn [calculateDashboardStats authorEfficiency gobierno rate ef_total].
    split; [apply rateOf_isInteger | apply rateOf_zero].
  - cbn [calculateDashboardStats authorEfficiency groups rate ef_total].
    split; [apply rateOf_isInteger | apply rateOf_zero].
  - unfold calculateParticipationStats, participationReport.
    cbn [globalCommitment].
    split; [apply rateOf_isInteger | apply rateOf_zero].
  - exact NaN_not_integer.
Qed.

Lemma rates_are_integers_witness :
  consensusIndex (calculateConsensus (voted "sin votos" 0 0)) = of_Z 0 /\
  getAffinity [] "GP" "GS" = of_Z 0 /\
  globalCommitment (calculateParticipationStats []) = of_Z 0.
Proof.
  destruct (rates_are_integers [] (voted "sin votos" 0 0) "GP" "GS")
    as (_ & (_ & Hc) & (_ & Ha) & _ & _ & _ & (_ & Hg) & _).
  split; [apply Hc; reflexivity |].
  split; [apply Ha; reflexivity | apply Hg; reflexivity].
Defined.

End Rates.

(** ** Worked examples *)

Section Examples.

Example classify_unanimous :
  calculateConsensus (voted "x" 100 0) =
  {| consensusIndex := of_Z 100; label := Unanimidad; color := "#10B981" |}.
Proof. reflexivity. Qed.

Example classify_strong :
  calculateConsensus (voted "x" 90 10) =
  {| consensusIndex := of_Z 90; label := GranAcuerdo; color := "#34D399" |}.
Proof. reflexivity. Qed.

Example classify_close :
  calculateConsensus (voted "x" 52 48) =
  {| consensusIndex := of_Z 52; label := Ajustada; color := "#F59E0B" |}.
Proof. reflexivity. Qed.

Example classify_low :
  calculateConsensus (voted "x" 40 60) =
  {| consensusIndex := of_Z 40; label := Ajustada; color := "#EF4444" |}.
Proof. reflexivity. Qed.

(** 999 against 1 rounds to 100 but is not unanimous. *)
Example classify_almost_unanimous :
  calculateConsensus (voted "x" 999 1) =
  {| consensusIndex := of_Z 100; label := GranAcuerdo; color := "#34D399" |}.
Proof. reflexivity. Qed.

(** 29 against 171 is 14.5 per cent; [29 / 200] is a double below 0.145 and
    the product the double [14.499999999999998], so the index is 14. *)
Example classify_tie_down :
  calculateConsensus (voted "x" 29 171) =
  {| consensusIndex := of_Z 14; label := Ajustada; color := "#EF4444" |}.
Proof. reflexivity. Qed.

(** 1 against 7 is 12.5 per cent, a double as it stands: the index is 13. *)
Example classify_tie_up :
  calculateConsensus (voted "x" 1 7) =
  {| consensusIndex := of_Z 13; label := Ajustada; color := "#EF4444" |}.
Proof. reflexivity. Qed.

(** Ties keep the order of the input in both rankings. *)
Example rankings_keep_ties :
  map (fun d => titulo (initiative d)) (topConsensus (getRankings sixVotes)) =
  ["f"; "a"; "c"; "e"; "b"]%string /\
  map (fun d => titulo (initiative d)) (topDivisive (getRankings sixVotes)) =
  ["b"; "d"; "e"; "a"; "c"]%string.
Proof. split; reflexivity. Qed.

Example dashboard_sample :
  let stats :=
    calculateDashboardStats
      [filed "Aprobado con modificaciones" "Gobierno";
       filed "Rechazado" "GOBIERNO de la Nación";
       filed "Decaído" "GP"; filed "En tramitación" "GS";
       filed "Convalidado" "GS"] in
  globalSuccessRate stats = of_Z 50 /\
  breakdown stats = {| bd_success := 2; bd_failure := 1; bd_neutral := 1 |} /\
  ef_total (gobierno (authorEfficiency stats)) = 2.
Proof. cbv zeta. repeat split; reflexivity. Qed.

End Examples.

(** ** More on [calculateConsensus] *)

Section ConsensusMore.

Lemma calculateConsensus_reads (i : Initiative) :
  voting_exists i = true ->
  calculateConsensus i = consensusOf (yesOf i) (noOf i).
Proof.
  unfold voting_exists, calculateConsensus, yesOf, noOf.
  destruct (voting i) as [v |]; [| discriminate]. now intros ->.
Qed.

Lemma consensusOf_scale (c y n : Z) :
  0 < c -> consensusOf (c * y) (c * n) = consensusOf y n.
Proof.
  intros Hc. unfold consensusOf. cbv zeta.
  replace (c * y + c * n) with (c * (y + n)) by ring.
  destruct (Z.eqb_spec (y + n) 0) as [E | E].
  - rewrite E, Z.mul_0_r. reflexivity.
  - destruct (Z.eqb_spec (c * (y + n)) 0) as [E' | E']; [nia |].
    rewrite (round_ratio _ _ E), (round_ratio _ _ E').
    rewrite percentOf_scale by lia.
    replace (c * n =? 0) with (n =? 0); [reflexivity |].
    destruct (Z.eqb_spec n 0), (Z.eqb_spec (c * n) 0); auto; nia.
Qed.

(** X1: with counts that are not negative the index is an integer between
    0 and 100, whatever else the initiative holds. *)
Theorem consensusIndex_range (i : Initiative) :
  countsNonNegative i ->
  exists k : Z,
    consensusIndex (calculateConsensus i) = of_Z k /\ 0 <= k <= 100.
Proof.
  intros [Hy Hn]. exists (indexZ i). split; [apply calculateConsensus_index |].
  unfold indexZ. destruct (withoutVote i) eqn:W; [lia |].
  unfold withoutVote in W. apply orb_false_iff in W. destruct W as [_ W].
  apply Z.eqb_neq in W. apply percentOf_range; lia.
Qed.

Lemma consensusIndex_range_witness :
  exists k : Z,
    consensusIndex (calculateConsensus (voted "a" 29 171)) = of_Z k /\
    0 <= k <= 100.
Proof.
  apply (consensusIndex_range (voted "a" 29 171)).
  split; vm_compute; discriminate.
Defined.

(** X2: for an initiative with a vote and counts that are not negative, the
    label is "Unanimidad" exactly when there is no No and at least one Yes,
    and "Sin Votación" exactly when there is neither Yes nor No. *)
Theorem consensus_extremes (i : Initiative) :
  voting_exists i = true -> countsNonNegative i ->
  (label (calculateConsensus i) = Unanimidad <-> noOf i = 0 /\ 0 < yesOf i) /\
  (label (calculateConsensus i) = SinVotacion <-> yesOf i = 0 /\ noOf i = 0).
Proof.
  intros He [Hy Hn].
  destruct (withoutVote i) eqn:W.
  - rewrite (calculateConsensus_unvoted i W). cbn [label sinVotacion].
    unfold withoutVote in W. rewrite He in W. cbn in W. apply Z.eqb_eq in W.
    split; split.
    + discriminate.
    + intros [? ?]. exfalso. lia.
    + intros _. lia.
    + reflexivity.
  - destruct (calculateConsensus_voted i W) as (_ & U & _ & _ & _ & _ & _ & _ & _ & NS).
    cbv zeta in U, NS.
    unfold withoutVote in W. rewrite He in W. cbn in W. apply Z.eqb_neq in W.
    split.
    + rewrite U. split.
      * intros [_ Z0]. lia.
      * intros [Z0 Hpos]. split; [| exact Z0].
        rewrite Z0, Z.add_0_r. apply percentOf_all. lia.
    + split; [intros H; contradiction | intros [? ?]; lia].
Qed.

Lemma consensus_extremes_witness :
  label (calculateConsensus (voted "a" 12 0)) = Unanimidad.
Proof.
  apply (consensus_extremes (voted "a" 12 0)).
  - reflexivity.
  - split; vm_compute; discriminate.
  - split; vm_compute; reflexivity.
Defined.

(** X3: a vote with No votes only is not told apart from a close one: its
    index is 0 and it is labelled "Ajustada", in the risk colour. *)
Theorem consensus_all_against (i : Initiative) :
  voting_exists i = true -> yesOf i = 0 -> 0 < noOf i ->
  calculateConsensus i =
  {| consensusIndex := of_Z 0; label := Ajustada; color := "#EF4444" |}.
Proof.
  intros He Hy Hn. rewrite (calculateConsensus_reads i He), Hy.
  unfold consensusOf. cbv zeta. rewrite Z.add_0_l.
  destruct (Z.eqb_spec (noOf i) 0) as [E | E]; [lia |].
  rewrite (round_ratio _ _ E), percentOf_none by lia.
  reflexivity.
Qed.

Lemma consensus_all_against_witness :
  label (calculateConsensus (voted "a" 0 340)) = Ajustada.
Proof.
  rewrite (consensus_all_against (voted "a" 0 340)); [reflexivity | | |].
  - reflexivity.
  - reflexivity.
  - vm_compute. reflexivity.
Defined.

(** X4: the metric depends on the proportion of Yes and No only: multiplying
    both counts by the same positive factor changes nothing. *)
Theorem consensus_scale_invariant (i j : Initiative) (c : Z) :
  voting_exists i = true -> voting_exists j = true -> 0 < c ->
  yesOf j = c * yesOf i -> noOf j = c * noOf i ->
  calculateConsensus j = calculateConsensus i.
Proof.
  intros Hi Hj Hc Hy Hn.
  rewrite (calculateConsensus_reads i Hi), (calculateConsensus_reads j Hj), Hy, Hn.
  now apply consensusOf_scale.
Qed.

Lemma consensus_scale_invariant_witness :
  calculateConsensus (voted "b" 87 29) = calculateConsensus (voted "a" 3 1).
Proof.
  apply (consensus_scale_invariant (voted "a" 3 1) (voted "b" 87 29) 29);
    try reflexivity.
Defined.

End ConsensusMore.

(** ** More on [getAffinity] *)

Section AffinityMore.

Lemma comparable_sym (t r : string) (init : Initiative) :
  comparable t r init = comparable r t init.
Proof.
  unfold comparable. destruct (desgloseOf init); [apply andb_comm | reflexivity].
Qed.

Lemma agree_sym (t r : string) (init : Initiative) :
  agree t r init = agree r t init.
Proof.
  unfold agree. rewrite (comparable_sym t r).
  destruct (desgloseOf init); [| reflexivity]. now rewrite String.eqb_sym.
Qed.

Lemma countIf_filter {A : Type} (p q : A -> bool) (l : list A) :
  (forall x, p x = true -> q x = true) -> countIf p (filter q l) = countIf p l.
Proof.
  intros H. induction l as [| x l IH]; [reflexivity |].
  cbn [filter]. specialize (H x). destruct (q x) eqn:Q.
  - rewrite !countIf_cons. lia.
  - rewrite countIf_cons. destruct (p x); first [lia | discriminate (H eq_refl)].
Qed.

Lemma countIf_all {A : Type} (p q : A -> bool) (l : list A) :
  (forall x, In x l -> q x = true -> p x = true) ->
  countIf q l <= countIf p l.
Proof.
  induction l as [| x l IH]; intros H; [reflexivity |].
  rewrite !countIf_cons.
  assert (IH' : countIf q l <= countIf p l)
    by (apply IH; intros y Hy; apply H; now right).
  pose proof (H x (or_introl eq_refl)) as Hx.
  destruct (q x), (p x); first [lia | discriminate (Hx eq_refl)].
Qed.

Lemma countIf_none {A : Type} (p : A -> bool) (l : list A) :
  (forall x, In x l -> p x = false) -> countIf p l = 0.
Proof.
  induction l as [| x l IH]; intros H; [reflexivity |].
  rewrite countIf_cons, (H x (or_introl eq_refl)), IH; [reflexivity |].
  intros y Hy. apply H. now right.
Qed.

(** X5: the affinity is symmetric: exchanging the target and the reference
    code gives the same percentage on every dataset. *)
Theorem getAffinity_symmetric (initiatives : list Initiative) (a b : string) :
  getAffinity initiatives a b = getAffinity initiatives b a.
Proof.
  rewrite !getAffinity_counts.
  rewrite (countIf_ext _ _ initiatives (comparable_sym a b)).
  rewrite (countIf_ext _ _ initiatives (agree_sym a b)).
  reflexivity.
Qed.

(** X6: the affinity is an integer between 0 and 100; it is 100 when the
    two actors agree on every initiative on which both have a vote (and
    there is one), and 0 when they agree on none. *)
Theorem getAffinity_range (initiatives : list Initiative)
        (targetCode referenceCode : string) :
  (exists k, getAffinity initiatives targetCode referenceCode = of_Z k /\
             0 <= k <= 100) /\
  ((exists init, In init initiatives /\
                 comparable targetCode referenceCode init = true) ->
   (forall init, In init initiatives ->
                 comparable targetCode referenceCode init = true ->
                 agree targetCode referenceCode init = true) ->
   getAffinity initiatives targetCode referenceCode = of_Z 100) /\
  ((forall init, In init initiatives ->
                 agree targetCode referenceCode init = false) ->
   getAffinity initiatives targetCode referenceCode = of_Z 0).
Proof.
  rewrite getAffinity_counts.
  set (n := countIf (comparable targetCode referenceCode) initiatives).
  set (m := countIf (agree targetCode referenceCode) initiatives).
  assert (Hn : 0 <= n) by apply countIf_nonneg.
  assert (Hm : 0 <= m) by apply countIf_nonneg.
  assert (Hmn : m <= n)
    by (apply countIf_le; intros x; apply agree_comparable).
  split; [| split].
  - destruct (Z.eqb_spec n 0) as [E | E].
    + exists 0. split; [reflexivity | lia].
    + exists (percentOf m n). split; [reflexivity |].
      apply percentOf_range; lia.
  - intros Hex Hall.
    assert (Hpos : 0 < n) by (apply countIf_pos; exact Hex).
    assert (Hnm : n <= m) by (apply countIf_all; exact Hall).
    destruct (Z.eqb_spec n 0) as [E | E]; [lia |].
    replace m with n by lia. now rewrite percentOf_all.
  - intros Hnone.
    assert (E : m = 0) by (apply countIf_none; exact Hnone).
    destruct (Z.eqb_spec n 0) as [| E']; [reflexivity |].
    rewrite E, percentOf_none by lia. reflexivity.
Qed.

Lemma getAffinity_range_witness :
  getAffinity [brokenDown [("GP"%string, 80)] [("GS"%string, 120)] []] "GP" "GS"
  = of_Z 0.
Proof.
  apply (getAffinity_range
           [brokenDown [("GP"%string, 80)] [("GS"%string, 120)] []] "GP" "GS").
  intros init [<- | []]. reflexivity.
Defined.

(** X7: an initiative on which one of the two actors has no vote (or that
    has no breakdown at all) never changes the affinity: the result is that
    of the comparable initiatives alone. *)
Theorem getAffinity_comparable_only (initiatives : list Initiative)
        (targetCode referenceCode : string) :
  getAffinity initiatives targetCode referenceCode =
  getAffinity (filter (comparable targetCode referenceCode) initiatives)
              targetCode referenceCode.
Proof.
  rewrite !getAffinity_counts.
  rewrite (countIf_filter (comparable targetCode referenceCode)
                          (comparable targetCode referenceCode)) by auto.
  rewrite (countIf_filter (agree targetCode referenceCode)
                          (comparable targetCode referenceCode))
    by (intros x; apply agree_comparable).
  reflexivity.
Qed.

End AffinityMore.

(** ** More on [getRankings] *)

Section RankingsMore.

Lemma StronglySorted_app {A : Type} (R : A -> A -> Prop) (l1 l2 : list A) :
  StronglySorted R (l1 ++ l2) ->
  StronglySorted R l1 /\ forall a b, In a l1 -> In b l2 -> R a b.
Proof.
  induction l1 as [| x l1 IH]; cbn [app]; intros H.
  - split; [constructor | intros a b []].
  - inversion H as [| ? ? Hs Hx]; subst. destruct (IH Hs) as [S1 C].
    rewrite Forall_forall in Hx. split.
    + constructor; [exact S1 |]. apply Forall_forall. intros y Hy.
      apply Hx. apply in_or_app. now left.
    + intros a b [<- | Ha] Hb.
      * apply Hx. apply in_or_app. now right.
      * now apply C.
Qed.

Lemma StronglySorted_weaken {A : Type} (R R' : A -> A -> Prop) (l : list A) :
  (forall a b, R a b -> R' a b) -> StronglySorted R l -> StronglySorted R' l.
Proof.
  intros H S. induction S as [| a l S IH Ha]; constructor; [exact IH |].
  eapply Forall_impl; [| exact Ha]. intros b. apply H.
Qed.

Lemma in_firstn {A : Type} (n : nat) (l : list A) (x : A) :
  In x (firstn n l) -> In x l.
Proof.
  intros H. rewrite <- (firstn_skipn n l). apply in_or_app. now left.
Qed.

Lemma top_of_sorted {A : Type} (key : A -> Z) (n : nat) (l sorted : list A) :
  stable_sorted key l sorted ->
  StronglySorted (fun a b => key a <= key b) (firstn n sorted) /\
  Permutation l (firstn n sorted ++ skipn n sorted) /\
  (forall a b, In a (firstn n sorted) -> In b (skipn n sorted) -> key a <= key b).
Proof.
  intros (P & S & _). rewrite <- (firstn_skipn n sorted) in S.
  destruct (StronglySorted_app _ _ _ S) as [S1 C].
  split; [exact S1 |]. split; [| exact C].
  now rewrite firstn_skipn.
Qed.

Lemma sorted_byConsensus (l : list Initiative) :
  stable_sorted (fun d => - indexOf d) (rankingDetails l)
                (Array_sort byConsensus (rankingDetails l)).
Proof.
  apply (Array_sort_stable_sorted byConsensus _ classified byConsensus_key).
  apply rankingDetails_classified.
Qed.

Lemma sorted_byDistance (l : list Initiative) :
  stable_sorted (fun d => Z.abs (indexOf d - 50)) (rankingDetails l)
                (Array_sort byDistance (rankingDetails l)).
Proof.
  apply (Array_sort_stable_sorted byDistance _ classified byDistance_key).
  apply rankingDetails_classified.
Qed.

(** X8: the rankings are the extremes of the dataset, by the integer index
    that each entry carries: [topConsensus] is in decreasing order of index
    and no classified initiative left out of it has a higher index than one
    in it; [topDivisive] is in increasing order of [|index - 50|] and no
    initiative left out of it is closer to 50.  Two initiatives of index 57,
    one with 57 Yes and 43 No and one with 184 Yes and 136 No, keep their
    order. *)
Theorem getRankings_extremes (initiatives : list Initiative) :
  let details := rankingDetails initiatives in
  let r := getRankings initiatives in
  Forall (fun d => index d = of_Z (indexOf d)) details /\
  StronglySorted (fun a b => indexOf b <= indexOf a) (topConsensus r) /\
  (exists rest,
      Permutation details (topConsensus r ++ rest) /\
      forall a b, In a (topConsensus r) -> In b rest -> indexOf b <= indexOf a) /\
  StronglySorted (fun a b => Z.abs (indexOf a - 50) <= Z.abs (indexOf b - 50))
                 (topDivisive r) /\
  (exists rest,
      Permutation details (topDivisive r ++ rest) /\
      forall a b, In a (topDivisive r) -> In b rest ->
                  Z.abs (indexOf a - 50) <= Z.abs (indexOf b - 50)) /\
  map (fun d => (titulo (initiative d), index d))
      (topConsensus (getRankings [voted "C" 57 43; voted "A" 184 136])) =
  [("C"%string, of_Z 57); ("A"%string, of_Z 57)].
Proof.
  cbv zeta. unfold getRankings at 1 2 3 4 5 6, rankingsOf, slice0.
  cbn [topConsensus topDivisive].
  destruct (top_of_sorted _ 5 _ _ (sorted_byConsensus initiatives)) as (S1 & P1 & C1).
  destruct (top_of_sorted _ 5 _ _ (sorted_byDistance initiatives)) as (S2 & P2 & C2).
  split; [| split; [| split; [| split; [| split]]]].
  - eapply Forall_impl; [| apply rankingDetails_classified]. exact classified_index.
  - eapply StronglySorted_weaken; [| exact S1]. cbv beta. intros a b Hab. lia.
  - eexists. split; [exact P1 |]. intros a b Ha Hb. specialize (C1 a b Ha Hb).
    cbv beta in C1. lia.
  - exact S2.
  - eexists. split; [exact P2 | exact C2].
  - vm_compute. reflexivity.
Qed.

(** X9: a ranking never invents an entry: every entry of either list is an
    initiative of the input whose [voting.exists] is true, together with the
    metric that [calculateConsensus] gives it. *)
Theorem getRankings_provenance (initiatives : list Initiative) (d : Detail) :
  In d (topConsensus (getRankings initiatives)) \/
  In d (topDivisive (getRankings initiatives)) ->
  In (initiative d) initiatives /\
  voting_exists (initiative d) = true /\
  metric d = calculateConsensus (initiative d).
Proof.
  unfold getRankings, rankingsOf, slice0. cbn [topConsensus topDivisive].
  intros H.
  assert (Hd : In d (rankingDetails initiatives)).
  { destruct H as [H | H]; apply in_firstn in H;
      (eapply Permutation_in; [symmetry; apply Array_sort_perm | exact H]). }
  unfold rankingDetails in Hd. apply in_map_iff in Hd.
  destruct Hd as (i & <- & Hi). apply filter_In in Hi. cbn. tauto.
Qed.

Lemma getRankings_provenance_witness :
  exists d, In d (topConsensus (getRankings sixVotes)) /\
            voting_exists (initiative d) = true.
Proof.
  exists {| initiative := voted "f" 10 0; metric := calculateConsensus (voted "f" 10 0) |}.
  assert (H : In {| initiative := voted "f" 10 0;
                    metric := calculateConsensus (voted "f" 10 0) |}
                 (topConsensus (getRankings sixVotes))) by (vm_compute; now left).
  split; [exact H |].
  apply (getRankings_provenance sixVotes _ (or_introl H)).
Defined.

(** X10: with at most 5 initiatives that have a vote nothing is dropped:
    both lists hold every one of them, once for each occurrence in the
    input. *)
Theorem getRankings_small (initiatives : list Initiative) :
  (List.length (filter voting_exists initiatives) <= 5)%nat ->
  Permutation (rankingDetails initiatives) (topConsensus (getRankings initiatives)) /\
  Permutation (rankingDetails initiatives) (topDivisive (getRankings initiatives)).
Proof.
  intros H.
  assert (Hlen : List.length (rankingDetails initiatives) =
                 List.length (filter voting_exists initiatives))
    by (unfold rankingDetails; apply length_map).
  unfold getRankings, rankingsOf, slice0. cbn [topConsensus topDivisive].
  rewrite !firstn_all2 by (rewrite Array_sort_length; lia).
  split; apply Array_sort_perm.
Qed.

Lemma getRankings_small_witness :
  Permutation (rankingDetails [voted "a" 9 1; filed "Aprobado" "GP"; voted "b" 1 1])
              (topConsensus (getRankings
                               [voted "a" 9 1; filed "Aprobado" "GP"; voted "b" 1 1])).
Proof.
  apply (getRankings_small [voted "a" 9 1; filed "Aprobado" "GP"; voted "b" 1 1]).
  vm_compute. lia.
Defined.

End RankingsMore.

(** ** More on [calculateDashboardStats] *)

Section DashboardMore.

Lemma toLowerCase_app (s t : string) :
  toLowerCase (s ++ t) = (toLowerCase s ++ toLowerCase t)%string.
Proof.
  induction s as [| c s IH]; cbn [append toLowerCase]; [reflexivity |].
  now rewrite IH.
Qed.

Lemma toLowerCase_split (a x y : string) :
  toLowerCase a = (x ++ y)%string ->
  exists a1 a2, a = (a1 ++ a2)%string /\ toLowerCase a1 = x /\ toLowerCase a2 = y.
Proof.
  revert a. induction x as [| c x IH]; intros a H.
  - exists ""%string, a. now repeat split.
  - destruct a as [| c' a]; [discriminate H |].
    cbn [toLowerCase append] in H. injection H as Hc Ha.
    destruct (IH a Ha) as (a1 & a2 & -> & H1 & H2).
    exists (String c' a1), a2. cbn [toLowerCase append]. now rewrite Hc, H1.
Qed.

Lemma isGovernment_spec (init : Initiative) :
  isGovernment init = true <-> namesGovernment init.
Proof.
  unfold isGovernment, namesGovernment. rewrite includes_spec. unfold contains.
  split.
  - intros (pre & post & H).
    apply toLowerCase_split in H. destruct H as (a1 & a23 & Ha & H1 & H23).
    apply toLowerCase_split in H23. destruct H23 as (a2 & a3 & -> & H2 & H3).
    now exists a1, a2, a3.
  - intros (pre & w & post & Ha & Hw).
    exists (toLowerCase pre), (toLowerCase post).
    now rewrite Ha, !toLowerCase_app, Hw.
Qed.

Lemma dashboardStep_buckets (acc : DashAcc) (i : Initiative) :
  let acc' := dashboardStep acc i in
  total (govStats acc') =
  total (govStats acc) + one (isFinalized i && isGovernment i) /\
  success (govStats acc') =
  success (govStats acc) + one (outcome_is o_success i && isGovernment i) /\
  total (groupStats acc') =
  total (groupStats acc) + one (isFinalized i && negb (isGovernment i)) /\
  success (groupStats acc') =
  success (groupStats acc) + one (outcome_is o_success i && negb (isGovernment i)).
Proof.
  cbv zeta.
  unfold dashboardStep, isFinalized, outcome_is, outcomeOf, statusOf,
    isGovernment, authorOf, one.
  set (st := or_str (resultado_tram i) "").
  set (au := or_str (autor i) "").
  destruct (includes st "Aprobado" || includes st "Convalidado");
    [| destruct (includes st "Rechazado" || includes st "Derogado");
       [| destruct (includes st "Retirado" || includes st "Decaído")]];
    cbn [andb]; destruct (includes (toLowerCase au) "gobierno");
    cbn; repeat split; lia.
Qed.

Lemma countIf_step {A : Type} (p : A -> bool) (x : A) (l : list A) :
  countIf p (x :: l) = one (p x) + countIf p l.
Proof. apply countIf_cons. Qed.

Lemma countIf_perm {A : Type} (p : A -> bool) (l l' : list A) :
  Permutation l l' -> countIf p l = countIf p l'.
Proof.
  intros H. induction H as [| x l l' _ IH | x y l | l l' l'' _ IH1 _ IH2].
  - reflexivity.
  - rewrite !countIf_step. lia.
  - rewrite !countIf_step. lia.
  - congruence.
Qed.

Lemma countIf_app {A : Type} (p : A -> bool) (l l' : list A) :
  countIf p (l ++ l') = countIf p l + countIf p l'.
Proof.
  induction l as [| x l IH]; cbn [app]; [reflexivity |].
  rewrite !countIf_step. lia.
Qed.

Lemma dashboardFold_buckets (l : list Initiative) (acc : DashAcc) :
  let acc' := fold_left dashboardStep l acc in
  total (govStats acc') =
  total (govStats acc) + countIf (fun i => isFinalized i && isGovernment i) l /\
  success (govStats acc') =
  success (govStats acc)
  + countIf (fun i => outcome_is o_success i && isGovernment i) l /\
  total (groupStats acc') =
  total (groupStats acc)
  + countIf (fun i => isFinalized i && negb (isGovernment i)) l /\
  success (groupStats acc') =
  success (groupStats acc)
  + countIf (fun i => outcome_is o_success i && negb (isGovernment i)) l.
Proof.
  cbv zeta. revert acc. induction l as [| i l IH]; intros acc; cbn [fold_left].
  - unfold countIf. cbn [filter List.length Z.of_nat]. lia.
  - specialize (IH (dashboardStep acc i)).
    pose proof (dashboardStep_buckets acc i) as S. cbv beta zeta in S.
    rewrite !countIf_step. lia.
Qed.

Lemma dashboardLoop_buckets (l : list Initiative) :
  total (govStats (dashboardLoop l)) =
  countIf (fun i => isFinalized i && isGovernment i) l /\
  success (govStats (dashboardLoop l)) =
  countIf (fun i => outcome_is o_success i && isGovernment i) l /\
  total (groupStats (dashboardLoop l)) =
  countIf (fun i => isFinalized i && negb (isGovernment i)) l /\
  success (groupStats (dashboardLoop l)) =
  countIf (fun i => outcome_is o_success i && negb (isGovernment i)) l.
Proof.
  pose proof (dashboardFold_buckets l
    {| finalizedCount := 0; successCount := 0; failureCount := 0;
       neutralCount := 0;
       govStats := {| total := 0; success := 0 |};
       groupStats := {| total := 0; success := 0 |} |}) as H.
  cbv zeta in H. cbn [govStats groupStats total success] in H.
  unfold dashboardLoop. lia.
Qed.

Lemma countIf_split {A : Type} (p q : A -> bool) (l : list A) :
  countIf (fun x => p x && q x) l + countIf (fun x => p x && negb (q x)) l
  = countIf p l.
Proof.
  induction l as [| x l IH]; [reflexivity |].
  rewrite !countIf_step. destruct (p x), (q x); cbn [andb negb one]; lia.
Qed.

Lemma success_finalized (i : Initiative) :
  outcome_is o_success i = true -> isFinalized i = true.
Proof.
  unfold outcome_is, isFinalized. destruct (outcomeOf i) as [[| |] |];
    try discriminate; reflexivity.
Qed.

Lemma countFinalized (l : list Initiative) :
  countIf isFinalized l =
  countOutcome o_success l + countOutcome o_failure l + countOutcome o_neutral l.
Proof.
  induction l as [| i l IH]; [reflexivity |].
  rewrite countIf_step, !countOutcome_cons, IH.
  unfold isFinalized, outcome_is. destruct (outcomeOf i) as [[| |] |]; cbn [one]; lia.
Qed.

(** The accumulator after the loop, field by field. *)
Lemma dashboardLoop_fields (l : list Initiative) :
  dashboardLoop l =
  {| finalizedCount := countIf isFinalized l;
     successCount := countOutcome o_success l;
     failureCount := countOutcome o_failure l;
     neutralCount := countOutcome o_neutral l;
     govStats :=
       {| total := countIf (fun i => isFinalized i && isGovernment i) l;
          success := countIf (fun i => outcome_is o_success i && isGovernment i) l |};
     groupStats :=
       {| total := countIf (fun i => isFinalized i && negb (isGovernment i)) l;
          success :=
            countIf (fun i => outcome_is o_success i && negb (isGovernment i)) l |} |}.
Proof.
  destruct (dashboardLoop_counts l) as (Hs & Hf & Hn & Hfin).
  destruct (dashboardLoop_buckets l) as (G1 & G2 & R1 & R2).
  rewrite countFinalized.
  destruct (dashboardLoop l) as [f s fa n [gt gs] [rt rs]].
  cbn [finalizedCount successCount failureCount neutralCount govStats groupStats
       total success] in *.
  now subst.
Qed.

(** X11: every finalized initiative is counted in exactly one author
    bucket, [gobierno] or [groups]: the two totals add up to the number of
    finalized initiatives (the sum of [breakdown]), the two success counts to
    [breakdown.success], and in each bucket [0 <= success <= total]. *)
Theorem dashboard_author_split (initiatives : list Initiative) :
  let stats := calculateDashboardStats initiatives in
  let gov := gobierno (authorEfficiency stats) in
  let grp := groups (authorEfficiency stats) in
  ef_total gov = countIf (fun i => isFinalized i && isGovernment i) initiatives /\
  ef_total grp =
  countIf (fun i => isFinalized i && negb (isGovernment i)) initiatives /\
  ef_total gov + ef_total grp =
  bd_success (breakdown stats) + bd_failure (breakdown stats)
  + bd_neutral (breakdown stats) /\
  ef_success gov + ef_success grp = bd_success (breakdown stats) /\
  0 <= ef_success gov <= ef_total gov /\
  0 <= ef_success grp <= ef_total grp.
Proof.
  cbv zeta. unfold calculateDashboardStats.
  cbn [authorEfficiency gobierno groups ef_total ef_success breakdown
       bd_success bd_failure bd_neutral].
  rewrite (dashboardLoop_fields initiatives).
  cbn [finalizedCount successCount failureCount neutralCount govStats groupStats
       total success].
  pose proof (countIf_split isFinalized isGovernment initiatives) as Ht.
  pose proof (countIf_split (outcome_is o_success) isGovernment initiatives) as Hs.
  pose proof (countFinalized initiatives) as Hf.
  split; [reflexivity |]. split; [reflexivity |].
  split; [lia |]. split; [exact Hs |].
  split; (split; [apply countIf_nonneg |]); apply countIf_le; intros i;
    rewrite !andb_true_iff; intros [H1 H2]; (split; [| exact H2]);
    now apply success_finalized.
Qed.

(** X12: the three rates of the report are integers between 0 and 100. *)
Theorem dashboard_rates_range (initiatives : list Initiative) :
  let stats := calculateDashboardStats initiatives in
  (exists k, globalSuccessRate stats = of_Z k /\ 0 <= k <= 100) /\
  (exists k, rate (gobierno (authorEfficiency stats)) = of_Z k /\ 0 <= k <= 100) /\
  (exists k, rate (groups (authorEfficiency stats)) = of_Z k /\ 0 <= k <= 100).
Proof.
  cbv zeta. unfold calculateDashboardStats.
  cbn [globalSuccessRate authorEfficiency gobierno groups rate].
  rewrite (dashboardLoop_fields initiatives).
  cbn [finalizedCount successCount govStats groupStats total success].
  assert (R : forall n d, 0 <= n <= d ->
                          exists k, rateOf n d = of_Z k /\ 0 <= k <= 100).
  { intros n d H. rewrite rateOf_int. eexists. split; [reflexivity |].
    destruct (Z.ltb_spec 0 d); [apply percentOf_range; lia | lia]. }
  assert (Hle : forall q : Initiative -> bool,
             0 <= countIf (fun i => outcome_is o_success i && q i) initiatives
             <= countIf (fun i => isFinalized i && q i) initiatives).
  { intros q. split; [apply countIf_nonneg |]. apply countIf_le. intros i.
    rewrite !andb_true_iff. intros [H1 H2]. split; [| exact H2].
    now apply success_finalized. }
  split; [| split].
  - apply R. split; [apply countOutcome_nonneg |].
    change (countOutcome o_success initiatives)
      with (countIf (outcome_is o_success) initiatives).
    apply countIf_le. exact success_finalized.
  - apply R. apply (Hle isGovernment).
  - apply R. apply (Hle (fun i => negb (isGovernment i))).
Qed.

(** X13: the report does not depend on the order of the dataset. *)
Theorem dashboard_order_independent (l l' : list Initiative) :
  Permutation l l' -> calculateDashboardStats l = calculateDashboardStats l'.
Proof.
  intros H. unfold calculateDashboardStats.
  rewrite (dashboardLoop_fields l), (dashboardLoop_fields l').
  unfold countOutcome. fold (countIf (outcome_is o_success) l).
  change (Z.of_nat (List.length (filter (outcome_is o_success) l)))
    with (countIf (outcome_is o_success) l).
  change (Z.of_nat (List.length (filter (outcome_is o_failure) l)))
    with (countIf (outcome_is o_failure) l).
  change (Z.of_nat (List.length (filter (outcome_is o_neutral) l)))
    with (countIf (outcome_is o_neutral) l).
  change (Z.of_nat (List.length (filter (outcome_is o_success) l')))
    with (countIf (outcome_is o_success) l').
  change (Z.of_nat (List.length (filter (outcome_is o_failure) l')))
    with (countIf (outcome_is o_failure) l').
  change (Z.of_nat (List.length (filter (outcome_is o_neutral) l')))
    with (countIf (outcome_is o_neutral) l').
  now rewrite !(countIf_perm _ l l' H).
Qed.

Lemma dashboard_order_independent_witness :
  calculateDashboardStats [filed "Aprobado" "Gobierno"; filed "Rechazado" "GP"] =
  calculateDashboardStats [filed "Rechazado" "GP"; filed "Aprobado" "Gobierno"].
Proof.
  apply dashboard_order_independent. apply perm_swap.
Defined.

(** X14: a finalized initiative goes to the [gobierno] bucket exactly when
    its author contains the word "gobierno" in any mix of upper and lower
    case, and to [groups] otherwise; the other bucket is left as it was. *)
Theorem dashboard_routes_by_author (acc : DashAcc) (init : Initiative) :
  isFinalized init = true ->
  (namesGovernment init ->
   govStats (dashboardStep acc init) =
   bump (outcome_is o_success init) (govStats acc) /\
   groupStats (dashboardStep acc init) = groupStats acc) /\
  (~ namesGovernment init ->
   groupStats (dashboardStep acc init) =
   bump (outcome_is o_success init) (groupStats acc) /\
   govStats (dashboardStep acc init) = govStats acc).
Proof.
  intros Hf. rewrite <- !isGovernment_spec.
  unfold isFinalized, outcome_is, outcomeOf, statusOf in Hf |- *.
  unfold dashboardStep, isGovernment, authorOf.
  set (st := or_str (resultado_tram init) "") in *.
  set (au := or_str (autor init) "").
  destruct (includes st "Aprobado" || includes st "Convalidado");
    [| destruct (includes st "Rechazado" || includes st "Derogado");
       [| destruct (includes st "Retirado" || includes st "Decaído");
          [| discriminate Hf]]];
    destruct (includes (toLowerCase au) "gobierno"); cbn;
    (split; [intros H | intros H]); try (split; reflexivity);
    try discriminate H; try (exfalso; apply H; reflexivity).
Qed.

Lemma dashboard_routes_by_author_witness :
  total (govStats (dashboardStep (dashboardLoop [])
                                 (filed "Aprobado" "GOBIERNO de España"))) = 1.
Proof.
  destruct (dashboard_routes_by_author (dashboardLoop [])
              (filed "Aprobado" "GOBIERNO de España") eq_refl) as [H _].
  destruct H as [-> _]; [| reflexivity].
  exists ""%string, "GOBIERNO"%string, " de España"%string. split; reflexivity.
Defined.

End DashboardMore.

(** ** More on [calculateParticipationStats]: totals and critical absences *)

Section ParticipationMore.

Lemma participationFold_critical (l : list Initiative) (acc : PartAcc) :
  acc_criticalAbsences (fold_left participationStep l acc) =
  acc_criticalAbsences acc ++ flat_map criticalOf l.
Proof.
  revert acc. induction l as [| i l IH]; intros acc; cbn [fold_left flat_map].
  - now rewrite app_nil_r.
  - rewrite IH. unfold participationStep, accumulate, criticalOf.
    destruct (breakdownOf i) as [[t d] |]; cbn [acc_criticalAbsences].
    + now rewrite app_assoc.
    + reflexivity.
Qed.

Lemma criticalAbsenceOf_spec (init : Initiative) (t : Totales) (c : CriticalAbsence) :
  In c (criticalAbsenceOf init t) <->
  0 < or_num (noVotan t) 0 /\
  Z.abs (or_num (afavor t) 0 - or_num (enContra t) 0) <= or_num (noVotan t) 0 /\
  c = {| ca_initiative := init;
         margin := Z.abs (or_num (afavor t) 0 - or_num (enContra t) 0);
         missing := or_num (noVotan t) 0 |}.
Proof.
  unfold criticalAbsenceOf. cbv zeta.
  destruct (Z.ltb_spec 0 (or_num (noVotan t) 0)) as [Hm | Hm].
  - destruct (Z.leb_spec (Z.abs (or_num (afavor t) 0 - or_num (enContra t) 0))
                         (or_num (noVotan t) 0)) as [Hg | Hg]; cbn [In].
    + split; [intros [<- | []]; now repeat split | intros (_ & _ & ->); now left].
    + split; [intros [] | intros (_ & H & _); lia].
  - cbn [In]. split; [intros [] | intros (H & _); lia].
Qed.

(** X15: [criticalAbsences] holds the first 3, in dataset order, of the
    initiatives that are not skipped, have [noVotan > 0] and a margin
    [|afavor - enContra|] that [noVotan] reaches; so every entry has
    [0 <= margin <= missing] and [missing > 0]. *)
Theorem criticalAbsences_found (initiatives : list Initiative) :
  let found := criticalAbsences (calculateParticipationStats initiatives) in
  found = firstn 3 (flat_map criticalOf initiatives) /\
  (List.length found <= 3)%nat /\
  (forall c,
      In c (flat_map criticalOf initiatives) <->
      exists init t d,
        In init initiatives /\ breakdownOf init = Some (t, d) /\
        0 < or_num (noVotan t) 0 /\
        Z.abs (or_num (afavor t) 0 - or_num (enContra t) 0) <= or_num (noVotan t) 0 /\
        c = {| ca_initiative := init;
               margin := Z.abs (or_num (afavor t) 0 - or_num (enContra t) 0);
               missing := or_num (noVotan t) 0 |}) /\
  (forall c, In c found -> 0 < missing c /\ 0 <= margin c <= missing c).
Proof.
  cbv zeta.
  assert (Hall : criticalAbsences (calculateParticipationStats initiatives) =
                 firstn 3 (flat_map criticalOf initiatives)).
  { unfold calculateParticipationStats, participationReport, slice0.
    cbn [criticalAbsences]. unfold participationLoop.
    now rewrite participationFold_critical. }
  assert (Hchar : forall c,
      In c (flat_map criticalOf initiatives) <->
      exists init t d,
        In init initiatives /\ breakdownOf init = Some (t, d) /\
        0 < or_num (noVotan t) 0 /\
        Z.abs (or_num (afavor t) 0 - or_num (enContra t) 0) <= or_num (noVotan t) 0 /\
        c = {| ca_initiative := init;
               margin := Z.abs (or_num (afavor t) 0 - or_num (enContra t) 0);
               missing := or_num (noVotan t) 0 |}).
  { intros c. rewrite in_flat_map. split.
    - intros (init & Hin & Hc). unfold criticalOf in Hc.
      destruct (breakdownOf init) as [[t d] |] eqn:E; [| contradiction].
      apply criticalAbsenceOf_spec in Hc. exists init, t, d. tauto.
    - intros (init & t & d & Hin & E & H). exists init. split; [exact Hin |].
      unfold criticalOf. rewrite E. apply criticalAbsenceOf_spec. exact H. }
  split; [exact Hall |]. split; [rewrite Hall, length_firstn; lia |].
  split; [exact Hchar |].
  intros c Hc. rewrite Hall in Hc. apply in_firstn in Hc. apply Hchar in Hc.
  destruct Hc as (init & t & d & _ & _ & Hm & Hg & ->). cbn [missing margin]. lia.
Qed.

Lemma participationLoop_filter (l : list Initiative) (acc : PartAcc) :
  fold_left participationStep (filter hasBreakdown l) acc =
  fold_left participationStep l acc.
Proof.
  revert acc. induction l as [| i l IH]; intros acc; [reflexivity |].
  cbn [filter fold_left]. unfold hasBreakdown at 1.
  destruct (breakdownOf i) as [p |] eqn:E.
  - cbn [fold_left]. apply IH.
  - rewrite IH. unfold participationStep at 3. now rewrite E.
Qed.

(** X16: an initiative that the first loop skips still counts 350 possible
    votes.  The report is the one of the initiatives that are not skipped,
    except that [totalPossibleVotes] and [totalNoVotes] grow by 350 for each
    skipped initiative (and the rate and the deputy ranking see the whole
    dataset). *)
Theorem participation_skipped_seats (initiatives : list Initiative) :
  let kept := filter hasBreakdown initiatives in
  let skipped := Z.of_nat (List.length initiatives) - Z.of_nat (List.length kept) in
  let all := calculateParticipationStats initiatives in
  let some := calculateParticipationStats kept in
  totalVoted all = totalVoted some /\
  totalAbstentions all = totalAbstentions some /\
  absenteeismRanking all = absenteeismRanking some /\
  criticalAbsences all = criticalAbsences some /\
  brokenBlocks all = brokenBlocks some /\
  totalPossibleVotes all = totalPossibleVotes some + 350 * skipped /\
  totalNoVotes all = totalNoVotes some + 350 * skipped /\
  0 <= skipped.
Proof.
  cbv zeta. unfold calculateParticipationStats, participationReport, participationLoop.
  rewrite participationLoop_filter.
  cbn [totalVoted totalAbstentions absenteeismRanking criticalAbsences brokenBlocks
       totalPossibleVotes totalNoVotes].
  pose proof (filter_length_le hasBreakdown initiatives).
  repeat split; try reflexivity; lia.
Qed.

Lemma sumOf_cons {A : Type} (f : A -> Z) (x : A) (l : list A) :
  sumOf f (x :: l) = f x + sumOf f l.
Proof. reflexivity. Qed.

Lemma sumOf_bounds {A : Type} (f g : A -> Z) (hi : Z) (l : list A) :
  (forall x, In x l -> 0 <= g x <= f x /\ f x <= hi) ->
  0 <= sumOf g l <= sumOf f l /\ sumOf f l <= Z.of_nat (List.length l) * hi.
Proof.
  induction l as [| x l IH]; intros H.
  - cbn. lia.
  - rewrite !sumOf_cons. cbn [List.length].
    destruct (H x (or_introl eq_refl)) as [Hg Hf].
    destruct IH as [IH1 IH2]; [intros y Hy; apply H; now right |]. lia.
Qed.

(** X17: when in every initiative the counts of [totales] are not negative
    and add up to at most 350, the totals are consistent:
    [0 <= totalAbstentions <= totalVoted <= totalPossibleVotes],
    [totalNoVotes >= 0], and [globalCommitment] is an integer between 0 and
    100. *)
Theorem participation_totals_bounded (initiatives : list Initiative) :
  (forall init, In init initiatives -> plausibleTotals 350 init) ->
  let stats := calculateParticipationStats initiatives in
  0 <= totalAbstentions stats <= totalVoted stats /\
  totalVoted stats <= totalPossibleVotes stats /\
  0 <= totalNoVotes stats /\
  exists k, globalCommitment stats = of_Z k /\ 0 <= k <= 100.
Proof.
  intros H. cbv zeta.
  unfold calculateParticipationStats, participationReport, participationLoop.
  cbn [totalVoted totalAbstentions totalPossibleVotes totalNoVotes globalCommitment].
  destruct (participationFold_totals initiatives
              {| acc_totalPresent := 0; acc_totalVoted := 0;
                 acc_totalAbstentions := 0; acc_noVotesByParty := [];
                 acc_criticalAbsences := []; acc_brokenBlocks := [] |}) as [-> ->].
  cbn [acc_totalVoted acc_totalAbstentions]. rewrite !Z.add_0_l.
  destruct (sumOf_bounds castBy abstainedBy 350 initiatives) as [[B0 B1] B2].
  { intros i Hi. specialize (H i Hi). unfold plausibleTotals in H.
    unfold castBy, abstainedBy.
    destruct (breakdownOf i) as [[t d] |]; [| lia].
    specialize (H t d eq_refl). unfold votesCastOf in *. lia. }
  split; [lia |]. split; [lia |]. split; [lia |].
  rewrite rateOf_int. eexists. split; [reflexivity |].
  destruct (Z.ltb_spec 0 (Z.of_nat (List.length initiatives) * 350));
    [apply percentOf_range; lia | lia].
Qed.

Lemma participation_totals_bounded_witness :
  0 <= totalNoVotes
         (calculateParticipationStats
            [withResult (Some (tally 170 160 20 350 0)) (Some emptyDesglose)]).
Proof.
  apply (participation_totals_bounded
           [withResult (Some (tally 170 160 20 350 0)) (Some emptyDesglose)]).
  intros init [<- | []] totals d [= <- <-].
  repeat split; vm_compute; discriminate.
Defined.

End ParticipationMore.

(** ** More on [calculateParticipationStats]: absences by party *)

Section Absenteeism.

Lemma or_num_zero (o : option Z) : or_num o 0 = match o with Some v => v | None => 0 end.
Proof.
  unfold or_num. destruct o as [v |]; [| reflexivity].
  now destruct (Z.eqb_spec v 0).
Qed.

Lemma addNoVotes_cons (k : string) (n : Z) (entries : Rec) (m : Rec) :
  addNoVotes (Some ((k, n) :: entries)) m =
  addNoVotes (Some entries) (update k (fun old => or_num old 0 + n) m).
Proof. reflexivity. Qed.

Lemma addNoVotes_get (party : string) (source : option Rec) (m : Rec) :
  get party (addNoVotes source m) =
  if mentionedIn party source
  then Some (or_num (get party m) 0 + sumFor party source)
  else get party m.
Proof.
  destruct source as [entries |]; [| reflexivity].
  revert m. induction entries as [| [k n] entries IH]; intros m; [reflexivity |].
  rewrite addNoVotes_cons, IH, get_update, mentionedIn_cons, sumFor_cons.
  destruct (String.eqb_spec party k) as [-> | Hne]; cbn [orb]; [| reflexivity].
  destruct (mentionedIn k (Some entries)) eqn:M.
  - rewrite (or_num_zero (Some _)). f_equal; lia.
  - rewrite (sumFor_unmentioned _ _ M). f_equal; lia.
Qed.

Lemma addNoVotes_NoDup (source : option Rec) (m : Rec) :
  NoDup (map fst m) -> NoDup (map fst (addNoVotes source m)).
Proof.
  destruct source as [entries |]; [| trivial].
  revert m. induction entries as [| [k n] entries IH]; intros m H; [exact H |].
  rewrite addNoVotes_cons. apply IH. now apply update_NoDup.
Qed.

Lemma absent_none (party : string) (l : list Initiative) :
  existsb (absentIn party) l = false -> sumOf (absentOf party) l = 0.
Proof.
  induction l as [| i l IH]; [reflexivity |].
  cbn [existsb]. rewrite orb_false_iff. intros [Hi Hl].
  rewrite sumOf_cons, (IH Hl). unfold absentIn in Hi. unfold absentOf.
  destruct (breakdownOf i) as [[t d] |]; [| reflexivity].
  now rewrite (sumFor_unmentioned _ _ Hi).
Qed.

Lemma participationStep_party (party : string) (acc : PartAcc) (i : Initiative) :
  get party (acc_noVotesByParty (participationStep acc i)) =
  if absentIn party i
  then Some (or_num (get party (acc_noVotesByParty acc)) 0 + absentOf party i)
  else get party (acc_noVotesByParty acc).
Proof.
  unfold participationStep, accumulate, absentIn, absentOf.
  destruct (breakdownOf i) as [[t d] |]; [| reflexivity].
  cbn [acc_noVotesByParty]. apply addNoVotes_get.
Qed.

Lemma participationFold_party (party : string) (l : list Initiative) (acc : PartAcc) :
  get party (acc_noVotesByParty (fold_left participationStep l acc)) =
  if existsb (absentIn party) l
  then Some (or_num (get party (acc_noVotesByParty acc)) 0 + sumOf (absentOf party) l)
  else get party (acc_noVotesByParty acc).
Proof.
  revert acc. induction l as [| i l IH]; intros acc; [reflexivity |].
  cbn [fold_left existsb]. rewrite IH, participationStep_party, sumOf_cons.
  destruct (absentIn party i) eqn:Hi; cbn [orb].
  - destruct (existsb (absentIn party) l) eqn:Hl.
    + rewrite (or_num_zero (Some _)). f_equal; lia.
    + rewrite (absent_none _ _ Hl). f_equal; lia.
  - destruct (existsb (absentIn party) l) eqn:Hl; [| reflexivity].
    unfold absentIn in Hi. unfold absentOf at 2.
    destruct (breakdownOf i) as [[t d] |]; [| f_equal; lia].
    rewrite (sumFor_unmentioned _ _ Hi). f_equal; lia.
Qed.

Lemma participationFold_NoDup (l : list Initiative) (acc : PartAcc) :
  NoDup (map fst (acc_noVotesByParty acc)) ->
  NoDup (map fst (acc_noVotesByParty (fold_left participationStep l acc))).
Proof.
  revert acc. induction l as [| i l IH]; intros acc H; [exact H |].
  cbn [fold_left]. apply IH. unfold participationStep, accumulate.
  destruct (breakdownOf i) as [[t d] |]; [| exact H].
  cbn [acc_noVotesByParty]. now apply addNoVotes_NoDup.
Qed.

(** The entries of [noVotesByParty] after the loop. *)
Lemma noVotesByParty_entries (l : list Initiative) (party : string) (n : Z) :
  In (party, n) (acc_noVotesByParty (participationLoop l)) <->
  existsb (absentIn party) l = true /\ n = sumOf (absentOf party) l.
Proof.
  unfold participationLoop.
  rewrite get_In by (apply participationFold_NoDup; constructor).
  rewrite participationFold_party. cbn [acc_noVotesByParty get or_num].
  destruct (existsb (absentIn party) l); split.
  - intros [= <-]. split; [reflexivity | lia].
  - intros [_ ->]. f_equal; lia.
  - discriminate.
  - intros [H _]. discriminate H.
Qed.

Lemma byCount_key (a b : PartyCount) :
  True -> True ->
  gtb (sub (of_Z (pc_count b)) (of_Z (pc_count a))) (of_Z 0) =
  (- pc_count b <? - pc_count a).
Proof.
  intros _ _. rewrite sub_of_Z, gtb_of_Z.
  destruct (Z.ltb_spec 0 (pc_count b - pc_count a)),
           (Z.ltb_spec (- pc_count b) (- pc_count a)); auto; lia.
Qed.

Lemma NoDup_firstn {A : Type} (n : nat) (l : list A) :
  NoDup l -> NoDup (firstn n l).
Proof.
  intros H. rewrite <- (firstn_skipn n l) in H. now apply NoDup_app_remove_r in H.
Qed.

(** X18: [absenteeismRanking] lists at most 5 parties, no party twice, in
    decreasing order of count; the count of a party is the sum of its
    [no_vote] entries over the initiatives that are not skipped; and a party
    with such an entry that is left out has no more no-votes than any party
    listed. *)
Theorem absenteeismRanking_top5 (initiatives : list Initiative) :
  let ranking := absenteeismRanking (calculateParticipationStats initiatives) in
  (List.length ranking <= 5)%nat /\
  NoDup (map pc_party ranking) /\
  StronglySorted (fun a b => pc_count b <= pc_count a) ranking /\
  (forall e, In e ranking ->
             existsb (absentIn (pc_party e)) initiatives = true /\
             pc_count e = sumOf (absentOf (pc_party e)) initiatives) /\
  (forall party e,
      existsb (absentIn party) initiatives = true ->
      ~ In party (map pc_party ranking) -> In e ranking ->
      sumOf (absentOf party) initiatives <= pc_count e).
Proof.
  cbv zeta. unfold calculateParticipationStats, participationReport, slice0.
  cbn [absenteeismRanking].
  set (entries := Object_entries (acc_noVotesByParty (participationLoop initiatives))).
  set (mk := fun '(party, count) => {| pc_party := party; pc_count := count |}).
  set (cmp := fun a b : PartyCount => sub (of_Z (pc_count b)) (of_Z (pc_count a))).
  pose proof (Array_sort_stable_sorted cmp (fun e => - pc_count e) (fun _ => True)
                byCount_key (map mk entries)
                (proj2 (Forall_forall _ _) (fun _ _ => I))) as Hss.
  destruct (top_of_sorted _ 5 _ _ Hss) as (S1 & P1 & C1).
  assert (Hparty : map pc_party (map mk entries) = map fst entries).
  { rewrite map_map. apply map_ext. now intros [p c]. }
  assert (Hnd : NoDup (map pc_party (Array_sort cmp (map mk entries)))).
  { eapply Permutation_NoDup;
      [apply Permutation_map, Array_sort_perm |].
    rewrite Hparty. unfold entries, participationLoop.
    apply Object_entries_NoDup, participationFold_NoDup. constructor. }
  assert (Hin : forall e, In e (map mk entries) <->
                          existsb (absentIn (pc_party e)) initiatives = true /\
                          pc_count e = sumOf (absentOf (pc_party e)) initiatives).
  { intros [p c]. cbn [pc_party pc_count].
    rewrite <- noVotesByParty_entries, <- Object_entries_In. fold entries.
    rewrite in_map_iff. split.
    - intros ([p' c'] & [= <- <-] & H). exact H.
    - intros H. now exists (p, c). }
  split; [rewrite length_firstn; lia |].
  split; [rewrite <- firstn_map; now apply NoDup_firstn |].
  split; [eapply StronglySorted_weaken; [| exact S1]; cbv beta; intros; lia |].
  split.
  - intros e He. apply Hin. apply in_firstn in He.
    eapply Permutation_in; [symmetry; apply Array_sort_perm | exact He].
  - intros party e Hp Hout He.
    set (x := {| pc_party := party;
                 pc_count := sumOf (absentOf party) initiatives |}).
    assert (Hx : In x (map mk entries)) by (apply Hin; now split).
    apply (Permutation_in _ P1) in Hx. apply in_app_or in Hx.
    destruct Hx as [Hx | Hx].
    + exfalso. apply Hout. apply in_map_iff. now exists x.
    + specialize (C1 e x He Hx). cbv beta in C1. cbn [pc_count x] in C1. lia.
Qed.

End Absenteeism.

(** ** More on [calculateParticipationStats]: absences by deputy *)

Section Deputies.

Lemma deputyStep_get (k : string) (m : list (string * DeputyCount)) (d : Deputy) :
  get k (deputyStep m d) =
  if String.eqb k (deputyKey d)
  then match get k m with
       | Some e => Some {| name := name e; dc_party := dc_party e;
                           count := count e + 1 |}
       | None =>
         Some {| name := apellidosNombre d;
                 dc_party :=
                   if match grupo d with
                      | Some g => includes (toLowerCase g) "mixto"
                      | None => false
                      end
                   then Some "Grupo Mixto"%string
                   else or_else (formacion d) (grupo d);
                 count := 1 |}
       end
  else get k m.
Proof.
  unfold deputyStep. cbv zeta. fold (deputyKey d). rewrite get_update.
  destruct (String.eqb_spec k (deputyKey d)) as [-> | _]; [| reflexivity].
  destruct (get (deputyKey d) m); reflexivity.
Qed.

(** X19: the first record of a deputy fixes the entry: its name is
    [apellidosNombre], its party "Grupo Mixto" when [grupo] contains "mixto"
    in any case, and [formacion || grupo] otherwise, its count 1.  A later
    record of the same key adds 1 to the count and changes nothing else; the
    entries of the other deputies stay as they are. *)
Theorem deputyStep_entry (m : list (string * DeputyCount)) (d : Deputy) (k : string) :
  (get (deputyKey d) m = None ->
   exists e, get (deputyKey d) (deputyStep m d) = Some e /\
             name e = apellidosNombre d /\ count e = 1 /\
             (inMixedGroup d -> dc_party e = Some "Grupo Mixto"%string) /\
             (~ inMixedGroup d -> dc_party e = or_else (formacion d) (grupo d))) /\
  (forall e, get (deputyKey d) m = Some e ->
             get (deputyKey d) (deputyStep m d) =
             Some {| name := name e; dc_party := dc_party e;
                     count := count e + 1 |}) /\
  (k <> deputyKey d -> get k (deputyStep m d) = get k m).
Proof.
  split; [| split].
  - intros Hnone. rewrite deputyStep_get, String.eqb_refl, Hnone.
    eexists. split; [reflexivity |]. cbn [name count dc_party].
    split; [reflexivity |]. split; [reflexivity |].
    assert (Hmix : match grupo d with
                   | Some g => includes (toLowerCase g) "mixto"
                   | None => false
                   end = true <-> inMixedGroup d).
    { unfold inMixedGroup. destruct (grupo d) as [g |].
      - rewrite includes_spec. unfold contains. split.
        + intros (pre & post & H).
          apply toLowerCase_split in H. destruct H as (a1 & a23 & -> & H1 & H23).
          apply toLowerCase_split in H23. destruct H23 as (a2 & a3 & -> & H2 & H3).
          now exists (a1 ++ a2 ++ a3)%string, a1, a2, a3.
        + intros (g' & pre & w & post & [= <-] & -> & Hw).
          exists (toLowerCase pre), (toLowerCase post).
          now rewrite !toLowerCase_app, Hw.
      - split; [discriminate | intros (g & ? & ? & ? & H & _); discriminate H]. }
    destruct (match grupo d with
              | Some g => includes (toLowerCase g) "mixto"
              | None => false
              end).
    + split; [reflexivity | intros H; exfalso; apply H, Hmix; reflexivity].
    + split; [intros H; apply Hmix in H; discriminate H | reflexivity].
  - intros e He. now rewrite deputyStep_get, String.eqb_refl, He.
  - intros Hk. rewrite deputyStep_get.
    now destruct (String.eqb_spec k (deputyKey d)).
Qed.

Lemma deputyStep_entry_witness :
  exists e,
    get "77" (deputyStep [] {| codParlamentario := Some "77"%string;
                               apellidosNombre := Some "Pérez, Ana"%string;
                               grupo := Some "Grupo Parlamentario MIXTO"%string;
                               formacion := Some "BNG"%string |}) = Some e /\
    dc_party e = Some "Grupo Mixto"%string.
Proof.
  destruct (deputyStep_entry [] {| codParlamentario := Some "77"%string;
                                   apellidosNombre := Some "Pérez, Ana"%string;
                                   grupo := Some "Grupo Parlamentario MIXTO"%string;
                                   formacion := Some "BNG"%string |} ""%string)
    as [H _].
  destruct (H eq_refl) as (e & He & _ & _ & Hm & _).
  exists e. split; [exact He |]. apply Hm.
  exists "Grupo Parlamentario MIXTO"%string, "Grupo Parlamentario "%string,
         "MIXTO"%string, ""%string.
  repeat split; reflexivity.
Defined.

Lemma deputyLoop_records (l : list Initiative) (m : list (string * DeputyCount)) :
  fold_left (fun m init => fold_left deputyStep (noVoteListOf init) m) l m =
  fold_left deputyStep (flat_map noVoteListOf l) m.
Proof.
  revert m. induction l as [| i l IH]; intros m; [reflexivity |].
  cbn [fold_left flat_map]. now rewrite fold_left_app, IH.
Qed.

Lemma deputyStep_NoDup (m : list (string * DeputyCount)) (d : Deputy) :
  NoDup (map fst m) -> NoDup (map fst (deputyStep m d)).
Proof. unfold deputyStep. cbv zeta. apply update_NoDup. Qed.

Lemma deputyFold_NoDup (ds : list Deputy) (m : list (string * DeputyCount)) :
  NoDup (map fst m) -> NoDup (map fst (fold_left deputyStep ds m)).
Proof.
  revert m. induction ds as [| d ds IH]; intros m H; [exact H |].
  cbn [fold_left]. apply IH. now apply deputyStep_NoDup.
Qed.

Lemma deputyStep_party (d : Deputy) (k : string) (m : list (string * DeputyCount)) :
  get k m = None -> k = deputyKey d ->
  get k (deputyStep m d) = Some (entryOf d 1).
Proof.
  intros Hn ->. now rewrite deputyStep_get, String.eqb_refl, Hn.
Qed.

(** The entry of a key after a run of the second loop. *)
Lemma deputyFold_get (k : string) (ds : list Deputy) (m : list (string * DeputyCount)) :
  get k (fold_left deputyStep ds m) =
  match get k m with
  | Some e => Some {| name := name e; dc_party := dc_party e;
                      count := count e + recordCount k ds |}
  | None =>
    match firstRecord k ds with
    | Some d => Some (entryOf d (recordCount k ds))
    | None => None
    end
  end.
Proof.
  revert m. induction ds as [| d ds IH]; intros m.
  - cbn [fold_left]. unfold recordCount, firstRecord, countIf. cbn.
    destruct (get k m) as [[n p c] |]; [| reflexivity].
    cbn. now rewrite Z.add_0_r.
  - cbn [fold_left]. rewrite IH, deputyStep_get.
    unfold recordCount, firstRecord. cbn [find]. rewrite countIf_step.
    destruct (String.eqb_spec k (deputyKey d)) as [-> | Hne]; cbn [one].
    + destruct (get (deputyKey d) m) as [e0 |].
      * cbn [name dc_party count]. do 2 f_equal. lia.
      * unfold entryOf. cbn [name dc_party count]. reflexivity.
    + rewrite Z.add_0_l. reflexivity.
Qed.

Lemma recordCount_first (k : string) (ds : list Deputy) (d : Deputy) :
  firstRecord k ds = Some d -> 1 <= recordCount k ds /\ In d ds /\ deputyKey d = k.
Proof.
  unfold firstRecord, recordCount. intros H.
  pose proof (find_some _ _ H) as [Hin Hk]. apply String.eqb_eq in Hk.
  split; [| now split].
  assert (0 < countIf (fun d0 => String.eqb k (deputyKey d0)) ds); [| lia].
  apply countIf_pos. exists d. split; [exact Hin |]. now apply String.eqb_eq.
Qed.

Lemma byDeputyCount_key (a b : DeputyCount) :
  True -> True ->
  gtb (sub (of_Z (count b)) (of_Z (count a))) (of_Z 0) = (- count b <? - count a).
Proof.
  intros _ _. rewrite sub_of_Z, gtb_of_Z.
  destruct (Z.ltb_spec 0 (count b - count a)),
           (Z.ltb_spec (- count b) (- count a)); auto; lia.
Qed.

(** X20: [deputyRanking] lists at most 10 deputies in decreasing order of
    count.  Each entry belongs to a deputy key of the dataset: its count is
    the number of no-vote records with that key, over all the initiatives
    (the second loop has no guard on [voting.exists] or on the breakdown),
    and its name and party are those of the first such record. *)
Theorem deputyRanking_top10 (initiatives : list Initiative) :
  let ranking := deputyRanking (calculateParticipationStats initiatives) in
  let records := recordsOf initiatives in
  (List.length ranking <= 10)%nat /\
  StronglySorted (fun a b => count b <= count a) ranking /\
  (forall e, In e ranking ->
             exists k d,
               firstRecord k records = Some d /\ In d records /\
               deputyKey d = k /\
               e = entryOf d (recordCount k records) /\
               1 <= count e) /\
  (forall k d,
      firstRecord k records = Some d ->
      (List.length (deputyLoop initiatives) <= 10)%nat ->
      In (entryOf d (recordCount k records)) ranking).
Proof.
  cbv zeta. unfold calculateParticipationStats, participationReport, slice0.
  cbn [deputyRanking].
  set (cmp := fun a b : DeputyCount => sub (of_Z (count b)) (of_Z (count a))).
  pose proof (Array_sort_stable_sorted cmp (fun e => - count e) (fun _ => True)
                byDeputyCount_key (map snd (Object_entries (deputyLoop initiatives)))
                (proj2 (Forall_forall _ _) (fun _ _ => I))) as Hss.
  destruct (top_of_sorted _ 10 _ _ Hss) as (S1 & _ & _).
  assert (Hloop : deputyLoop initiatives =
                  fold_left deputyStep (recordsOf initiatives) []).
  { unfold deputyLoop, recordsOf. apply deputyLoop_records. }
  assert (Hentry : forall k e,
             In (k, e) (deputyLoop initiatives) <->
             exists d, firstRecord k (recordsOf initiatives) = Some d /\
                       e = entryOf d (recordCount k (recordsOf initiatives))).
  { intros k e. rewrite Hloop.
    rewrite get_In by (apply deputyFold_NoDup; constructor).
    rewrite deputyFold_get. cbn [get].
    destruct (firstRecord k (recordsOf initiatives)) as [d |]; split.
    - intros [= <-]. now exists d.
    - intros (d' & [= <-] & ->). reflexivity.
    - discriminate.
    - intros (d' & H & _). discriminate H. }
  split; [rewrite length_firstn; lia |].
  split; [eapply StronglySorted_weaken; [| exact S1]; cbv beta; intros; lia |].
  split.
  - intros e He. apply in_firstn in He.
    apply (Permutation_in _ (Permutation_sym (Array_sort_perm cmp _))) in He.
    apply in_map_iff in He. destruct He as ([k e'] & <- & Hin). cbn [snd].
    apply Object_entries_In, Hentry in Hin. destruct Hin as (d & Hf & ->).
    destruct (recordCount_first _ _ _ Hf) as (Hc & Hd & Hk).
    exists k, d. repeat split; try assumption.
  - intros k d Hf Hlen.
    rewrite firstn_all2
      by (rewrite Array_sort_length, length_map, Object_entries_length; exact Hlen).
    apply (Permutation_in _ (Array_sort_perm cmp _)).
    apply in_map_iff. exists (k, entryOf d (recordCount k (recordsOf initiatives))).
    split; [reflexivity |]. apply Object_entries_In, Hentry. now exists d.
Qed.

End Deputies.

(** ** More on the broken blocks *)

Section BlocksMore.

Lemma brokenBlockOf_shape (init : Initiative) (p : string) (votes : PartyVotes) :
  (List.length (brokenBlockOf init p votes) <= 1)%nat /\
  (forall b, In b (brokenBlockOf init p votes) ->
             party b = p /\ bb_initiative b = init /\ 5 <= totalOf votes).
Proof.
  unfold brokenBlockOf. cbv zeta.
  destruct (Z.ltb_spec (totalOf votes) 5) as [| Ht]; [cbn; split; [lia | tauto] |].
  destruct (gtb _ _ && ltb _ _); [| cbn; split; [lia | tauto]].
  destruct (0 <? List.length (minorsOf votes))%nat; cbn [List.length In];
    (split; [lia |]); [| tauto].
  intros b [<- | []]. now repeat split.
Qed.

Lemma blocks_distinct (init : Initiative) (pv : list (string * PartyVotes)) :
  NoDup (map fst pv) ->
  NoDup (map party (flat_map (fun '(p, votes) => brokenBlockOf init p votes) pv)).
Proof.
  induction pv as [| [p votes] pv IH]; cbn [map fst flat_map]; intros H.
  - constructor.
  - inversion H as [| ? ? Hnot Hnd]; subst. rewrite map_app.
    destruct (brokenBlockOf_shape init p votes) as [Hlen Hsh].
    apply NoDup_app.
    + destruct (brokenBlockOf init p votes) as [| b [| b' bs]]; cbn in *;
        [constructor | repeat constructor; intros [] | lia].
    + now apply IH.
    + intros q Hq Hq'. apply in_map_iff in Hq. destruct Hq as (b & <- & Hb).
      destruct (Hsh b Hb) as (Hp & _). rewrite Hp in Hq'.
      apply in_map_iff in Hq'. destruct Hq' as (b' & Hp' & Hb').
      apply in_flat_map in Hb'. destruct Hb' as ([p' v'] & Hin & Hb').
      destruct (brokenBlockOf_shape init p' v') as [_ Hsh'].
      destruct (Hsh' b' Hb') as (Hp'' & _).
      apply Hnot. apply in_map_iff. exists (p', v'). split; [| exact Hin].
      cbn [fst]. congruence.
Qed.

(** X21: every block returned belongs to an initiative of the dataset that
    the first loop does not skip, and names a party that this initiative's
    breakdown mentions, with at least 5 votes; one initiative never yields
    two blocks for the same party. *)
Theorem brokenBlocks_sound (initiatives : list Initiative) :
  (forall b,
      In b (brokenBlocks (calculateParticipationStats initiatives)) ->
      In (bb_initiative b) initiatives /\
      exists t d,
        breakdownOf (bb_initiative b) = Some (t, d) /\
        mentions d (party b) = true /\
        5 <= totalOf (tallyOf d (party b))) /\
  (forall init, NoDup (map party (blocksOf init))).
Proof.
  split.
  - intros b Hb.
    unfold calculateParticipationStats, participationReport, slice0 in Hb.
    cbn [brokenBlocks] in Hb. unfold participationLoop in Hb.
    rewrite participationFold_blocks in Hb. cbn [acc_brokenBlocks app] in Hb.
    apply in_firstn in Hb. apply in_flat_map in Hb.
    destruct Hb as (init & Hin & Hb). unfold blocksOf in Hb.
    destruct (breakdownOf init) as [[t d] |] eqn:E; [| contradiction].
    unfold brokenBlocksOf in Hb. apply in_flat_map in Hb.
    destruct Hb as ([p votes] & Hpv & Hb).
    apply Object_entries_In, partyVotesOf_entries in Hpv. destruct Hpv as [Hm ->].
    destruct (brokenBlockOf_shape init p (tallyOf d p)) as [_ Hsh].
    destruct (Hsh b Hb) as (Hp & Hi & Ht). rewrite Hi, Hp.
    split; [exact Hin |]. now exists t, d.
  - intros init. unfold blocksOf.
    destruct (breakdownOf init) as [[t d] |]; [| constructor].
    unfold brokenBlocksOf. apply blocks_distinct.
    apply Object_entries_NoDup, partyVotesOf_NoDup.
Qed.

End BlocksMore.

Section TalliesMore.

(** X22: [countVotes] builds one entry of [partyVotes] for each party that
    the breakdown mentions in some category, and none for any other; the
    four fields of the entry are the party's counts in Yes, No, Abstain and
    no-vote (0 for a category that does not mention it). *)
Theorem partyVotes_tallies (d : Desglose) :
  NoDup (map fst (partyVotesOf d)) /\
  (forall party votes,
      In (party, votes) (partyVotesOf d) <->
      mentions d party = true /\ votes = tallyOf d party) /\
  (forall party,
      get party (partyVotesOf d) =
      if mentions d party then Some (tallyOf d party) else None) /\
  (forall party r, mentionedIn party r = false -> sumFor party r = 0).
Proof.
  split; [apply partyVotesOf_NoDup |].
  split; [apply partyVotesOf_entries |].
  split; [apply partyVotesOf_get | apply sumFor_unmentioned].
Qed.

End TalliesMore.
